(** * Region metrics dashboard: the data pipeline of [utils.py]

    A shallow embedding of the functions of [02_streamlit/utils.py] that
    prepare the data of the dashboard, and the properties they satisfy:

    - [norm_str]                      the join-key normaliser,
    - [guess_geojson_region_key]      detection of the name property,
    - [geojson_with_norm_names]       annotation of a copy of the GeoJSON,
    - [load_data]                     coercion and filtering of the CSV table,
    - [build_region_metrics]          region-year aggregation, rate, variation,
    - [compute_matching_diagnostics]  coverage of the join,
    - [load_geojson]                  the GeoJSON document as objects,

    and, of [02_streamlit/pages/2_Tableau_de_bord.py], the detection of
    the columns ([guess_class_col], [guess_commune_col]), the table of the
    category charts and the label of the commune search; of
    [02_streamlit/pages/1_Carte_interactive.py], the slider of the year.

    Python text is a list of code points, floating-point columns are
    idealised as exact rationals with the missing value apart, dictionaries
    keep their insertion order, and the objects that the GeoJSON functions
    mutate live in an explicit store. *)

From Stdlib Require Import String Ascii QArith Qround Qfield.
From stdpp Require Import base option list sorting gmap.

Set Warnings "-register-all".

Local Open Scope N_scope.
Local Open Scope list_scope.

(** * Part I: definitions *)

(** ** Text *)

(** A Python [str]: the sequence of its code points. *)
Abbreviation str := (list N) (only parsing).

(** ASCII literals. *)
Fixpoint u (s : string) : str :=
  match s with
  | EmptyString => []
  | String a s' => N_of_ascii a :: u s'
  end.

(** Lexicographic order on code points, the order of [str.__lt__]. *)
Fixpoint str_leb (a b : str) : bool :=
  match a, b with
  | [], _ => true
  | _ :: _, [] => false
  | x :: a', y :: b' =>
      if x <? y then true else if x =? y then str_leb a' b' else false
  end.

(** ** The character database

    [unicodedata] and the [str] methods read the Unicode Character Database.
    The tables below are its entries (version 14) for the blocks Basic Latin,
    Latin-1 Supplement and Combining Diacritical Marks, the complete list of
    whitespace characters, and the spacing marks U+1B44, U+302E, U+302F,
    U+1D165 and U+1D16D.  Outside of them a code point is taken to be a
    caseless starter without decomposition. *)
Module Unicode.

Definition in_range (lo hi c : N) : bool := (lo <=? c) && (c <=? hi).

(** [str.isspace] on one character: what [strip] and [split] skip. *)
Definition isspace (c : N) : bool :=
  in_range 0x09 0x0D c || in_range 0x1C 0x20 c || (c =? 0x85) || (c =? 0xA0)
  || (c =? 0x1680) || in_range 0x2000 0x200A c || in_range 0x2028 0x2029 c
  || (c =? 0x202F) || (c =? 0x205F) || (c =? 0x3000).

(** Simple lowercase mapping. *)
Definition lower_cp (c : N) : N :=
  if in_range 0x41 0x5A c || (in_range 0xC0 0xDE c && negb (c =? 0xD7))
  then c + 32 else c.

(** Canonical decomposition of a Latin-1 letter: base letter and mark. *)
Definition latin1_mark (c : N) : option (N * N) :=
  match c with
  | 0xC0 => Some (0x41, 0x300) | 0xC1 => Some (0x41, 0x301)
  | 0xC2 => Some (0x41, 0x302) | 0xC3 => Some (0x41, 0x303)
  | 0xC4 => Some (0x41, 0x308) | 0xC5 => Some (0x41, 0x30A)
  | 0xC7 => Some (0x43, 0x327)
  | 0xC8 => Some (0x45, 0x300) | 0xC9 => Some (0x45, 0x301)
  | 0xCA => Some (0x45, 0x302) | 0xCB => Some (0x45, 0x308)
  | 0xCC => Some (0x49, 0x300) | 0xCD => Some (0x49, 0x301)
  | 0xCE => Some (0x49, 0x302) | 0xCF => Some (0x49, 0x308)
  | 0xD1 => Some (0x4E, 0x303)
  | 0xD2 => Some (0x4F, 0x300) | 0xD3 => Some (0x4F, 0x301)
  | 0xD4 => Some (0x4F, 0x302) | 0xD5 => Some (0x4F, 0x303)
  | 0xD6 => Some (0x4F, 0x308)
  | 0xD9 => Some (0x55, 0x300) | 0xDA => Some (0x55, 0x301)
  | 0xDB => Some (0x55, 0x302) | 0xDC => Some (0x55, 0x308)
  | 0xDD => Some (0x59, 0x301)
  | 0xE0 => Some (0x61, 0x300) | 0xE1 => Some (0x61, 0x301)
  | 0xE2 => Some (0x61, 0x302) | 0xE3 => Some (0x61, 0x303)
  | 0xE4 => Some (0x61, 0x308) | 0xE5 => Some (0x61, 0x30A)
  | 0xE7 => Some (0x63, 0x327)
  | 0xE8 => Some (0x65, 0x300) | 0xE9 => Some (0x65, 0x301)
  | 0xEA => Some (0x65, 0x302) | 0xEB => Some (0x65, 0x308)
  | 0xEC => Some (0x69, 0x300) | 0xED => Some (0x69, 0x301)
  | 0xEE => Some (0x69, 0x302) | 0xEF => Some (0x69, 0x308)
  | 0xF1 => Some (0x6E, 0x303)
  | 0xF2 => Some (0x6F, 0x300) | 0xF3 => Some (0x6F, 0x301)
  | 0xF4 => Some (0x6F, 0x302) | 0xF5 => Some (0x6F, 0x303)
  | 0xF6 => Some (0x6F, 0x308)
  | 0xF9 => Some (0x75, 0x300) | 0xFA => Some (0x75, 0x301)
  | 0xFB => Some (0x75, 0x302) | 0xFC => Some (0x75, 0x308)
  | 0xFD => Some (0x79, 0x301) | 0xFF => Some (0x79, 0x308)
  | _ => None
  end.

(** Full canonical decomposition of one character. *)
Definition decomposition (c : N) : list N :=
  match latin1_mark c with
  | Some (base, mark) => [base; mark]
  | None =>
      match c with
      | 0x340 => [0x300]
      | 0x341 => [0x301]
      | 0x343 => [0x313]
      | 0x344 => [0x308; 0x301]
      | _ => [c]
      end
  end.

(** Canonical combining class, [unicodedata.combining]. *)
Definition combining (c : N) : N :=
  if in_range 0x300 0x314 c then 230 else
  if c =? 0x315 then 232 else
  if in_range 0x316 0x319 c then 220 else
  if c =? 0x31A then 232 else
  if c =? 0x31B then 216 else
  if in_range 0x31C 0x320 c then 220 else
  if in_range 0x321 0x322 c then 202 else
  if in_range 0x323 0x326 c then 220 else
  if in_range 0x327 0x328 c then 202 else
  if in_range 0x329 0x333 c then 220 else
  if in_range 0x334 0x338 c then 1 else
  if in_range 0x339 0x33C c then 220 else
  if in_range 0x33D 0x344 c then 230 else
  if c =? 0x345 then 240 else
  if c =? 0x346 then 230 else
  if in_range 0x347 0x349 c then 220 else
  if in_range 0x34A 0x34C c then 230 else
  if in_range 0x34D 0x34E c then 220 else
  if c =? 0x34F then 0 else
  if in_range 0x350 0x352 c then 230 else
  if in_range 0x353 0x356 c then 220 else
  if c =? 0x357 then 230 else
  if c =? 0x358 then 232 else
  if in_range 0x359 0x35A c then 220 else
  if c =? 0x35B then 230 else
  if c =? 0x35C then 233 else
  if in_range 0x35D 0x35E c then 234 else
  if c =? 0x35F then 233 else
  if in_range 0x360 0x361 c then 234 else
  if c =? 0x362 then 233 else
  if in_range 0x363 0x36F c then 230 else
  if c =? 0x1B44 then 9 else
  if in_range 0x302E 0x302F c then 224 else
  if c =? 0x1D165 then 216 else
  if c =? 0x1D16D then 226 else 0.

(** [unicodedata.category(ch) == "Mn"]: nonspacing mark.  The spacing
    marks of the table (category Mc) are not. *)
Definition is_Mn (c : N) : bool := in_range 0x300 0x36F c.

(** Canonical ordering: a character of non-zero class moves in front of
    the characters of greater class that precede it.  [out] is the text
    placed so far, last character first. *)
Fixpoint place (c : N) (out : list N) : list N :=
  match out with
  | p :: out' =>
      if (0 <? combining c) && (combining c <? combining p)
      then p :: place c out'
      else c :: out
  | [] => [c]
  end.

Definition canonical_order (s : list N) : list N :=
  rev (fold_left (fun out c => place c out) s []).

(** [unicodedata.normalize("NFD", s)]. *)
Definition nfd (s : list N) : list N :=
  canonical_order (flat_map decomposition s).

End Unicode.

(** ** String methods *)

(** [s.lstrip()] *)
Fixpoint lstrip (s : str) : str :=
  match s with
  | c :: s' => if Unicode.isspace c then lstrip s' else s
  | [] => []
  end.

(** [s.strip()] *)
Definition strip (s : str) : str := rev (lstrip (rev (lstrip s))).

(** [s.lower()] *)
Definition lower (s : str) : str := map Unicode.lower_cp s.

(** [s.split()]: the maximal runs of characters that are not whitespace. *)
Fixpoint split (s : str) : list str :=
  match s with
  | [] => []
  | c :: s' =>
      let rest := split s' in
      if Unicode.isspace c then rest
      else match s' with
           | d :: _ =>
               if Unicode.isspace d then [c] :: rest
               else match rest with
                    | w :: ws => (c :: w) :: ws
                    | [] => [[c]]
                    end
           | [] => [[c]]
           end
  end.

(** [" ".join(words)] *)
Fixpoint join (words : list str) : str :=
  match words with
  | [] => []
  | [w] => w
  | w :: ws => w ++ 0x20 :: join ws
  end.

(** ** Normalisation *)

(** The argument of [norm_str]: [None], a [str], or any other object, which
    the function only sees through the text [str()] gives for it. *)
Inductive arg :=
  | ANone
  | AStr (s : str)
  | AObject (text : str).

(** [str(s)] for an argument that is not [None]. *)
Definition py_str (a : arg) : str :=
  match a with
  | ANone => u "None"
  | AStr s => s
  | AObject text => text
  end.

(** The four rewriting steps of [norm_str] on a text. *)
Definition normalize (s : str) : str :=
  let s := lower (strip s) in
  let s := Unicode.nfd s in
  let s := filter (fun ch => Unicode.is_Mn ch = false) s in
  join (split s).

Definition norm_str (s : arg) : str :=
  match s with
  | ANone => []
  | _ => normalize (py_str s)
  end.

(** ** Exceptions *)

Inductive exn :=
  | FileNotFoundError
  | KeyError
  | IndexError
  | TypeError
  | AttributeError
  | ValueError.

(** The outcome of a call that may raise. *)
Inductive result (A : Type) :=
  | Ok (a : A)
  | Raise (e : exn).
Arguments Ok {A} a.
Arguments Raise {A} e.

#[global] Instance result_ret : MRet result := fun A a => Ok a.
#[global] Instance result_bind : MBind result := fun A B f m =>
  match m with
  | Ok a => f a
  | Raise e => Raise e
  end.

#[global] Instance result_fmap : FMap result := fun A B f m =>
  match m with
  | Ok a => Ok (f a)
  | Raise e => Raise e
  end.

(** ** JSON values and dictionaries *)

(** A dictionary with text keys, in insertion order. *)
Abbreviation dict V := (list (list N * V)) (only parsing).

Fixpoint dict_get {V} (k : str) (d : dict V) : option V :=
  match d with
  | [] => None
  | (k', v) :: d' => if decide (k = k') then Some v else dict_get k d'
  end.

(** [d[k] = v]: the binding is replaced where it stands, or added last. *)
Fixpoint dict_set {V} (k : str) (v : V) (d : dict V) : dict V :=
  match d with
  | [] => [(k, v)]
  | (k', v') :: d' =>
      if decide (k = k') then (k, v) :: d' else (k', v') :: dict_set k v d'
  end.

(** What [json.loads] returns, as a tree. *)
Inductive json :=
  | JNull
  | JBool (b : bool)
  | JNum (q : Q)
  | JStr (s : str)
  | JArr (items : list json)
  | JObj (members : dict json).

(** Truth value of a JSON value in a condition. *)
Definition truthy (v : json) : bool :=
  match v with
  | JNull => false
  | JBool b => b
  | JNum q => negb (Qeq_bool q 0)
  | JStr s => negb (bool_decide (s = []))
  | JArr l => negb (bool_decide (l = []))
  | JObj d => negb (bool_decide (d = []))
  end.

(** [o.get(k, default)]; only dictionaries have the method. *)
Definition get_method (o : json) (k : str) (dflt : json) : result json :=
  match o with
  | JObj d => Ok (default dflt (dict_get k d))
  | _ => Raise AttributeError
  end.

(** [c[0]] *)
Definition first_item (c : json) : result json :=
  match c with
  | JArr (x :: _) => Ok x
  | JArr [] => Raise IndexError
  | JStr (ch :: _) => Ok (JStr [ch])
  | JStr [] => Raise IndexError
  | JObj _ => Raise KeyError
  | _ => Raise TypeError
  end.

Fixpoint is_prefix (p s : str) : bool :=
  match p, s with
  | [], _ => true
  | x :: p', y :: s' => (x =? y) && is_prefix p' s'
  | _ :: _, [] => false
  end.

Fixpoint is_substring (p s : str) : bool :=
  is_prefix p s || match s with [] => false | _ :: s' => is_substring p s' end.

(** [k in c] for a text [k]: a key of a dictionary, an item of a list, a
    substring of a text. *)
Definition contains (k : str) (c : json) : result bool :=
  match c with
  | JObj d => Ok (bool_decide (is_Some (dict_get k d)))
  | JArr l =>
      Ok (existsb (fun x => match x with
                            | JStr s => bool_decide (s = k)
                            | _ => false
                            end) l)
  | JStr s => Ok (is_substring k s)
  | _ => Raise TypeError
  end.

(** [for x in c]: the items of a list, the keys of a dictionary, the
    characters of a text. *)
Definition iterate (c : json) : result (list json) :=
  match c with
  | JArr l => Ok l
  | JObj d => Ok (map (fun kv => JStr kv.1) d)
  | JStr s => Ok (map (fun ch => JStr [ch]) s)
  | _ => Raise TypeError
  end.

(** ** Detection of the name property *)

Definition candidates : list str :=
  [ u "nom"; u "Nom"; u "NOM";
    u "name"; u "Name"; u "NAME";
    u "region"; u "REGION";
    u "libelle"; u "LIBELLE";
    u "nom_region"; u "NOM_REGION" ].

(** The loop [for k in candidates: if k in props: return k]. *)
Fixpoint first_candidate (cands : list str) (props : json)
  : result (option str) :=
  match cands with
  | [] => Ok None
  | k :: ks =>
      b ← contains k props;
      if b : bool then Ok (Some k) else first_candidate ks props
  end.

(** [isinstance(v, str) and v.strip()] *)
Definition is_text (v : json) : bool :=
  match v with
  | JStr s => negb (bool_decide (strip s = []))
  | _ => false
  end.

Definition guess_geojson_region_key (geojson : json) : result str :=
  features ← get_method geojson (u "features") (JArr []);
  if negb (truthy features) then Ok (u "nom")
  else
    first ← first_item features;
    props ← get_method first (u "properties") (JObj []);
    let props := if truthy props then props else JObj [] in
    hit ← first_candidate candidates props;
    match hit with
    | Some k => Ok k
    | None =>
        match props with
        | JObj d =>
            match List.find (fun kv => is_text kv.2) d with
            | Some (k, _) => Ok k
            | None =>
                match d with
                | (k, _) :: _ => Ok k
                | [] => Ok (u "nom")
                end
            end
        | _ => Raise AttributeError
        end
    end.

(** ** Tables *)

(** A cell of a column that [read_csv] has parsed: missing, text, or a
    number. *)
Inductive cell :=
  | NaN
  | Text (s : str)
  | Number (q : Q).

(** A row of the parsed CSV, restricted to the columns that the module
    reads.  The two name columns hold text or the missing value. *)
Record RawRow := {
  raw_nom_region : option str;
  raw_nom_region_norm : option str;
  raw_annee : cell;
  raw_nombre : cell;
  raw_insee_pop : cell;
}.

Record RawFrame := {
  raw_columns : list string;
  raw_rows : list RawRow;
}.

(** A row after the coercions of [load_data]: [None] is the missing value
    ([NaN], [<NA>]).  [annee] has dtype [Int64], the two measures are
    floating-point columns, read here as exact rationals. *)
Record Row := {
  nom_region : option str;
  nom_region_norm : option str;
  annee : option Z;
  nombre : option Q;
  insee_pop : option Q;
}.

(** The header and the rows.  A field whose column is not in the header
    is not part of the table. *)
Record DataFrame := {
  columns : list string;
  rows : list Row;
}.

Definition has_column (c : string) (cols : list string) : bool :=
  bool_decide (c ∈ cols).

(** ** Loading the CSV *)

Section Loader.

(** [pd.to_numeric] on a text cell: the number it spells, if any. *)
Variable parse_number : str -> option Q.

(** [pd.to_numeric(..., errors="coerce")] on one cell. *)
Definition to_numeric (c : cell) : option Q :=
  match c with
  | NaN => None
  | Number q => Some q
  | Text s => parse_number s
  end.

(** [.astype("Int64")] on one value: a float with a fractional part
    cannot be cast. *)
Definition astype_Int64 (x : option Q) : result (option Z) :=
  match x with
  | None => Ok None
  | Some q =>
      if Qeq_bool q (inject_Z (Qfloor q)) then Ok (Some (Qfloor q))
      else Raise TypeError
  end.

(** [norm_str] mapped over the region column; [str(nan)] is ["nan"]. *)
Definition norm_cell (x : option str) : str :=
  match x with
  | Some s => norm_str (AStr s)
  | None => norm_str (AObject (u "nan"))
  end.

(** The three coercion steps on one row. *)
Definition coerce_row (cols : list string) (r : RawRow) : result Row :=
  a ← (if has_column "annee" cols
       then astype_Int64 (to_numeric (raw_annee r))
       else Ok None);
  Ok {| nom_region := raw_nom_region r;
        nom_region_norm := raw_nom_region_norm r;
        annee := a;
        nombre := if has_column "nombre" cols
                  then to_numeric (raw_nombre r) else None;
        insee_pop := if has_column "insee_pop" cols
                     then to_numeric (raw_insee_pop r) else None |}.

(** [notna() & notna()] *)
Definition released (r : Row) : bool :=
  bool_decide (is_Some (nombre r)) && bool_decide (is_Some (insee_pop r)).

Definition with_norm (r : Row) : Row :=
  {| nom_region := nom_region r;
     nom_region_norm := Some (norm_cell (nom_region r));
     annee := annee r;
     nombre := nombre r;
     insee_pop := insee_pop r |}.

(** [csv] is the table that [read_csv] parses at [data_path], [None]
    when the path does not exist. *)
Definition load_data (csv : option RawFrame) : result DataFrame :=
  match csv with
  | None => Raise FileNotFoundError
  | Some raw =>
      let cols := raw_columns raw in
      df ← mapM (coerce_row cols) (raw_rows raw);
      let df :=
        if has_column "nombre" cols && has_column "insee_pop" cols
        then List.filter released df else df in
      if has_column "nom_region" cols
      then Ok {| columns := if has_column "nom_region_norm" cols
                            then cols else cols ++ ["nom_region_norm"%string];
                 rows := map with_norm df |}
      else Ok {| columns := cols; rows := df |}
  end.

End Loader.

(** ** Region-year metrics *)

(** A group of [groupby(["nom_region", "nom_region_norm", "annee"])]. *)
Abbreviation key := (list N * list N * Z)%type (only parsing).

(** A row of the aggregated table, before the variation is known. *)
Record RegionYear := {
  ry_key : key;
  nb_region : Q;
  pop_region : option Q;
  taux_region_pour_mille : option Q;
}.

Definition ry_nom_region (g : RegionYear) : str := (ry_key g).1.1.
Definition ry_nom_region_norm (g : RegionYear) : str := (ry_key g).1.2.
Definition ry_annee (g : RegionYear) : Z := (ry_key g).2.

(** A row of the table that [build_region_metrics] returns. *)
Record Metric := {
  group : RegionYear;
  variation_region : Q;
}.

Definition required : list string :=
  ["nom_region"; "nom_region_norm"; "annee"; "nombre"; "insee_pop"]%string.

(** The group of a row; rows with a missing key belong to no group. *)
Definition key_of (r : Row) : option key :=
  match nom_region r, nom_region_norm r, annee r with
  | Some a, Some b, Some y => Some (a, b, y)
  | _, _, _ => None
  end.

Definition str_ltb (a b : str) : bool := str_leb a b && negb (str_leb b a).

(** Order of the group keys, column after column. *)
Definition key_leb (a b : key) : bool :=
  str_ltb a.1.1 b.1.1
  || (bool_decide (a.1.1 = b.1.1)
      && (str_ltb a.1.2 b.1.2
          || (bool_decide (a.1.2 = b.1.2) && (a.2 <=? b.2)%Z))).

(** Order of [sort_values(["nom_region", "annee"])]. *)
Definition region_year_leb (a b : RegionYear) : bool :=
  str_ltb (ry_nom_region a) (ry_nom_region b)
  || (bool_decide (ry_nom_region a = ry_nom_region b)
      && (ry_annee a <=? ry_annee b)%Z).

(** A stable sort. *)
Section Sort.
Context {A : Type} (leb : A -> A -> bool).

Fixpoint insert_sorted (x : A) (l : list A) : list A :=
  match l with
  | [] => [x]
  | y :: l' => if leb x y then x :: l else y :: insert_sorted x l'
  end.

Definition stable_sort (l : list A) : list A :=
  foldr insert_sorted [] l.
End Sort.

(** The distinct values, at their first occurrence. *)
Fixpoint unique {A} `{EqDecision A} (l : list A) : list A :=
  match l with
  | [] => []
  | x :: l' => x :: List.filter (fun y => negb (bool_decide (y = x))) (unique l')
  end.

(** Sum of a column that skips missing values. *)
Definition sum_skipna (l : list (option Q)) : Q :=
  foldr (fun x acc => match x with Some q => (q + acc)%Q | None => acc end)
        0%Q l.

Definition members (k : key) (l : list Row) : list Row :=
  List.filter (fun r => bool_decide (key_of r = Some k)) l.

(** [groupby(...).agg(nb_region=("nombre", "sum"),
                      pop_region=("insee_pop", "sum"))]:
    one row per group, groups in key order. *)
Definition groupby_sum (l : list Row) : list (key * Q * Q) :=
  map (fun k => (k, sum_skipna (map nombre (members k l)),
                    sum_skipna (map insee_pop (members k l))))
      (stable_sort key_leb (unique (omap key_of l))).

(** [replace({0: pd.NA})] on one value. *)
Definition replace_zero (q : Q) : option Q :=
  if Qeq_bool q 0 then None else Some q.

(** [1000 * (nb / pop)], missing when [pop] is. *)
Definition rate (nb : Q) (pop : option Q) : option Q :=
  match pop with
  | Some p => Some (1000 * (nb / p))%Q
  | None => None
  end.

Definition region_year (g : key * Q * Q) : RegionYear :=
  let pop := replace_zero g.2 in
  {| ry_key := g.1.1;
     nb_region := g.1.2;
     pop_region := pop;
     taux_region_pour_mille := rate g.1.2 pop |}.

(** Difference of two values, missing when either is. *)
Definition diff_value (x prev : option Q) : option Q :=
  match x, prev with
  | Some a, Some b => Some (a - b)%Q
  | _, _ => None
  end.

(** [groupby("nom_region")[...].diff()]: each row against the previous
    row of its region, in the order of the table.  [seen] holds the rows
    already visited, the most recent first. *)
Fixpoint groupby_diff (seen l : list RegionYear) : list (option Q) :=
  match l with
  | [] => []
  | g :: l' =>
      match List.find (fun p => bool_decide (ry_nom_region p = ry_nom_region g))
                      seen with
      | Some p => diff_value (taux_region_pour_mille g)
                             (taux_region_pour_mille p)
      | None => None
      end :: groupby_diff (g :: seen) l'
  end.

(** [fillna(0)] on one value. *)
Definition fillna0 (x : option Q) : Q := default 0%Q x.

Definition build_region_metrics (df : DataFrame) : result (list Metric) :=
  let missing :=
    List.filter (fun c => negb (has_column c (columns df))) required in
  if negb (bool_decide (missing = [])) then Raise KeyError
  else
    let g := map region_year (groupby_sum (rows df)) in
    let g := stable_sort region_year_leb g in
    let variation := map fillna0 (groupby_diff [] g) in
    Ok (zip_with (fun g v => {| group := g; variation_region := v |})
                 g variation).

(** ** Matching diagnostics *)

Record Diagnostics := {
  n_regions_data : nat;
  n_regions_geo : nat;
  missing_in_geo : list str;
  missing_in_data : list str;
}.

(** [feat.get("properties", {}).get("region_norm", "")] *)
Definition region_norm_of (feat : json) : result json :=
  props ← get_method feat (u "properties") (JObj []);
  get_method props (u "region_norm") (JStr []).

(** An element of the set of geo keys, after [if r]: text is kept when it
    is not empty; [null], [false] and zero are dropped with the empty
    text; lists and dictionaries cannot be hashed.  The other numbers and
    [true] are left out of the model: where such a key meets a text key
    [sorted] raises [TypeError]. *)
Definition geo_key (v : json) : result (option str) :=
  match v with
  | JStr s => Ok (if bool_decide (s = []) then None else Some s)
  | JNull => Ok None
  | JBool false => Ok None
  | JNum q => if Qeq_bool q 0 then Ok None else Raise TypeError
  | _ => Raise TypeError
  end.

Definition set_of (l : list str) : gset str := list_to_set l.

(** [sorted(...)] of a set of texts. *)
Definition sorted (s : gset str) : list str :=
  stable_sort str_leb (elements s).

Definition compute_matching_diagnostics
    (g_y : list Metric) (geojson_norm : json) : result Diagnostics :=
  features ← get_method geojson_norm (u "features") (JArr []);
  feats ← iterate features;
  values ← mapM region_norm_of feats;
  keys ← mapM geo_key values;
  let geo_regions := set_of (omap id keys) in
  let column := map (fun m => Some (ry_nom_region_norm (group m))) g_y in
  let data_regions := set_of (unique (omap id column)) in
  Ok {| n_regions_data := size data_regions;
        n_regions_geo := size geo_regions;
        missing_in_geo := sorted (data_regions ∖ geo_regions);
        missing_in_data := sorted (geo_regions ∖ data_regions) |}.

(** ** The object store

    [geojson_with_norm_names] assigns into dictionaries.  Lists and
    dictionaries are objects in a store, named by their location; a value
    is an immutable scalar or a reference to an object.  Two references to
    one location are one object. *)

Abbreviation loc := nat (only parsing).

Inductive value :=
  | VNone
  | VBool (b : bool)
  | VNum (q : Q)
  | VStr (s : str)
  | VRef (l : loc).

Inductive object :=
  | OList (items : list value)
  | ODict (members : dict value).

Abbreviation store := (list object) (only parsing).

(** A computation on the store that may raise. *)
Definition M (A : Type) : Type := store -> result A * store.

Definition ret {A} (a : A) : M A := fun h => (Ok a, h).

Definition bind {A B} (m : M A) (f : A -> M B) : M B := fun h =>
  match m h with
  | (Ok a, h') => f a h'
  | (Raise e, h') => (Raise e, h')
  end.

Notation "'let*' x ':=' m 'in' k" := (bind m (fun x => k))
  (at level 10, x pattern, m at level 100, k at level 200).

Definition lift {A} (r : result A) : M A := fun h => (r, h).

(** A new object, placed after all the others. *)
Definition alloc (o : object) : M value := fun h =>
  (Ok (VRef (length h)), h ++ [o]).

(** The dictionary behind [v], for a method call [v.get], [v.setdefault]. *)
Definition read_dict (v : value) : M (dict value) := fun h =>
  match v with
  | VRef l =>
      match h !! l with
      | Some (ODict d) => (Ok d, h)
      | _ => (Raise AttributeError, h)
      end
  | _ => (Raise AttributeError, h)
  end.

(** Assignment into the dictionary behind [v]. *)
Definition write_dict (v : value) (d : dict value) : M unit := fun h =>
  match v with
  | VRef l =>
      match h !! l with
      | Some (ODict _) => (Ok (), <[l := ODict d]> h)
      | _ => (Raise TypeError, h)
      end
  | _ => (Raise TypeError, h)
  end.

(** The items that [for x in v] visits. *)
Definition items_of (v : value) : M (list value) := fun h =>
  match v with
  | VRef l =>
      match h !! l with
      | Some (OList vs) => (Ok vs, h)
      | Some (ODict d) => (Ok (map (fun kv => VStr kv.1) d), h)
      | None => (Raise TypeError, h)
      end
  | VStr s => (Ok (map (fun ch => VStr [ch]) s), h)
  | _ => (Raise TypeError, h)
  end.

(** The loop [for x in l: body(x)]. *)
Fixpoint for_each {A} (body : A -> M unit) (l : list A) : M unit :=
  match l with
  | [] => ret ()
  | x :: l' => let* _ := body x in for_each body l'
  end.

(** The JSON tree that a value holds: the traversal of [json.dumps].  An
    object met again under itself is a circular reference, [ValueError];
    a chain of more than [depth] objects meets one of them twice when the
    store has [depth] objects. *)
Fixpoint tree (depth : nat) (h : store) (v : value) : result json :=
  match v with
  | VNone => Ok JNull
  | VBool b => Ok (JBool b)
  | VNum q => Ok (JNum q)
  | VStr s => Ok (JStr s)
  | VRef l =>
      match depth with
      | O => Raise ValueError
      | S depth' =>
          match h !! l with
          | Some (OList vs) => JArr <$> mapM (tree depth' h) vs
          | Some (ODict d) =>
              JObj <$> mapM (fun kv => pair kv.1 <$> tree depth' h kv.2) d
          | None => Raise ValueError
          end
      end
  end.


(** [json.dumps(v)], up to the text it writes: the tree of [v]. *)
Definition json_dumps (v : value) : M json := fun h =>
  (tree (length h) h v, h).

(** [f] applied along a list, the store passed from one call to the next. *)
Fixpoint build {A B} (f : A -> store -> B * store) (l : list A) (h : store)
  : list B * store :=
  match l with
  | [] => ([], h)
  | x :: l' =>
      let '(y, h1) := f x h in
      let '(ys, h2) := build f l' h1 in
      (y :: ys, h2)
  end.

(** [json.loads]: every list and dictionary of the tree becomes a new
    object. *)
Fixpoint loads (j : json) (h : store) {struct j} : value * store :=
  match j with
  | JNull => (VNone, h)
  | JBool b => (VBool b, h)
  | JNum q => (VNum q, h)
  | JStr s => (VStr s, h)
  | JArr js =>
      let '(vs, h') := build loads js h in
      (VRef (length h'), h' ++ [OList vs])
  | JObj d =>
      let '(kvs, h') :=
        build (fun kv h => let '(v, h1) := loads kv.2 h in ((kv.1, v), h1))
              d h in
      (VRef (length h'), h' ++ [ODict kvs])
  end.

Definition json_loads (j : json) : M value := fun h =>
  let '(v, h') := loads j h in (Ok v, h').

(** ** Loading the GeoJSON *)

(** What [load_geojson] finds at [geojson_path]: no file, a text that is
    not a JSON document, or the document that the text spells. *)
Inductive geo_file :=
  | Missing
  | Garbled
  | Document (j : json).

(** [json.loads(text)] behind the test of the path; [json.loads] raises a
    [ValueError] on a text that is not a document. *)
Definition load_geojson (file : geo_file) : M value :=
  match file with
  | Missing => lift (Raise FileNotFoundError)
  | Garbled => lift (Raise ValueError)
  | Document j => json_loads j
  end.

(** ** Annotation of the GeoJSON *)

Section GeoJSON.

(** [str(v)] for a number, a list or a dictionary. *)
Variable py_repr : store -> value -> str.

(** A value as [norm_str] receives it. *)
Definition arg_of (h : store) (v : value) : arg :=
  match v with
  | VNone => ANone
  | VStr s => AStr s
  | VBool b => AObject (if b then u "True" else u "False")
  | _ => AObject (py_repr h v)
  end.

Definition norm_value (v : value) : M str := fun h =>
  (Ok (norm_str (arg_of h v)), h).

(** The body of the loop.  [setdefault] makes the empty dictionary only
    where a feature has no ["properties"]. *)
Definition annotate (key : str) (feat : value) : M unit :=
  let* d := read_dict feat in
  let* props :=
    match dict_get (u "properties") d with
    | Some v => ret v
    | None =>
        let* p := alloc (ODict []) in
        let* _ := write_dict feat (dict_set (u "properties") p d) in
        ret p
    end in
  let* pd := read_dict props in
  let* s := norm_value (default (VStr []) (dict_get key pd)) in
  write_dict props (dict_set (u "region_norm") (VStr s) pd).

(** The key detection reads the copy [gj] and changes nothing: it is
    applied to the tree that [gj] holds. *)
Definition geojson_with_norm_names (geojson : value) : M (value * str) :=
  let* j := json_dumps geojson in
  let* gj := json_loads j in
  let* t := json_dumps gj in
  let* key := lift (guess_geojson_region_key t) in
  let* top := read_dict gj in
  let* feats :=
    match dict_get (u "features") top with
    | Some features => items_of features
    | None => ret []
    end in
  let* _ := for_each (annotate key) feats in
  ret (gj, key).

End GeoJSON.

(** ** The dashboard page

    The two detection functions of [pages/2_Tableau_de_bord.py] and the
    two preparations of the page that compute on the loaded table: the
    table of the category charts and the label of the commune search. *)

(** [{c.lower(): c for c in df.columns}]: a later column replaces an
    earlier one of the same lowercase name. *)
Definition cols_lower (cols : list string) : dict string :=
  fold_left (fun d c => dict_set (lower (u c)) c d) cols [].

(** The loop [for cand in candidates: if cand in cols_lower: return
    cols_lower[cand]], [None] at its end. *)
Fixpoint first_column (cands : list str) (d : dict string) : option string :=
  match cands with
  | [] => None
  | cand :: cands' =>
      match dict_get cand d with
      | Some c => Some c
      | None => first_column cands' d
      end
  end.

Definition class_candidates : list str :=
  [ u "classe_infraction"; u "classe"; u "categorie"; u "cat";
    u "type_infraction"; u "type"; u "nature"; u "indicateur"; u "libelle";
    u "infractions"; u "infraction" ].

Definition guess_class_col (df : DataFrame) : option string :=
  first_column class_candidates (cols_lower (columns df)).

Definition commune_candidates : list str :=
  [ u "nom_commune"; u "commune"; u "libelle_commune"; u "nom_comm";
    u "ville"; u "nom_ville" ].

Definition guess_commune_col (df : DataFrame) : option string :=
  first_column commune_candidates (cols_lower (columns df)).





(** [s.split(sep)] for a separator that is not empty: the text is read
    from the left; where the separator stands, the text read so far is a
    part and the separator is passed over.  [skip] counts the characters
    of a separator that remain to pass, [cur] is the part being read, last
    character first. *)
Fixpoint split_sep (sep s : str) (skip : nat) (cur : str) : list str :=
  match s with
  | [] => [rev cur]
  | c :: s' =>
      match skip with
      | S k => split_sep sep s' k cur
      | O =>
          if is_prefix sep s
          then rev cur :: split_sep sep s' (length sep - 1) []
          else split_sep sep s' 0 (c :: cur)
      end
  end.

(** The label of the select box,
    [f"{nom_commune} ({nom_departement}, {nom_region}) — INSEE {code}"],
    for the texts of the four cells. *)
Definition commune_label (nom dep reg code : str) : str :=
  nom ++ u " (" ++ dep ++ u ", " ++ reg ++ u ") " ++ 0x2014 :: u " INSEE " ++ code.

(** [choice.split("INSEE ")[-1].strip()] *)
Definition insee_of (choice : str) : str :=
  strip (default [] (last (split_sep (u "INSEE ") choice 0 []))).

(** ** The map page: the year *)

(** From [02_streamlit/pages/1_Carte_interactive.py], on the metrics [g]:
    [sorted([int(y) for y in g["annee"].dropna().unique()])]. *)
Definition years (g : list Metric) : list Z :=
  stable_sort Z.leb (unique (map (fun m => ry_annee (group m)) g)).

(** [min(l)] and [max(l)]: an empty sequence has none. *)
Definition py_min (l : list Z) : result Z :=
  match l with
  | [] => Raise ValueError
  | x :: l' => Ok (foldr Z.min x l')
  end.

Definition py_max (l : list Z) : result Z :=
  match l with
  | [] => Raise ValueError
  | x :: l' => Ok (foldr Z.max x l')
  end.

(** The arguments [min_value], [max_value] and [value] of the slider of
    the year. *)
Definition year_slider (g : list Metric) : result (Z * Z * Z) :=
  lo ← py_min (years g);
  hi ← py_max (years g);
  Ok (lo, hi, hi).

(** [g[g["annee"] == year]] *)
Definition year_rows (g : list Metric) (year : Z) : list Metric :=
  List.filter (fun m => (ry_annee (group m) =? year)%Z) g.

(** * Part I, continued: predicates and sample data *)

(** ** Words and characters *)

(** A word of [split]: not empty, no whitespace. *)
Definition word (w : str) : Prop :=
  w <> [] /\ Forall (fun c => Unicode.isspace c = false) w.

(** The text that follows a word in a joined text: nothing, or a space
    and more. *)
Definition breaks (rest : str) : Prop :=
  rest = [] \/ exists c rest', rest = c :: rest' /\ Unicode.isspace c = true.




(** The three spellings of the region name that the specification
    compares, and the tone marks U+302E, U+1B44 around a grapheme joiner. *)
Definition ile_de_france : str := 0xCE :: u "le-de-France".
Definition ile_de_france_plain : str := u "ile de france".
Definition ile_de_france_upper : str := u "  " ++ 0xCE :: u "LE-DE-FRANCE ".

(** ** Key detection *)

(** [x] is the first element of [l] that satisfies [P]. *)
Definition first_such {A} (P : A -> Prop) (l : list A) (x : A) : Prop :=
  exists i, l !! i = Some x /\ P x
            /\ forall j y, (j < i)%nat -> l !! j = Some y -> ~ P y.

(** A text with a character that is not whitespace. *)
Definition nonblank_text (v : json) : Prop :=
  exists s, v = JStr s /\ strip s <> [].

(** A text that is not empty. *)
Definition nonempty_text (v : json) : Prop :=
  exists s, v = JStr s /\ s <> [].

(** [p] is the properties of the first feature of [geojson]: the
    dictionary under ["properties"], empty when the feature has none or
    has [null]. *)
Definition first_feature_properties (geojson : json) (p : dict json) : Prop :=
  exists top fd rest,
    geojson = JObj top
    /\ dict_get (u "features") top = Some (JArr (JObj fd :: rest))
    /\ (dict_get (u "properties") fd = Some (JObj p)
        \/ (p = [] /\ (dict_get (u "properties") fd = None
                       \/ dict_get (u "properties") fd = Some JNull))).

(** A collection of one feature with the given properties. *)
Definition one_feature (props : json) : json :=
  JObj [(u "type", JStr (u "FeatureCollection"));
        (u "features", JArr [JObj [(u "properties", props)]])].

(** ** Tables and metrics *)

(** A row of the parsed CSV whose two measures are numbers after the
    coercion. *)
Definition usable (parse_number : str -> option Q) (x : RawRow) : bool :=
  bool_decide (is_Some (to_numeric parse_number (raw_nombre x)))
  && bool_decide (is_Some (to_numeric parse_number (raw_insee_pop x))).

(** A parsed CSV with a measure that is not released, one that is not a
    number, and a population of zero. *)
Definition sample_csv : RawFrame :=
  {| raw_columns := ["CODGEO_2025"; "annee"; "nom_region"; "nombre";
                     "insee_pop"]%string;
     raw_rows :=
       [ {| raw_nom_region := Some ile_de_france; raw_nom_region_norm := None;
            raw_annee := Number 2020; raw_nombre := Number 10;
            raw_insee_pop := Number 1000 |};
         {| raw_nom_region := Some ile_de_france; raw_nom_region_norm := None;
            raw_annee := Number 2021; raw_nombre := NaN;
            raw_insee_pop := Number 1000 |};
         {| raw_nom_region := Some (u "Bretagne"); raw_nom_region_norm := None;
            raw_annee := Text (u "2021"); raw_nombre := Text (u "ND");
            raw_insee_pop := Number 500 |};
         {| raw_nom_region := None; raw_nom_region_norm := None;
            raw_annee := NaN; raw_nombre := Number 3;
            raw_insee_pop := Number 0 |} ] |}.

(** A reader of numbers that knows one spelling. *)
Definition sample_parse (s : str) : option Q :=
  if bool_decide (s = u "2021") then Some 2021%Q else None.

(** The normalised key of a row is determined by its region name, as in
    the tables that [load_data] returns. *)
Definition key_by_region (l : list Row) : Prop :=
  forall r r', r ∈ l -> r' ∈ l ->
    nom_region r = nom_region r' -> nom_region_norm r = nom_region_norm r'.






(** A row of a table that [load_data] returns. *)
Definition sample_row (region : str) (year : Z) (n pop : Q) : Row :=
  {| nom_region := Some region;
     nom_region_norm := Some (norm_str (AStr region));
     annee := Some year;
     nombre := Some n;
     insee_pop := Some pop |}.

Definition all_columns : list string :=
  ["CODGEO_2025"; "annee"; "nom_region"; "nombre"; "insee_pop";
   "nom_region_norm"]%string.

(** The two rows of the specification's example. *)
Definition two_years : DataFrame :=
  {| columns := all_columns;
     rows := [ sample_row (u "A") 2020 10 1000;
               sample_row (u "A") 2021 20 1000 ] |}.


(** ** Diagnostics *)

(** The normalised keys of a metrics table. *)
Definition data_keys (g_y : list Metric) : list str :=
  map (fun m => ry_nom_region_norm (group m)) g_y.

(** A feature that carries the annotation [k]. *)
Definition feature_key (feat : json) (k : str) : Prop :=
  exists fd pd,
    feat = JObj fd
    /\ dict_get (u "properties") fd = Some (JObj pd)
    /\ dict_get (u "region_norm") pd = Some (JStr k).

(** An annotated feature collection and the annotations of its features,
    in order. *)
Definition annotated (geojson : json) (keys : list str) : Prop :=
  exists top fs,
    geojson = JObj top
    /\ (dict_get (u "features") top = Some (JArr fs)
        \/ (dict_get (u "features") top = None /\ fs = []))
    /\ Forall2 feature_key fs keys.

(** A table with a blank region name, and a collection that has no key
    for it. *)
Definition blank_region : DataFrame :=
  {| columns := all_columns;
     rows := [ sample_row (u " ") 2020 1 10;
               sample_row (u "Bretagne") 2020 2 20 ] |}.

Definition bretagne_only : json :=
  JObj [(u "type", JStr (u "FeatureCollection"));
        (u "features",
         JArr [JObj [(u "properties",
                      JObj [(u "nom", JStr (u "Bretagne"));
                            (u "region_norm", JStr (u "bretagne"))])]])].

(** ** The store and the copy *)

(** A value that does not refer to any of the first [n] objects. *)
Definition fresh_value (n : nat) (v : value) : Prop :=
  match v with
  | VRef l => (n <= l)%nat
  | _ => True
  end.

Definition fresh_object (n : nat) (o : object) : Prop :=
  match o with
  | OList vs => Forall (fresh_value n) vs
  | ODict d => Forall (fun kv => fresh_value n kv.2) d
  end.

(** The store [h] is the store [h0] followed by objects that refer to
    each other only. *)
Definition extends (h0 h : store) : Prop :=
  exists new, h = h0 ++ new /\ Forall (fresh_object (length h0)) new.

(** A computation that keeps the objects of [h0] as they are and returns
    a result that satisfies [Q]. *)
Definition preserves {A} (h0 : store) (Q : A -> Prop) (m : M A) : Prop :=
  forall h, extends h0 h ->
    extends h0 (m h).2 /\ forall a, (m h).1 = Ok a -> Q a.

(** The number of lists and dictionaries on the longest branch of a
    tree. *)
Fixpoint json_depth (j : json) : nat :=
  match j with
  | JArr l => S (foldr (fun x acc => Nat.max (json_depth x) acc) O l)
  | JObj d => S (foldr (fun kv acc => Nat.max (json_depth kv.2) acc) O d)
  | _ => O
  end.

Definition list_depth (l : list json) : nat :=
  foldr (fun x acc => Nat.max (json_depth x) acc) O l.

Definition dict_depth (d : dict json) : nat :=
  foldr (fun kv acc => Nat.max (json_depth kv.2) acc) O d.

(** [rep h lo hi v j]: in the store [h] the value [v] holds the tree [j],
    laid out as [loads] does: the objects of the tree are the locations
    from [lo] to [hi], each object after the objects under it, the items
    of a list and the members of a dictionary one after the other. *)
Inductive rep (h : store) : nat -> nat -> value -> json -> Prop :=
  | rep_null lo : rep h lo lo VNone JNull
  | rep_bool lo b : rep h lo lo (VBool b) (JBool b)
  | rep_num lo q : rep h lo lo (VNum q) (JNum q)
  | rep_str lo s : rep h lo lo (VStr s) (JStr s)
  | rep_arr lo l vs js :
      reps h lo l vs js -> h !! l = Some (OList vs) ->
      rep h lo (S l) (VRef l) (JArr js)
  | rep_obj lo l kvs d :
      repd h lo l kvs d -> h !! l = Some (ODict kvs) ->
      rep h lo (S l) (VRef l) (JObj d)
with reps (h : store) : nat -> nat -> list value -> list json -> Prop :=
  | reps_nil lo : reps h lo lo [] []
  | reps_cons lo mid hi v j vs js :
      rep h lo mid v j -> reps h mid hi vs js ->
      reps h lo hi (v :: vs) (j :: js)
with repd (h : store) : nat -> nat -> dict value -> dict json -> Prop :=
  | repd_nil lo : repd h lo lo [] []
  | repd_cons lo mid hi k v j kvs d :
      rep h lo mid v j -> repd h mid hi kvs d ->
      repd h lo hi ((k, v) :: kvs) ((k, j) :: d).

Scheme rep_mut := Induction for rep Sort Prop
  with reps_mut := Induction for reps Sort Prop
  with repd_mut := Induction for repd Sort Prop.
Combined Scheme rep_reps_repd from rep_mut, reps_mut, repd_mut.

(** The members of a dictionary hold the members of a tree, key by key. *)
Definition members_hold (d : nat) (h : store)
    (kvs : dict value) (dj : dict json) : Prop :=
  Forall2 (fun kv kj => kv.1 = kj.1 /\ tree d h kv.2 = Ok kj.2) kvs dj.

(** The features of a collection and the properties of a feature, empty
    when the member is missing or is not a list, not a dictionary. *)
Definition features_of (top : dict json) : list json :=
  match dict_get (u "features") top with
  | Some (JArr fs) => fs
  | _ => []
  end.

Definition properties_of (fd : dict json) : dict json :=
  match dict_get (u "properties") fd with
  | Some (JObj pd) => pd
  | _ => []
  end.

(** The text that the annotation stores for the properties [pd]. *)
Definition annotation_of (key : str) (pd : dict json) (t : str) : Prop :=
  (forall s, dict_get key pd = Some (JStr s) -> t = normalize s)
  /\ (dict_get key pd = None \/ dict_get key pd = Some JNull -> t = []).

(** The feature [f'] is the feature [f] after the body of the loop. *)
Definition annotated_feature (key : str) (f f' : json) : Prop :=
  exists fd t,
    f = JObj fd
    /\ f' = JObj (dict_set (u "properties")
                    (JObj (dict_set (u "region_norm") (JStr t)
                                    (properties_of fd))) fd)
    /\ annotation_of key (properties_of fd) t.

(** A store with a collection of two features; the first has a property
    named [region_norm], the second has no properties. *)
Definition sample_store : store :=
  [ ODict [(u "nom", VStr ile_de_france); (u "region_norm", VStr (u "X"))];
    ODict [(u "properties", VRef 0%nat); (u "geometry", VNone)];
    ODict [(u "id", VNum 3)];
    OList [VRef 1%nat; VRef 2%nat];
    ODict [(u "type", VStr (u "FeatureCollection"));
           (u "features", VRef 3%nat)] ].

Definition sample_repr (h : store) (v : value) : str := u "?".

(** The feature [f'] is the feature [f] with the annotation and no other
    change: the members of the feature other than ["properties"] and the
    properties other than ["region_norm"] are the same. *)
Definition annotation_only (key : str) (f f' : json) : Prop :=
  exists fd fd' t,
    f = JObj fd /\ f' = JObj fd'
    /\ (forall k, k <> u "properties" -> dict_get k fd' = dict_get k fd)
    /\ dict_get (u "region_norm") (properties_of fd') = Some (JStr t)
    /\ (forall k, k <> u "region_norm" ->
          dict_get k (properties_of fd') = dict_get k (properties_of fd))
    /\ annotation_of key (properties_of fd) t.

(** The property [k] of the feature [i] of a collection. *)
Definition property_of_feature (i : nat) (k : str) (j : json) : option json :=
  match j with
  | JObj top =>
      match features_of top !! i with
      | Some (JObj fd) => dict_get k (properties_of fd)
      | _ => None
      end
  | _ => None
  end.

(** A collection as GeoJSON writes it: the features are a list of
    objects, and a feature that has properties has an object there. *)
Definition plain_feature (f : json) : bool :=
  match f with
  | JObj fd =>
      match dict_get (u "properties") fd with
      | None | Some (JObj _) => true
      | Some _ => false
      end
  | _ => false
  end.

Definition feature_collection (j : json) : bool :=
  match j with
  | JObj top =>
      match dict_get (u "features") top with
      | Some (JArr fs) => forallb plain_feature fs
      | _ => false
      end
  | _ => false
  end.

(** The tree that [sample_store] holds at its last object. *)
Definition sample_members : dict json :=
  [(u "type", JStr (u "FeatureCollection"));
   (u "features",
    JArr [JObj [(u "properties",
                 JObj [(u "nom", JStr ile_de_france);
                       (u "region_norm", JStr (u "X"))]);
                (u "geometry", JNull)];
          JObj [(u "id", JNum 3)]])].

(** ** Further vocabulary *)

(** The nonspacing marks are the characters that [norm_str] removes. *)
Abbreviation not_Mn := (fun ch : N => Unicode.is_Mn ch = false) (only parsing).

(** A word lowercased, decomposed, its nonspacing marks removed. *)
Definition plain_word (w : str) : str :=
  filter not_Mn (Unicode.nfd (lower w)).


(** The base letter of an accented Latin-1 letter. *)
Definition unaccent (c : N) : N :=
  match Unicode.latin1_mark c with
  | Some (base, _) => base
  | None => c
  end.

(** A Latin-1 character stays in Latin-1 when lowercased, and its
    decomposition is its base letter and marks that are removed. *)
Definition latin1_check (c : N) : bool :=
  (Unicode.lower_cp c <? 0x100)
  && forallb (fun d => Unicode.is_Mn d || (Unicode.combining d =? 0))
             (Unicode.decomposition (Unicode.lower_cp c))
  && match filter not_Mn (Unicode.decomposition (Unicode.lower_cp c)) with
     | [d] => d =? unaccent (Unicode.lower_cp c)
     | _ => false
     end.

(** The columns of the CSV that the metrics need. *)
Definition csv_columns : list string :=
  ["nom_region"; "annee"; "nombre"; "insee_pop"]%string.

(** A parsed CSV without the population column. *)
Definition counts_only : RawFrame :=
  {| raw_columns := ["annee"; "nom_region"; "nombre"]%string;
     raw_rows :=
       [ {| raw_nom_region := Some (u "Bretagne"); raw_nom_region_norm := None;
            raw_annee := Number 2020; raw_nombre := Number 7;
            raw_insee_pop := NaN |};
         {| raw_nom_region := Some (u "Bretagne"); raw_nom_region_norm := None;
            raw_annee := Number 2021; raw_nombre := NaN;
            raw_insee_pop := NaN |} ] |}.

(** A row that [groupby] puts in a group. *)
Definition keyed (r : Row) : bool := bool_decide (is_Some (key_of r)).




(** A feature as [guess_geojson_region_key] accepts it: an object whose
    properties are an object, [null], or absent. *)
Definition loose_feature (f : json) : bool :=
  match f with
  | JObj fd =>
      match dict_get (u "properties") fd with
      | None | Some (JObj _) | Some JNull => true
      | Some _ => false
      end
  | _ => false
  end.

(** A store with a collection of one feature, whose properties are
    [null]. *)
Definition null_store : store :=
  [ ODict [(u "properties", VNone)];
    OList [VRef 0%nat];
    ODict [(u "features", VRef 1%nat)] ].

(** The column [c] is the last column of [cols] whose lowercase name is
    [cand]. *)
Definition last_named (cand : str) (cols : list string) (c : string) : Prop :=
  exists pre post,
    cols = pre ++ c :: post /\ lower (u c) = cand
    /\ forall c', c' ∈ post -> lower (u c') <> cand.

(** What a detection returns for the candidates [cands]: the last column
    named, whatever the case, as the first candidate that names a column;
    [None] when no candidate names a column. *)
Definition detected (cands : list str) (cols : list string)
    (r : option string) : Prop :=
  match r with
  | Some c =>
      exists cand,
        first_such (fun k => exists c', c' ∈ cols /\ lower (u c') = k) cands cand
        /\ last_named cand cols c
  | None => forall c, c ∈ cols -> lower (u c) ∉ cands
  end.

(** A table with two columns of the same lowercase name. *)
Definition mixed_case : DataFrame :=
  {| columns := ["annee"; "Indicateur"; "Nom_Commune"; "INDICATEUR"]%string;
     rows := [] |}.



(** The text that ends a label, from the closing bracket. *)
Definition label_end (code : str) : str :=
  u ") " ++ 0x2014 :: u " INSEE " ++ code.

(** A feature that carries no annotation: an object without properties,
    or with properties that have no ["region_norm"]. *)
Definition bare_feature (f : json) : bool :=
  match f with
  | JObj fd =>
      match dict_get (u "properties") fd with
      | None => true
      | Some (JObj pd) => bool_decide (dict_get (u "region_norm") pd = None)
      | Some _ => false
      end
  | _ => false
  end.

(** The keys that the diagnostics keep of the annotations [keys]. *)
Definition kept_keys (keys : list str) : list (option str) :=
  map (fun k => if bool_decide (k = []) then None else Some k) keys.

(** A collection as the file gives it: a feature with its name and a
    feature without properties. *)
Definition raw_collection : dict json :=
  [(u "features",
    JArr [JObj [(u "properties", JObj [(u "nom", JStr (u "Bretagne"))])];
          JObj [(u "geometry", JNull)]])].

(** * Part II: properties *)

(** ** Words and whitespace *)

Lemma split_words (s : str) : Forall word (split s).
Proof.
  induction s as [|c s IH]; simpl; [constructor|].
  destruct (Unicode.isspace c) eqn:Hc; [exact IH|].
  destruct s as [|d s'].
  - repeat constructor; [discriminate|exact Hc].
  - destruct (Unicode.isspace d) eqn:Hd.
    + constructor; [|exact IH].
      split; [discriminate|]. repeat constructor. exact Hc.
    + destruct (split (d :: s')) as [|w ws].
      * repeat constructor; [discriminate|exact Hc].
      * inversion IH as [|? ? [Hw1 Hw2] Hws]; subst.
        constructor; [|exact Hws].
        split; [discriminate|]. constructor; assumption.
Qed.

Lemma split_word_app (w rest : str) :
  word w -> breaks rest -> split (w ++ rest) = w :: split rest.
Proof.
  intros [Hne Hw] Hrest. induction w as [|c w IH]; [congruence|].
  inversion Hw as [|? ? Hc Hw']; subst.
  cbn [app]. cbn [split]. rewrite Hc.
  destruct w as [|c' w''].
  - cbn [app]. destruct Hrest as [->|(d & rest' & -> & Hd)].
    + reflexivity.
    + rewrite Hd. reflexivity.
  - assert (Hc' : Unicode.isspace c' = false) by (inversion Hw'; assumption).
    cbn [app] in *. rewrite Hc'. rewrite IH; [reflexivity|discriminate|assumption].
Qed.

Lemma split_join (ws : list str) : Forall word ws -> split (join ws) = ws.
Proof.
  induction 1 as [|w ws Hw Hws IH]; [reflexivity|].
  destruct ws as [|w' ws'].
  - cbn [join]. rewrite <- (app_nil_r w) at 1.
    rewrite split_word_app; [reflexivity|assumption|left; reflexivity].
  - change (join (w :: w' :: ws')) with (w ++ 0x20 :: join (w' :: ws')).
    rewrite split_word_app; [|assumption|right; eexists _, _; split; reflexivity].
    f_equal. exact IH.
Qed.

Lemma lstrip_id (s : str) :
  (forall c, head s = Some c -> Unicode.isspace c = false) -> lstrip s = s.
Proof.
  destruct s as [|c s]; [reflexivity|]. intros H. simpl.
  rewrite (H c); reflexivity.
Qed.

Lemma join_head (ws : list str) c :
  Forall word ws -> head (join ws) = Some c -> Unicode.isspace c = false.
Proof.
  intros Hws. destruct Hws as [|w ws [Hne Hw] Hws]; [discriminate|].
  destruct w as [|c' w]; [congruence|].
  inversion Hw; subst.
  destruct ws; simpl; intros [= <-]; assumption.
Qed.

Lemma join_last (ws : list str) :
  Forall word ws -> ws <> [] ->
  exists y c, join ws = y ++ [c] /\ Unicode.isspace c = false.
Proof.
  induction 1 as [|w ws [Hne Hw] Hws IH]; [congruence|]. intros _.
  destruct ws as [|w' ws'].
  - destruct (exists_last Hne) as (y & c & ->).
    exists y, c. split; [reflexivity|].
    apply Forall_app in Hw as [_ Hc]. inversion Hc; assumption.
  - destruct IH as (y & c & Hy & Hc); [discriminate|].
    exists (w ++ 0x20 :: y), c. split; [|exact Hc].
    change (join (w :: w' :: ws')) with (w ++ 0x20 :: join (w' :: ws')).
    rewrite Hy, <- app_assoc. reflexivity.
Qed.

Lemma strip_join (ws : list str) : Forall word ws -> strip (join ws) = join ws.
Proof.
  intros Hws. unfold strip.
  rewrite (lstrip_id (join ws)) by (intros c; apply join_head; assumption).
  destruct ws as [|w ws']; [reflexivity|].
  destruct (join_last (w :: ws') Hws) as (y & c & -> & Hc); [discriminate|].
  rewrite rev_app_distr. cbn [rev app].
  rewrite lstrip_id by (intros c0 [= <-]; exact Hc).
  change (c :: rev y) with ([c] ++ rev y).
  rewrite rev_app_distr, rev_involutive. reflexivity.
Qed.



(** ** The normaliser *)

Lemma below_forallb (P : N -> bool) (n : nat) :
  forallb P (map N.of_nat (seq 0 n)) = true ->
  forall c, c < N.of_nat n -> P c = true.
Proof.
  intros H c Hc. rewrite forallb_forall in H. apply H.
  apply in_map_iff. exists (N.to_nat c). split; [apply N2Nat.id|].
  apply in_seq. lia.
Qed.








Lemma lstrip_Forall (P : N -> Prop) (s : str) : Forall P s -> Forall P (lstrip s).
Proof.
  induction 1 as [|c s Hc Hs IH]; simpl; [constructor|].
  destruct (Unicode.isspace c); [exact IH|constructor; assumption].
Qed.

Lemma strip_Forall (P : N -> Prop) (s : str) : Forall P s -> Forall P (strip s).
Proof.
  intros H. unfold strip.
  apply List.Forall_rev, lstrip_Forall, List.Forall_rev, lstrip_Forall, H.
Qed.


(** C3 (as stated, refuted): the three spellings do not all have the same
    normal form; the spelling with spaces keeps its spaces and the two
    with hyphens keep their hyphens. *)
Lemma norm_str_ile_de_france_differ :
  ~ (norm_str (AStr ile_de_france) = norm_str (AStr ile_de_france_plain)
     /\ norm_str (AStr ile_de_france_plain)
        = norm_str (AStr ile_de_france_upper)).
Proof. vm_compute. intros [H _]. discriminate H. Qed.

(** C3 (amended): [norm_str] gives ["ile-de-france"] for "Île-de-France",
    for "  ÎLE-DE-FRANCE " and for "ile-de-france": the key is insensitive
    to case, accents and surrounding whitespace.  A hyphen is not
    whitespace: "ile de france" is its own normal form. *)
Theorem norm_str_ile_de_france :
  norm_str (AStr ile_de_france) = u "ile-de-france"
  /\ norm_str (AStr ile_de_france_upper) = u "ile-de-france"
  /\ norm_str (AStr (u "ile-de-france")) = u "ile-de-france"
  /\ norm_str (AStr ile_de_france_plain) = u "ile de france".
Proof. vm_compute. repeat split. Qed.





(** ** Key detection *)

Lemma find_first {A} (f : A -> bool) (l : list A) (x : A) :
  List.find f l = Some x -> first_such (fun y => f y = true) l x.
Proof.
  induction l as [|a l IH]; simpl; [discriminate|].
  destruct (f a) eqn:Ha.
  - intros [= <-]. exists 0%nat. repeat split; [assumption|]. intros; lia.
  - intros H. destruct (IH H) as (i & Hi & Hx & Hlt).
    exists (S i). repeat split; [assumption..|].
    intros [|j] y Hj; simpl; [intros [= <-]; congruence|].
    apply Hlt. lia.
Qed.

Lemma find_none_elem {A} (f : A -> bool) (l : list A) :
  List.find f l = None -> forall y, y ∈ l -> f y = false.
Proof. intros H y Hy. apply (find_none f l H), list_elem_of_In, Hy. Qed.

Lemma first_such_impl {A} (P Q : A -> Prop) (l : list A) (x : A) :
  (forall y, P y <-> Q y) -> first_such P l x -> first_such Q l x.
Proof.
  intros HPQ (i & Hi & Hx & Hlt). exists i. repeat split; [assumption|apply HPQ, Hx|].
  intros j y Hj Hy HQ. apply (Hlt j y Hj Hy), HPQ, HQ.
Qed.

Lemma first_candidate_dict (cands : list str) (p : dict json) :
  first_candidate cands (JObj p)
  = Ok (List.find (fun k => bool_decide (is_Some (dict_get k p))) cands).
Proof.
  induction cands as [|k ks IH]; [reflexivity|].
  cbn [first_candidate contains]. cbn. destruct (bool_decide _); [reflexivity|exact IH].
Qed.

Lemma is_text_spec (v : json) : is_text v = true <-> nonblank_text v.
Proof.
  unfold nonblank_text. destruct v; simpl;
    try (split; [discriminate|intros (? & [=] & _)]).
  rewrite negb_true_iff, bool_decide_eq_false. split.
  - intros H. eauto.
  - intros (? & [= <-] & H). exact H.
Qed.

(** C4 (as stated, refuted): with properties [{"code": 5}] no candidate
    matches and no property holds a non-empty text, yet the function
    returns the property name ["code"], not the default ["nom"]; with
    [{"a": " ", "b": "x"}] the first property that holds a non-empty text
    is ["a"], and the function returns ["b"]. *)
Lemma guess_geojson_region_key_fallbacks :
  (guess_geojson_region_key (one_feature (JObj [(u "code", JNum 5)]))
     = Ok (u "code")
   /\ u "code" <> u "nom"
   /\ (forall c, c ∈ candidates -> dict_get c [(u "code", JNum 5)] = None)
   /\ (forall kv, kv ∈ [(u "code", JNum 5)] -> ~ nonempty_text kv.2))
  /\ (guess_geojson_region_key
        (one_feature (JObj [(u "a", JStr (u " ")); (u "b", JStr (u "x"))]))
        = Ok (u "b")
      /\ first_such (fun kv => nonempty_text kv.2)
           [(u "a", JStr (u " ")); (u "b", JStr (u "x"))] (u "a", JStr (u " "))).
Proof.
  split; [split; [reflexivity|split; [discriminate|split]]|split; [reflexivity|]].
  - intros c Hc. unfold candidates in Hc.
    repeat (apply elem_of_cons in Hc as [->|Hc]; [reflexivity|]).
    inversion Hc.
  - intros kv Hkv (s & Hs & _). apply list_elem_of_singleton in Hkv as ->.
    discriminate Hs.
  - exists 0%nat. split; [reflexivity|]. split.
    + eexists. split; [reflexivity|discriminate].
    + intros; lia.
Qed.

(** The key that the detection returns for the properties [p] of the
    first feature. *)
Lemma guess_geojson_region_key_first (geojson : json) (p : dict json) :
  first_feature_properties geojson p ->
  guess_geojson_region_key geojson
  = Ok match List.find (fun k => bool_decide (is_Some (dict_get k p)))
                       candidates with
       | Some k => k
       | None =>
           match List.find (fun kv => is_text kv.2) p with
           | Some (k, _) => k
           | None => match p with (k, _) :: _ => k | [] => u "nom" end
           end
       end.
Proof.
  intros (top & fd & rest & -> & Hf & Hp).
  assert (Hprops :
    exists props0, get_method (JObj fd) (u "properties") (JObj []) = Ok props0
      /\ (if truthy props0 then props0 else JObj []) = JObj p).
  { cbn [get_method].
    destruct Hp as [->|(-> & [->| ->])]; eexists; (split; [reflexivity|]); cbn.
    - destruct p; reflexivity.
    - reflexivity.
    - reflexivity. }
  destruct Hprops as (props0 & Hget & Hprops).
  unfold guess_geojson_region_key. cbn [get_method]. rewrite Hf.
  cbn [default id mbind result_bind].
  replace (truthy (JArr (JObj fd :: rest))) with true by reflexivity.
  cbn [negb first_item mbind result_bind]. rewrite Hget.
  cbn [mbind result_bind]. rewrite Hprops, first_candidate_dict.
  cbn [mbind result_bind].
  destruct (List.find _ candidates) as [k|]; [reflexivity|].
  destruct (List.find (fun kv => is_text kv.2) p) as [[k v]|]; [reflexivity|].
  destruct p as [|[k v] p']; reflexivity.
Qed.

(** The detection returns a key on every plain collection. *)
Lemma guess_geojson_region_key_returns (j : json) :
  feature_collection j = true -> exists key, guess_geojson_region_key j = Ok key.
Proof.
  intros Hcoll. destruct j as [| | | | |top]; try discriminate Hcoll.
  cbn [feature_collection] in Hcoll.
  destruct (dict_get (u "features") top) as [[| | | |fs|]|] eqn:Hf;
    try discriminate Hcoll.
  destruct fs as [|f rest].
  - exists (u "nom"). unfold guess_geojson_region_key. cbn [get_method].
    rewrite Hf. reflexivity.
  - cbn [forallb] in Hcoll. apply andb_prop in Hcoll as [Hplain _].
    destruct f as [| | | | |fd]; try discriminate Hplain.
    cbn [plain_feature] in Hplain.
    destruct (dict_get (u "properties") fd) as [[| | | | |pd]|] eqn:Hp;
      try discriminate Hplain.
    + eexists. apply (guess_geojson_region_key_first _ pd).
      exists top, fd, rest. repeat split; [exact Hf|]. left. exact Hp.
    + eexists. apply (guess_geojson_region_key_first _ []).
      exists top, fd, rest. repeat split; [exact Hf|]. right.
      split; [reflexivity|]. left. exact Hp.
Qed.

(** C4 (amended): for a GeoJSON object whose first feature has the
    properties [p], key detection returns the first candidate of the
    priority list that is a property name; if none is, the name of the
    first property whose value is a text with a character that is not
    whitespace; if there is none, the name of the first property; and the
    default ["nom"] only when the feature has no property at all. *)
Theorem guess_geojson_region_key_spec (geojson : json) (p : dict json) :
  first_feature_properties geojson p ->
  exists k,
    guess_geojson_region_key geojson = Ok k
    /\ (first_such (fun c => is_Some (dict_get c p)) candidates k
        \/ ((forall c, c ∈ candidates -> dict_get c p = None)
            /\ ((exists v, first_such (fun kv => nonblank_text kv.2) p (k, v))
                \/ ((forall kv, kv ∈ p -> ~ nonblank_text kv.2)
                    /\ ((exists v rest, p = (k, v) :: rest)
                        \/ (p = [] /\ k = u "nom")))))).
Proof.
  intros Hp. rewrite (guess_geojson_region_key_first geojson p Hp).
  destruct (List.find _ candidates) as [k|] eqn:Hcand.
  - exists k. split; [reflexivity|]. left.
    eapply first_such_impl; [|exact (find_first _ _ _ Hcand)].
    intros c. cbv beta. apply bool_decide_eq_true.
  - pose proof (find_none_elem _ _ Hcand) as Hnone. cbv beta in Hnone.
    assert (Hnone' : forall c, c ∈ candidates -> dict_get c p = None).
    { intros c Hc. specialize (Hnone c Hc).
      apply bool_decide_eq_false in Hnone.
      destruct (dict_get c p); [destruct Hnone; eauto|reflexivity]. }
    destruct (List.find (fun kv => is_text kv.2) p) as [[k v]|] eqn:Htext.
    + exists k. split; [reflexivity|]. right. split; [exact Hnone'|]. left.
      exists v. eapply first_such_impl; [|exact (find_first _ _ _ Htext)].
      intros kv. cbv beta. apply is_text_spec.
    + pose proof (find_none_elem _ _ Htext) as Hno. cbv beta in Hno.
      assert (Hno' : forall kv, kv ∈ p -> ~ nonblank_text kv.2).
      { intros kv Hkv Hn. apply is_text_spec in Hn.
        rewrite (Hno kv Hkv) in Hn. discriminate. }
      destruct p as [|[k v] p'].
      * exists (u "nom"). split; [reflexivity|]. right. split; [exact Hnone'|].
        right. split; [exact Hno'|]. right. split; reflexivity.
      * exists k. split; [reflexivity|]. right. split; [exact Hnone'|].
        right. split; [exact Hno'|]. left. eauto.
Qed.

Lemma guess_geojson_region_key_spec_witness :
  first_feature_properties
    (one_feature (JObj [(u "NOM", JStr (u "Bretagne"))]))
    [(u "NOM", JStr (u "Bretagne"))]
  /\ exists k,
      guess_geojson_region_key
        (one_feature (JObj [(u "NOM", JStr (u "Bretagne"))])) = Ok k
      /\ k = u "NOM".
Proof.
  assert (H : first_feature_properties
                (one_feature (JObj [(u "NOM", JStr (u "Bretagne"))]))
                [(u "NOM", JStr (u "Bretagne"))]).
  { eexists _, _, _. split; [reflexivity|]. split; [reflexivity|].
    left. reflexivity. }
  split; [exact H|].
  destruct (guess_geojson_region_key_spec _ _ H) as (k & Hk & _).
  exists k. split; [exact Hk|].
  vm_compute in Hk. injection Hk as <-. reflexivity.
Defined.

(** ** The loader *)

Lemma mapM_Ok {A B} (f : A -> result B) (l : list A) (l' : list B) :
  mapM f l = Ok l' -> Forall2 (fun x y => f x = Ok y) l l'.
Proof.
  revert l'. induction l as [|x l IH]; intros l'; simpl.
  - intros [= <-]. constructor.
  - destruct (f x) as [y|e] eqn:Hx; simpl; [|discriminate].
    destruct (mapM f l) as [k|e]; simpl; [|discriminate].
    intros [= <-]. constructor; [exact Hx|]. apply IH. reflexivity.
Qed.

Lemma mapM_Raise {A B} (f : A -> result B) (l : list A) (e : exn) :
  mapM f l = Raise e -> exists x, x ∈ l /\ f x = Raise e.
Proof.
  induction l as [|x l IH]; simpl; [discriminate|].
  destruct (f x) as [y|e'] eqn:Hx; simpl.
  - destruct (mapM f l) as [k|e']; simpl; [discriminate|].
    intros [= <-]. destruct IH as (x' & Hx' & He); [reflexivity|].
    exists x'. split; [right; exact Hx'|exact He].
  - intros [= <-]. exists x. split; [left|exact Hx].
Qed.

Lemma Forall2_filter_both {A B} (R : A -> B -> Prop)
    (f : A -> bool) (g : B -> bool) (l : list A) (l' : list B) :
  Forall2 (fun x y => R x y /\ f x = g y) l l' ->
  Forall2 R (List.filter f l) (List.filter g l').
Proof.
  induction 1 as [|x y l l' [HR Hfg] _ IH]; simpl; [constructor|].
  rewrite Hfg. destruct (g y); [constructor; assumption|assumption].
Qed.

Section LoaderProperties.

Variable parse_number : str -> option Q.

Lemma coerce_row_measures (cols : list string) (x : RawRow) (r : Row) :
  "nombre"%string ∈ cols -> "insee_pop"%string ∈ cols ->
  coerce_row parse_number cols x = Ok r ->
  nombre r = to_numeric parse_number (raw_nombre x)
  /\ insee_pop r = to_numeric parse_number (raw_insee_pop x)
  /\ nom_region r = raw_nom_region x.
Proof.
  intros Hn Hp. unfold coerce_row, has_column.
  rewrite (bool_decide_eq_true_2 _ Hn), (bool_decide_eq_true_2 _ Hp).
  destruct (if bool_decide _ then _ else _) as [a|e]; simpl; [|discriminate].
  intros [= <-]. simpl. repeat split.
Qed.

(** C8: when the parsed table has both measure columns, every row that
    [load_data] returns has a number for the count and a number for the
    population; the rows returned are, in order, the rows of the CSV
    whose two measures are numbers after the coercion, with the coerced
    values (no missing value is replaced).  The only exception that the
    coercions can raise is the cast of a fractional year. *)
Theorem load_data_released (raw : RawFrame) :
  "nombre"%string ∈ raw_columns raw ->
  "insee_pop"%string ∈ raw_columns raw ->
  (forall df, load_data parse_number (Some raw) = Ok df ->
     (forall r, r ∈ rows df -> is_Some (nombre r) /\ is_Some (insee_pop r))
     /\ Forall2 (fun x r =>
                   nombre r = to_numeric parse_number (raw_nombre x)
                   /\ insee_pop r = to_numeric parse_number (raw_insee_pop x)
                   /\ nom_region r = raw_nom_region x)
                (List.filter (usable parse_number) (raw_rows raw)) (rows df))
  /\ (forall e, load_data parse_number (Some raw) = Raise e ->
        e = TypeError
        /\ exists x, x ∈ raw_rows raw
             /\ astype_Int64 (to_numeric parse_number (raw_annee x))
                = Raise TypeError).
Proof.
  intros Hn Hp. unfold load_data.
  destruct (mapM _ (raw_rows raw)) as [coerced|e0] eqn:Hm;
    cbn [mbind result_bind]; split.
  - intros df Hdf. apply mapM_Ok in Hm.
    cbv zeta in Hdf. unfold has_column in Hdf.
    rewrite (bool_decide_eq_true_2 _ Hn), (bool_decide_eq_true_2 _ Hp) in Hdf.
    cbn [andb] in Hdf.
    assert (Hkept : Forall2 (fun x r =>
              nombre r = to_numeric parse_number (raw_nombre x)
              /\ insee_pop r = to_numeric parse_number (raw_insee_pop x)
              /\ nom_region r = raw_nom_region x)
            (List.filter (usable parse_number) (raw_rows raw))
            (List.filter released coerced)).
    { apply Forall2_filter_both. eapply Forall2_impl; [exact Hm|].
      intros x r Hr. cbv beta in Hr.
      destruct (coerce_row_measures _ x r Hn Hp Hr) as (H1 & H2 & H3).
      split; [auto|]. unfold usable, released. rewrite H1, H2. reflexivity. }
    assert (Hsome : forall r, r ∈ List.filter released coerced ->
              is_Some (nombre r) /\ is_Some (insee_pop r)).
    { intros r Hr. apply list_elem_of_In, filter_In in Hr as [_ Hr].
      unfold released in Hr. apply andb_true_iff in Hr as [H1 H2].
      apply bool_decide_eq_true in H1, H2. auto. }
    destruct (bool_decide ("nom_region"%string ∈ _));
      injection Hdf as <-; cbn [rows].
    + split.
      * intros r Hr. apply list_elem_of_fmap in Hr as (r0 & -> & Hr0).
        exact (Hsome r0 Hr0).
      * apply Forall2_fmap_r. eapply Forall2_impl; [exact Hkept|].
        intros x r Hr. exact Hr.
    + split; assumption.
  - intros e He. cbv zeta in He.
    destruct (has_column "nom_region" _); discriminate He.
  - intros df Hdf. discriminate Hdf.
  - intros e [= <-]. apply mapM_Raise in Hm as (x & Hx & He).
    unfold coerce_row in He.
    destruct (has_column "annee" _); [|discriminate].
    destruct (astype_Int64 _) as [a|e'] eqn:Ha; [discriminate|].
    injection He as ->.
    assert (e0 = TypeError) as ->.
    { unfold astype_Int64 in Ha. destruct (to_numeric _ _); [|discriminate].
      destruct (Qeq_bool _ _); [discriminate|]. congruence. }
    split; [reflexivity|]. exists x. split; assumption.
Qed.

(** The normalised key that [load_data] attaches is a function of the
    region name. *)
Lemma load_data_key_by_region (raw : RawFrame) (df : DataFrame) :
  "nom_region"%string ∈ raw_columns raw ->
  load_data parse_number (Some raw) = Ok df ->
  (forall r, r ∈ rows df ->
     nom_region_norm r = Some (norm_cell (nom_region r)))
  /\ key_by_region (rows df).
Proof.
  intros Hc Hdf. unfold load_data in Hdf.
  destruct (mapM _ (raw_rows raw)) as [coerced|e]; [|discriminate Hdf].
  cbn [mbind result_bind] in Hdf. cbv zeta in Hdf.
  match type of Hdf with context [map with_norm ?l] => set (kept := l) in * end.
  unfold has_column in Hdf.
  rewrite (bool_decide_eq_true_2 _ Hc) in Hdf. injection Hdf as <-.
  cbn [rows].
  assert (Hnorm : forall r, r ∈ map with_norm kept ->
            nom_region_norm r = Some (norm_cell (nom_region r))).
  { intros r Hr. apply list_elem_of_In, in_map_iff in Hr as (r0 & <- & _).
    reflexivity. }
  split; [exact Hnorm|].
  intros r r' Hr Hr' Heq. rewrite (Hnorm r Hr), (Hnorm r' Hr'), Heq.
  reflexivity.
Qed.

End LoaderProperties.

Lemma load_data_released_witness :
  ("nombre"%string ∈ raw_columns sample_csv
   /\ "insee_pop"%string ∈ raw_columns sample_csv)
  /\ exists df,
       load_data sample_parse (Some sample_csv) = Ok df
       /\ length (rows df) = 2%nat
       /\ forall r, r ∈ rows df -> is_Some (nombre r) /\ is_Some (insee_pop r).
Proof.
  assert (Hn : "nombre"%string ∈ raw_columns sample_csv)
    by (apply list_elem_of_In; simpl; tauto).
  assert (Hp : "insee_pop"%string ∈ raw_columns sample_csv)
    by (apply list_elem_of_In; simpl; tauto).
  split; [split; assumption|].
  destruct (load_data sample_parse (Some sample_csv)) as [df|e] eqn:Hdf;
    [|vm_compute in Hdf; discriminate Hdf].
  exists df. split; [reflexivity|].
  destruct (load_data_released sample_parse sample_csv Hn Hp) as [Hok _].
  destruct (Hok df Hdf) as [Hsome _].
  split; [|exact Hsome].
  vm_compute in Hdf. injection Hdf as <-. reflexivity.
Defined.

(** ** Orders and sorting *)


Lemma str_leb_total (a b : str) : str_leb a b = true \/ str_leb b a = true.
Proof.
  revert b. induction a as [|x a IH]; intros [|y b]; simpl; auto.
  destruct (N.ltb_spec x y), (N.ltb_spec y x), (N.eqb_spec x y), (N.eqb_spec y x);
    auto; lia.
Qed.

Lemma str_leb_trans (a b c : str) :
  str_leb a b = true -> str_leb b c = true -> str_leb a c = true.
Proof.
  revert b c. induction a as [|x a IH]; intros [|y b] [|z c]; simpl; auto;
    try discriminate.
  destruct (N.ltb_spec x y), (N.ltb_spec y z), (N.ltb_spec x z),
    (N.eqb_spec x y), (N.eqb_spec y z), (N.eqb_spec x z);
    try discriminate; try lia; auto.
  apply IH.
Qed.






Section SortProperties.
Context {A : Type} (leb : A -> A -> bool).

Lemma insert_sorted_perm (x : A) (l : list A) : insert_sorted leb x l ≡ₚ x :: l.
Proof.
  induction l as [|y l IH]; simpl; [reflexivity|].
  destruct (leb x y); [reflexivity|]. rewrite IH. apply Permutation_swap.
Qed.

Lemma stable_sort_perm (l : list A) : stable_sort leb l ≡ₚ l.
Proof.
  induction l as [|x l IH]; simpl; [reflexivity|].
  rewrite insert_sorted_perm, IH. reflexivity.
Qed.

Hypothesis leb_total : forall a b, leb a b = true \/ leb b a = true.
Hypothesis leb_trans :
  forall a b c, leb a b = true -> leb b c = true -> leb a c = true.

Lemma insert_sorted_sorted (x : A) (l : list A) :
  StronglySorted (fun a b => leb a b = true) l ->
  StronglySorted (fun a b => leb a b = true) (insert_sorted leb x l).
Proof using leb_total leb_trans.
  induction 1 as [|y l Hl IH Hy]; simpl; [repeat constructor|].
  destruct (leb x y) eqn:Hxy.
  - constructor; [constructor; assumption|].
    constructor; [exact Hxy|].
    eapply Forall_impl; [exact Hy|]. intros z Hz. eapply leb_trans; eassumption.
  - constructor; [exact IH|].
    assert (Hyx : leb y x = true) by (destruct (leb_total x y); congruence).
    rewrite insert_sorted_perm. constructor; assumption.
Qed.

Lemma stable_sort_sorted (l : list A) :
  StronglySorted (fun a b => leb a b = true) (stable_sort leb l).
Proof using leb_total leb_trans.
  induction l as [|x l IH]; simpl; [constructor|].
  apply insert_sorted_sorted, IH.
Qed.
End SortProperties.


Lemma unique_elem {A} `{EqDecision A} (l : list A) (x : A) :
  x ∈ unique l <-> x ∈ l.
Proof.
  induction l as [|y l IH]; simpl; [reflexivity|].
  rewrite !elem_of_cons, <- IH. split.
  - intros [?|H]; [auto|]. apply list_elem_of_In, filter_In in H as [H _].
    right. apply list_elem_of_In, H.
  - intros [?|H]; [auto|]. destruct (decide (x = y)) as [?|Hne]; [auto|].
    right. apply list_elem_of_In, filter_In. split; [apply list_elem_of_In, H|].
    rewrite bool_decide_eq_false_2 by exact Hne. reflexivity.
Qed.






(** ** The metrics *)

Lemma required_present (df : DataFrame) :
  (forall c, c ∈ required -> c ∈ columns df) ->
  List.filter (fun c => negb (has_column c (columns df))) required = [].
Proof.
  intros H. unfold required, has_column. cbn [List.filter].
  rewrite !bool_decide_eq_true_2
    by (apply H, list_elem_of_In; simpl; tauto).
  reflexivity.
Qed.

Lemma groupby_diff_length (seen l : list RegionYear) :
  length (groupby_diff seen l) = length l.
Proof.
  revert seen. induction l as [|g l IH]; intros seen; simpl; [reflexivity|].
  rewrite IH. reflexivity.
Qed.

(** The table that [build_region_metrics] returns, column by column. *)
Lemma build_region_metrics_columns (df : DataFrame) :
  (forall c, c ∈ required -> c ∈ columns df) ->
  exists g,
    build_region_metrics df = Ok g
    /\ map group g
       = stable_sort region_year_leb (map region_year (groupby_sum (rows df)))
    /\ map variation_region g
       = map fillna0 (groupby_diff [] (map group g)).
Proof.
  intros H. unfold build_region_metrics. rewrite (required_present df H).
  cbn [bool_decide negb]. rewrite bool_decide_eq_true_2 by reflexivity.
  cbn [negb]. eexists. split; [reflexivity|].
  set (G := stable_sort _ _).
  assert (Hlen : length (map fillna0 (groupby_diff [] G)) = length G)
    by (rewrite length_map; apply groupby_diff_length).
  assert (HG : map group
                 (zip_with (fun g v => {| group := g; variation_region := v |})
                           G (map fillna0 (groupby_diff [] G))) = G).
  { apply (fmap_zip_with_l _ group); [reflexivity|]. rewrite Hlen. reflexivity. }
  split; [exact HG|]. rewrite HG.
  apply (fmap_zip_with_r _ variation_region); [reflexivity|].
  rewrite Hlen. reflexivity.
Qed.

Lemma groupby_sum_keys (l : list Row) :
  map (fun t => t.1.1) (groupby_sum l)
  = stable_sort key_leb (unique (omap key_of l)).
Proof.
  unfold groupby_sum. rewrite map_map. cbn [fst]. apply map_id.
Qed.

Lemma region_year_key (t : list N * list N * Z * Q * Q) :
  ry_key (region_year t) = t.1.1.
Proof. reflexivity. Qed.

Lemma metrics_keys (df : DataFrame) (g : list Metric) :
  map group g
  = stable_sort region_year_leb (map region_year (groupby_sum (rows df))) ->
  map (fun m => ry_key (group m)) g ≡ₚ unique (omap key_of (rows df)).
Proof.
  intros HG.
  change (map (fun m => ry_key (group m)) g) with (map (ry_key ∘ group) g).
  rewrite <- (map_map group ry_key), HG, stable_sort_perm, map_map.
  erewrite map_ext by (intros; apply region_year_key).
  rewrite groupby_sum_keys. apply stable_sort_perm.
Qed.













(** ** Matching diagnostics *)

Lemma mapM_Forall2 {A B} (f : A -> result B) (l : list A) (l' : list B) :
  Forall2 (fun x y => f x = Ok y) l l' -> mapM f l = Ok l'.
Proof.
  induction 1 as [|x y l l' Hx _ IH]; simpl; [reflexivity|].
  rewrite Hx. simpl. rewrite IH. reflexivity.
Qed.

Lemma sorted_spec (X : gset (list N)) :
  StronglySorted (fun a b => str_leb a b = true) (sorted X)
  /\ NoDup (sorted X)
  /\ (forall k, k ∈ sorted X <-> k ∈ X).
Proof.
  unfold sorted. split; [|split].
  - apply stable_sort_sorted; [apply str_leb_total|apply str_leb_trans].
  - rewrite stable_sort_perm. apply NoDup_elements.
  - intros k. rewrite stable_sort_perm. apply elem_of_elements.
Qed.

Lemma size_set_of (l : list (list N)) :
  exists l', NoDup l' /\ (forall k, k ∈ l' <-> k ∈ l)
             /\ size (set_of l) = length l'.
Proof.
  exists (elements (set_of l)). split; [apply NoDup_elements|].
  split; [|reflexivity].
  intros k. rewrite elem_of_elements. unfold set_of.
  apply elem_of_list_to_set.
Qed.

(** C10 (as stated, refuted): with a blank region name in the table the
    count for the data is 2 although one key only is not empty, and the
    empty key is reported as missing in the geo collection. *)
Lemma compute_matching_diagnostics_counts_empty_key :
  exists g d,
    build_region_metrics blank_region = Ok g
    /\ compute_matching_diagnostics g bretagne_only = Ok d
    /\ n_regions_data d = 2%nat
    /\ unique (List.filter (fun k => negb (bool_decide (k = [])))
                           (data_keys g)) = [u "bretagne"]
    /\ missing_in_geo d = [[]].
Proof.
  eexists _, _. split; [vm_compute; reflexivity|].
  split; [vm_compute; reflexivity|].
  repeat split.
Qed.

(** C10 (amended): for every metrics table and every annotated feature
    collection, empty ones included, [compute_matching_diagnostics]
    returns without raising: the number of distinct keys of the table (the
    empty text counts as a key), the number of distinct non-empty keys of
    the collection, the sorted list of the keys of the table that are not
    non-empty keys of the collection, and the sorted list of the non-empty
    keys of the collection that are not keys of the table. *)
Theorem compute_matching_diagnostics_spec
    (g_y : list Metric) (geojson_norm : json) (keys : list str) :
  annotated geojson_norm keys ->
  exists d,
    compute_matching_diagnostics g_y geojson_norm = Ok d
    /\ (exists l, NoDup l /\ (forall k, k ∈ l <-> k ∈ data_keys g_y)
                  /\ n_regions_data d = length l)
    /\ (exists l, NoDup l /\ (forall k, k ∈ l <-> k ∈ keys /\ k <> [])
                  /\ n_regions_geo d = length l)
    /\ (StronglySorted (fun a b => str_leb a b = true) (missing_in_geo d)
        /\ NoDup (missing_in_geo d)
        /\ forall k, k ∈ missing_in_geo d
                     <-> k ∈ data_keys g_y /\ ~ (k ∈ keys /\ k <> []))
    /\ (StronglySorted (fun a b => str_leb a b = true) (missing_in_data d)
        /\ NoDup (missing_in_data d)
        /\ forall k, k ∈ missing_in_data d
                     <-> (k ∈ keys /\ k <> []) /\ k ∉ data_keys g_y).
Proof.
  intros (top & fs & -> & Hfs & Hkeys).
  assert (Hvalues : mapM region_norm_of fs = Ok (map JStr keys)).
  { apply mapM_Forall2. clear Hfs.
    induction Hkeys as [|f k fs keys (fd & pd & -> & Hp & Hk) _ IH];
      simpl; constructor; [|exact IH].
    unfold region_norm_of. cbn [get_method]. rewrite Hp.
    cbn [default id mbind result_bind get_method]. rewrite Hk. reflexivity. }
  assert (Hgeo : mapM geo_key (map JStr keys)
                 = Ok (map (fun k => if bool_decide (k = []) then None
                                     else Some k) keys)).
  { apply mapM_Forall2. clear. induction keys; simpl; constructor; auto. }
  assert (Hiter : get_method (JObj top) (u "features") (JArr []) ≫= iterate
                  = Ok fs).
  { cbn [get_method]. destruct Hfs as [->|[-> ->]]; reflexivity. }
  unfold compute_matching_diagnostics.
  destruct (get_method (JObj top) (u "features") (JArr [])) as [fv|e];
    [|discriminate Hiter].
  cbn [mbind result_bind] in *. rewrite Hiter. cbn [mbind result_bind].
  rewrite Hvalues. cbn [mbind result_bind]. rewrite Hgeo.
  cbn [mbind result_bind].
  set (geo := set_of (omap id (map _ keys))).
  set (data := set_of (unique (omap id (map _ g_y)))).
  assert (Hgeo_in : forall k, k ∈ geo <-> k ∈ keys /\ k <> []).
  { intros k. unfold geo, set_of. rewrite elem_of_list_to_set, list_elem_of_omap.
    split.
    - intros (o & Ho & Hk). unfold id in Hk. subst o.
      apply list_elem_of_In, in_map_iff in Ho as (k' & Hk' & Hin).
      destruct (bool_decide (k' = [])) eqn:Hb; [discriminate|].
      injection Hk' as ->. apply bool_decide_eq_false in Hb.
      split; [apply list_elem_of_In, Hin|exact Hb].
    - intros [Hin Hne]. exists (Some k). split; [|reflexivity].
      apply list_elem_of_In, in_map_iff. exists k.
      rewrite bool_decide_eq_false_2 by exact Hne.
      split; [reflexivity|apply list_elem_of_In, Hin]. }
  assert (Hdata_in : forall k, k ∈ data <-> k ∈ data_keys g_y).
  { intros k. unfold data, set_of, data_keys.
    rewrite elem_of_list_to_set, unique_elem, list_elem_of_omap. split.
    - intros (o & Ho & Hk). unfold id in Hk. subst o.
      apply list_elem_of_In, in_map_iff in Ho as (m & [= <-] & Hin).
      apply list_elem_of_In, in_map_iff. exists m. split; [reflexivity|exact Hin].
    - intros Hin. apply list_elem_of_In, in_map_iff in Hin as (m & <- & Hin).
      exists (Some (ry_nom_region_norm (group m))). split; [|reflexivity].
      apply list_elem_of_In, in_map_iff. exists m. split; [reflexivity|exact Hin]. }
  eexists. split; [reflexivity|]. cbn.
  split; [|split; [|split]].
  - destruct (size_set_of (unique (omap id
        (map (fun m => Some (ry_nom_region_norm (group m))) g_y))))
      as (l & Hnd & Hl & Hsize).
    exists l. split; [exact Hnd|]. split; [|exact Hsize].
    intros k. rewrite Hl. rewrite <- Hdata_in. unfold data, set_of.
    rewrite elem_of_list_to_set. reflexivity.
  - destruct (size_set_of (omap id
        (map (fun k => if bool_decide (k = []) then None else Some k) keys)))
      as (l & Hnd & Hl & Hsize).
    exists l. split; [exact Hnd|]. split; [|exact Hsize].
    intros k. rewrite Hl. rewrite <- Hgeo_in. unfold geo, set_of.
    rewrite elem_of_list_to_set. reflexivity.
  - destruct (sorted_spec (data ∖ geo)) as (Hs & Hnd & Hin).
    split; [exact Hs|]. split; [exact Hnd|].
    intros k. rewrite Hin, elem_of_difference, Hdata_in, Hgeo_in. reflexivity.
  - destruct (sorted_spec (geo ∖ data)) as (Hs & Hnd & Hin).
    split; [exact Hs|]. split; [exact Hnd|].
    intros k. rewrite Hin, elem_of_difference, Hdata_in, Hgeo_in. reflexivity.
Qed.

Lemma compute_matching_diagnostics_spec_witness :
  annotated bretagne_only [u "bretagne"]
  /\ exists d,
       compute_matching_diagnostics [] bretagne_only = Ok d
       /\ n_regions_data d = 0%nat /\ n_regions_geo d = 1%nat
       /\ missing_in_geo d = [] /\ missing_in_data d = [u "bretagne"].
Proof.
  assert (H : annotated bretagne_only [u "bretagne"]).
  { eexists _, _. split; [reflexivity|]. split; [left; reflexivity|].
    repeat constructor. eexists _, _. repeat split. }
  split; [exact H|].
  destruct (compute_matching_diagnostics_spec [] bretagne_only _ H)
    as (d & Hd & _).
  exists d. split; [exact Hd|].
  vm_compute in Hd. injection Hd as <-. repeat split.
Defined.

(** ** The store *)

(** Induction on a JSON tree, with the items of a list and the members of
    a dictionary. *)
Lemma json_ind' (P : json -> Prop) :
  P JNull -> (forall b, P (JBool b)) -> (forall q, P (JNum q)) ->
  (forall s, P (JStr s)) ->
  (forall l, Forall P l -> P (JArr l)) ->
  (forall d, Forall (fun kv => P kv.2) d -> P (JObj d)) ->
  forall j, P j.
Proof.
  intros Hnull Hbool Hnum Hstr Harr Hobj.
  fix IH 1. intros [|b|q|s|l|d].
  - exact Hnull.
  - apply Hbool.
  - apply Hnum.
  - apply Hstr.
  - apply Harr. induction l as [|j l IHl]; constructor; [apply IH|exact IHl].
  - apply Hobj. induction d as [|[k j] d IHd]; constructor; [apply IH|exact IHd].
Qed.

Lemma extends_refl (h : store) : extends h h.
Proof. exists []. split; [symmetry; apply app_nil_r|constructor]. Qed.

Lemma extends_length (h0 h : store) : extends h0 h -> (length h0 <= length h)%nat.
Proof. intros (new & -> & _). rewrite length_app. lia. Qed.

Lemma extends_alloc (h0 h : store) (o : object) :
  extends h0 h -> fresh_object (length h0) o -> extends h0 (h ++ [o]).
Proof.
  intros (new & -> & Hnew) Ho. exists (new ++ [o]).
  split; [symmetry; apply app_assoc|].
  apply Forall_app. split; [exact Hnew|]. repeat constructor. exact Ho.
Qed.

Lemma extends_lookup (h0 h : store) (l : nat) (o : object) :
  extends h0 h -> (length h0 <= l)%nat -> h !! l = Some o ->
  fresh_object (length h0) o.
Proof.
  intros (new & -> & Hnew) Hl Ho.
  rewrite lookup_app_r in Ho by exact Hl.
  rewrite Forall_forall in Hnew. eapply Hnew, list_elem_of_lookup_2, Ho.
Qed.

Lemma extends_insert (h0 h : store) (l : nat) (o : object) :
  extends h0 h -> (length h0 <= l)%nat -> fresh_object (length h0) o ->
  extends h0 (<[l := o]> h).
Proof.
  intros (new & -> & Hnew) Hl Ho. exists (<[(l - length h0)%nat := o]> new).
  split; [apply insert_app_r_alt, Hl|].
  apply Forall_insert; assumption.
Qed.

Lemma build_extends {A B} (f : A -> store -> B * store) (Q : B -> Prop)
    (h0 : store) (l : list A) :
  Forall (fun x => forall h, extends h0 h ->
                     extends h0 (f x h).2 /\ Q (f x h).1) l ->
  forall h, extends h0 h ->
    extends h0 (build f l h).2 /\ Forall Q (build f l h).1.
Proof.
  induction 1 as [|x l Hx _ IH]; intros h Hh; simpl; [split; [exact Hh|constructor]|].
  destruct (Hx h Hh) as [H1 HQ]. destruct (f x h) as [y h1]. simpl in *.
  destruct (IH h1 H1) as [H2 HQs]. destruct (build f l h1) as [ys h2].
  simpl in *. split; [exact H2|constructor; assumption].
Qed.

Lemma loads_extends (j : json) (h0 : store) :
  forall h, extends h0 h ->
    extends h0 (loads j h).2 /\ fresh_value (length h0) (loads j h).1.
Proof.
  induction j as [| | | |js IH|d IH] using json_ind'; intros h Hh;
    try (split; [exact Hh|exact I]).
  - cbn [loads].
    destruct (build_extends loads (fresh_value (length h0)) h0 js IH h Hh)
      as [H1 H2].
    destruct (build loads js h) as [vs h']. simpl in *. split.
    + apply extends_alloc; assumption.
    + apply extends_length, H1.
  - cbn [loads].
    set (f := fun (kv : list N * json) (h : list object) =>
                let '(v, h1) := loads kv.2 h in ((kv.1, v), h1)).
    assert (Hf : Forall (fun x => forall h, extends h0 h ->
                   extends h0 (f x h).2
                   /\ fresh_value (length h0) (f x h).1.2) d).
    { eapply Forall_impl; [exact IH|]. intros [k j] Hj h1 Hh1. unfold f.
      simpl in *. specialize (Hj h1 Hh1). destruct (loads j h1). exact Hj. }
    destruct (build_extends f (fun kv => fresh_value (length h0) kv.2) h0 d Hf h Hh)
      as [H1 H2].
    destruct (build f d h) as [kvs h']. simpl in *. split.
    + apply extends_alloc; assumption.
    + apply extends_length, H1.
Qed.

Lemma preserves_ret {A} (h0 : store) (Q : A -> Prop) (a : A) :
  Q a -> preserves h0 Q (ret a).
Proof. intros Ha h Hh. split; [exact Hh|]. intros a' [= <-]. exact Ha. Qed.

Lemma preserves_lift {A} (h0 : store) (Q : A -> Prop) (r : result A) :
  (forall a, r = Ok a -> Q a) -> preserves h0 Q (lift r).
Proof. intros Hr h Hh. split; [exact Hh|exact Hr]. Qed.

Lemma preserves_bind {A B} (h0 : store) (P : A -> Prop) (Q : B -> Prop)
    (m : M A) (f : A -> M B) :
  preserves h0 P m -> (forall a, P a -> preserves h0 Q (f a)) ->
  preserves h0 Q (bind m f).
Proof.
  intros Hm Hf h Hh. unfold bind. destruct (Hm h Hh) as [H1 HP].
  destruct (m h) as [[a|e] h1]; simpl in *.
  - apply (Hf a (HP a eq_refl) h1 H1).
  - split; [exact H1|]. intros a' [=].
Qed.

Lemma preserves_json_dumps (h0 : store) (v : value) :
  preserves h0 (fun _ => True) (json_dumps v).
Proof. intros h Hh. split; [exact Hh|]. intros; exact I. Qed.

Lemma preserves_json_loads (h0 : store) (j : json) :
  preserves h0 (fresh_value (length h0)) (json_loads j).
Proof.
  intros h Hh. unfold json_loads. destruct (loads_extends j h0 h Hh) as [H1 H2].
  destruct (loads j h) as [v h']. simpl in *. split; [exact H1|].
  intros a [= <-]. exact H2.
Qed.

Lemma preserves_alloc (h0 : store) (o : object) :
  fresh_object (length h0) o ->
  preserves h0 (fresh_value (length h0)) (alloc o).
Proof.
  intros Ho h Hh. unfold alloc. simpl. split; [apply extends_alloc; assumption|].
  intros a [= <-]. apply extends_length, Hh.
Qed.

Lemma preserves_read_dict (h0 : store) (v : value) :
  fresh_value (length h0) v ->
  preserves h0 (Forall (fun kv => fresh_value (length h0) kv.2)) (read_dict v).
Proof.
  intros Hv h Hh. unfold read_dict.
  destruct v as [| | | |l]; try solve [split; [exact Hh|intros a [=]]].
  destruct (h !! l) as [[vs|d]|] eqn:Hl; simpl;
    (split; [exact Hh|]); intros a [= <-].
  exact (extends_lookup h0 h l _ Hh Hv Hl).
Qed.

Lemma preserves_write_dict (h0 : store) (v : value) (d : dict value) :
  fresh_value (length h0) v ->
  Forall (fun kv => fresh_value (length h0) kv.2) d ->
  preserves h0 (fun _ => True) (write_dict v d).
Proof.
  intros Hv Hd h Hh. unfold write_dict.
  destruct v as [| | | |l]; try (split; [exact Hh|intros; exact I]).
  destruct (h !! l) as [[vs|d0]|]; simpl; (split; [|intros; exact I]);
    try exact Hh.
  apply extends_insert; assumption.
Qed.

Lemma preserves_items_of (h0 : store) (v : value) :
  fresh_value (length h0) v ->
  preserves h0 (Forall (fresh_value (length h0))) (items_of v).
Proof.
  intros Hv h Hh. unfold items_of.
  destruct v as [| | |s|l]; try solve [split; [exact Hh|intros a [=]]].
  - split; [exact Hh|]. intros a [= <-].
    apply Forall_forall. intros x Hx.
    apply list_elem_of_In, in_map_iff in Hx as (c & <- & _). exact I.
  - destruct (h !! l) as [[vs|d]|] eqn:Hl; simpl;
      (split; [exact Hh|]); intros a [= <-].
    + exact (extends_lookup h0 h l _ Hh Hv Hl).
    + apply Forall_forall. intros x Hx.
      apply list_elem_of_In, in_map_iff in Hx as (c & <- & _). exact I.
Qed.

Lemma preserves_for_each {A} (h0 : store) (body : A -> M unit) (l : list A) :
  Forall (fun x => preserves h0 (fun _ => True) (body x)) l ->
  preserves h0 (fun _ => True) (for_each body l).
Proof.
  induction 1 as [|x l Hx _ IH]; cbn [for_each].
  - apply preserves_ret. exact I.
  - eapply preserves_bind; [exact Hx|]. intros _ _. exact IH.
Qed.

Lemma dict_get_Forall {V} (P : V -> Prop) (k : list N) (d : dict V) (v : V) :
  Forall (fun kv => P kv.2) d -> dict_get k d = Some v -> P v.
Proof.
  induction 1 as [|[k' v'] d Hv _ IH]; simpl; [discriminate|].
  destruct (decide (k = k')); [intros [= <-]; exact Hv|exact IH].
Qed.

Lemma dict_set_Forall {V} (P : V -> Prop) (k : list N) (v : V) (d : dict V) :
  P v -> Forall (fun kv => P kv.2) d ->
  Forall (fun kv => P kv.2) (dict_set k v d).
Proof.
  intros Hv. induction 1 as [|[k' v'] d Hv' Hd IH]; simpl.
  - repeat constructor. exact Hv.
  - destruct (decide (k = k')); constructor; assumption.
Qed.

Section GeoJSONFrame.

Variable py_repr : store -> value -> str.

Lemma preserves_annotate (h0 : store) (key : str) (feat : value) :
  fresh_value (length h0) feat ->
  preserves h0 (fun _ => True) (annotate py_repr key feat).
Proof.
  intros Hfeat. unfold annotate.
  eapply preserves_bind; [apply preserves_read_dict, Hfeat|].
  intros d Hd.
  eapply (preserves_bind _ (fresh_value (length h0))).
  { destruct (dict_get (u "properties") d) as [v|] eqn:Hget.
    - apply preserves_ret. exact (dict_get_Forall _ _ _ _ Hd Hget).
    - eapply preserves_bind; [apply preserves_alloc; constructor|].
      intros p Hp. eapply preserves_bind.
      + apply preserves_write_dict; [exact Hfeat|].
        apply dict_set_Forall; assumption.
      + intros _ _. apply preserves_ret. exact Hp. }
  intros props Hprops.
  eapply preserves_bind; [apply preserves_read_dict, Hprops|].
  intros pd Hpd.
  eapply (preserves_bind _ (fun _ => True)).
  { intros h Hh. split; [exact Hh|]. intros; exact I. }
  intros s _. apply preserves_write_dict; [exact Hprops|].
  apply dict_set_Forall; [exact I|exact Hpd].
Qed.

Lemma preserves_geojson_with_norm_names (h0 : store) (geojson : value) :
  preserves h0 (fun r => fresh_value (length h0) r.1)
            (geojson_with_norm_names py_repr geojson).
Proof.
  unfold geojson_with_norm_names.
  eapply preserves_bind; [apply preserves_json_dumps|]. intros j _.
  eapply preserves_bind; [apply preserves_json_loads|]. intros gj Hgj.
  eapply preserves_bind; [apply preserves_json_dumps|]. intros t _.
  eapply (preserves_bind _ (fun _ => True));
    [apply preserves_lift; intros; exact I|]. intros key _.
  eapply preserves_bind; [apply preserves_read_dict, Hgj|]. intros top Htop.
  eapply (preserves_bind _ (Forall (fresh_value (length h0)))).
  { destruct (dict_get (u "features") top) as [fv|] eqn:Hget.
    - apply preserves_items_of. exact (dict_get_Forall _ _ _ _ Htop Hget).
    - apply preserves_ret. constructor. }
  intros feats Hfeats.
  eapply preserves_bind.
  - apply preserves_for_each. eapply Forall_impl; [exact Hfeats|].
    intros feat Hfeat. apply preserves_annotate, Hfeat.
  - intros _ _. apply preserves_ret. exact Hgj.
Qed.

End GeoJSONFrame.

Lemma mapM_ext_Ok {A B} (f g : A -> result B) (l : list A) (l' : list B) :
  (forall x y, x ∈ l -> f x = Ok y -> g x = Ok y) ->
  mapM f l = Ok l' -> mapM g l = Ok l'.
Proof.
  intros Hfg Hf. apply mapM_Forall2. apply mapM_Ok in Hf.
  induction Hf as [|x y l l' Hx _ IH]; constructor.
  - apply Hfg; [left|exact Hx].
  - apply IH. intros x' y' Hx'. apply Hfg. right. exact Hx'.
Qed.

Lemma fmap_Ok {A B} (f : A -> B) (r : result A) (b : B) :
  f <$> r = Ok b -> exists a, r = Ok a /\ b = f a.
Proof. destruct r as [a|e]; [intros [= <-]; eauto|discriminate]. Qed.

(** The tree of a value is the same with more depth and in a store that
    has the same objects at the same places. *)
Lemma tree_mono (d : nat) (h : store) :
  forall v j, tree d h v = Ok j ->
  forall d' h', (d <= d')%nat ->
    (forall l o, h !! l = Some o -> h' !! l = Some o) ->
    tree d' h' v = Ok j.
Proof.
  induction d as [|d IH]; intros v j Hv d' h' Hd Hh.
  - destruct v; try (destruct d'; exact Hv). discriminate Hv.
  - destruct v as [| | | |l]; try (destruct d'; exact Hv).
    destruct d' as [|d']; [lia|]. cbn [tree] in *.
    destruct (h !! l) as [o|] eqn:Hl; [|discriminate Hv].
    rewrite (Hh l o Hl). destruct o as [vs|kvs].
    + apply fmap_Ok in Hv as (js & Hjs & ->).
      erewrite mapM_ext_Ok; [reflexivity| |exact Hjs].
      intros x y _ Hx. cbv beta in Hx. eapply IH; [exact Hx|lia|exact Hh].
    + apply fmap_Ok in Hv as (js & Hjs & ->).
      erewrite mapM_ext_Ok; [reflexivity| |exact Hjs].
      intros x y _ Hx. cbv beta in *.
      apply fmap_Ok in Hx as (jx & Hjx & ->).
      erewrite IH; [reflexivity|exact Hjx|lia|exact Hh].
Qed.

Lemma json_depth_obj (d : dict json) : json_depth (JObj d) = S (dict_depth d).
Proof. reflexivity. Qed.

Lemma json_depth_arr (l : list json) : json_depth (JArr l) = S (list_depth l).
Proof. reflexivity. Qed.

Lemma tree_det (h : store) (v : value) (d1 d2 : nat) (j1 j2 : json) :
  tree d1 h v = Ok j1 -> tree d2 h v = Ok j2 -> j1 = j2.
Proof.
  intros H1 H2.
  pose proof (tree_mono d1 h v j1 H1 (Nat.max d1 d2) h ltac:(lia)
                        (fun l o H => H)) as H1'.
  pose proof (tree_mono d2 h v j2 H2 (Nat.max d1 d2) h ltac:(lia)
                        (fun l o H => H)) as H2'.
  congruence.
Qed.

Lemma list_depth_elem (js : list json) (j : json) :
  j ∈ js -> (json_depth j <= list_depth js)%nat.
Proof.
  induction 1 as [j js|j j0 js _ IH]; cbn [list_depth foldr];
    fold (list_depth js); lia.
Qed.

Lemma dict_depth_elem (dj : dict json) (kj : list N * json) :
  kj ∈ dj -> (json_depth kj.2 <= dict_depth dj)%nat.
Proof.
  induction 1 as [kj dj|kj kj0 dj _ IH]; cbn [dict_depth foldr];
    fold (dict_depth dj); lia.
Qed.

(** The depth of the tree is all the depth that the traversal needs. *)
Lemma tree_enough (d : nat) (h : store) :
  forall v j, tree d h v = Ok j ->
  forall d', (json_depth j <= d')%nat -> tree d' h v = Ok j.
Proof.
  induction d as [|d IH]; intros v j Hv d' Hd.
  - destruct v; try (destruct d'; exact Hv). discriminate Hv.
  - destruct v as [| | | |l]; try (destruct d'; exact Hv).
    cbn [tree] in Hv. destruct (h !! l) as [[vs|kvs]|] eqn:Hl;
      [| |discriminate Hv].
    + apply fmap_Ok in Hv as (js & Hjs & ->). rewrite json_depth_arr in Hd.
      destruct d' as [|d']; [lia|]. cbn [tree]. rewrite Hl.
      erewrite mapM_Forall2; [reflexivity|].
      apply mapM_Ok in Hjs.
      apply Forall2_same_length_lookup. split.
      { eapply Forall2_length, Hjs. }
      intros i x y Hx Hy.
      pose proof (Forall2_lookup_lr _ _ _ _ _ _ Hjs Hx Hy) as Hxy.
      cbv beta in Hxy. apply (IH _ _ Hxy).
      pose proof (list_depth_elem js y (list_elem_of_lookup_2 _ _ _ Hy)). lia.
    + apply fmap_Ok in Hv as (dj & Hdj & ->). rewrite json_depth_obj in Hd.
      destruct d' as [|d']; [lia|]. cbn [tree]. rewrite Hl.
      erewrite mapM_Forall2; [reflexivity|].
      apply mapM_Ok in Hdj.
      apply Forall2_same_length_lookup. split.
      { eapply Forall2_length, Hdj. }
      intros i x y Hx Hy.
      pose proof (Forall2_lookup_lr _ _ _ _ _ _ Hdj Hx Hy) as Hxy.
      cbv beta in Hxy. apply fmap_Ok in Hxy as (jx & Hjx & ->).
      rewrite (IH _ _ Hjx); [reflexivity|].
      pose proof (dict_depth_elem dj _ (list_elem_of_lookup_2 _ _ _ Hy)).
      cbn [snd] in *. lia.
Qed.

Lemma list_depth_reach (js : list json) (k : nat) :
  (1 <= k <= list_depth js)%nat ->
  exists j, j ∈ js /\ (k <= json_depth j)%nat.
Proof.
  induction js as [|j js IH]; cbn [list_depth foldr]; [lia|].
  fold (list_depth js). intros Hk.
  destruct (le_lt_dec k (json_depth j)) as [Hle|Hlt].
  - exists j. split; [left|exact Hle].
  - destruct IH as (j' & Hj' & Hle); [lia|].
    exists j'. split; [right; exact Hj'|exact Hle].
Qed.

Lemma dict_depth_reach (dj : dict json) (k : nat) :
  (1 <= k <= dict_depth dj)%nat ->
  exists kj, kj ∈ dj /\ (k <= json_depth kj.2)%nat.
Proof.
  induction dj as [|kj dj IH]; cbn [dict_depth foldr]; [lia|].
  fold (dict_depth dj). intros Hk.
  destruct (le_lt_dec k (json_depth kj.2)) as [Hle|Hlt].
  - exists kj. split; [left|exact Hle].
  - destruct IH as (kj' & Hj' & Hle); [lia|].
    exists kj'. split; [right; exact Hj'|exact Hle].
Qed.

(** Under a tree of depth [n] there is an object of every depth from 1 to
    [n]. *)
Lemma tree_heights (d : nat) (h : store) :
  forall v j, tree d h v = Ok j ->
  forall k, (1 <= k <= json_depth j)%nat ->
  exists l d' j', (l < length h)%nat
                  /\ tree d' h (VRef l) = Ok j' /\ json_depth j' = k.
Proof.
  induction d as [|d IH]; intros v j Hv k Hk.
  - destruct v; try (injection Hv as <-; cbn in Hk; lia). discriminate Hv.
  - destruct v as [| | | |l]; try (injection Hv as <-; cbn in Hk; lia).
    pose proof Hv as Hv0. cbn [tree] in Hv.
    destruct (h !! l) as [[vs|kvs]|] eqn:Hl; [| |discriminate Hv];
      pose proof (lookup_lt_Some _ _ _ Hl) as Hlt.
    + apply fmap_Ok in Hv as (js & Hjs & ->). rewrite json_depth_arr in Hk.
      destruct (decide (k = S (list_depth js))) as [->|Hne].
      { exists l, (S d), (JArr js). split; [exact Hlt|]. split; [exact Hv0|].
        reflexivity. }
      destruct (list_depth_reach js k ltac:(lia)) as (j & Hj & Hle).
      apply mapM_Ok in Hjs.
      apply list_elem_of_lookup in Hj as (i & Hi).
      destruct (Forall2_lookup_r _ _ _ _ _ Hjs Hi) as (x & Hx & Hxj).
      apply (IH x j Hxj k). lia.
    + apply fmap_Ok in Hv as (dj & Hdj & ->). rewrite json_depth_obj in Hk.
      destruct (decide (k = S (dict_depth dj))) as [->|Hne].
      { exists l, (S d), (JObj dj). split; [exact Hlt|]. split; [exact Hv0|].
        reflexivity. }
      destruct (dict_depth_reach dj k ltac:(lia)) as (kj & Hj & Hle).
      apply mapM_Ok in Hdj.
      apply list_elem_of_lookup in Hj as (i & Hi).
      destruct (Forall2_lookup_r _ _ _ _ _ Hdj Hi) as (x & Hx & Hxj).
      cbv beta in Hxj. apply fmap_Ok in Hxj as (jx & Hjx & Hkj).
      apply (IH x.2 jx Hjx k). rewrite Hkj in Hle. cbn [snd] in Hle. lia.
Qed.

(** A tree is not deeper than the store has objects: the objects on its
    longest branch are all different. *)
Lemma tree_depth_bound (d : nat) (h : store) (v : value) (j : json) :
  tree d h v = Ok j -> (json_depth j <= length h)%nat.
Proof.
  intros Hv.
  assert (Hlocs : forall m, (m <= json_depth j)%nat ->
    exists locs : list nat,
      length locs = m /\ NoDup locs
      /\ Forall (fun l => (l < length h)%nat
                          /\ exists d' j', tree d' h (VRef l) = Ok j'
                                           /\ (json_depth j' <= m)%nat) locs).
  { induction m as [|m IH]; intros Hm.
    - exists []. split; [reflexivity|]. split; constructor.
    - destruct IH as (locs & Hlen & Hnd & Hall); [lia|].
      destruct (tree_heights d h v j Hv (S m) ltac:(lia))
        as (l & d' & j' & Hl & Hj' & Hdepth).
      exists (l :: locs). split; [cbn; lia|]. split.
      + constructor; [|exact Hnd]. intros Hin.
        rewrite Forall_forall in Hall.
        destruct (Hall l Hin) as (_ & d2 & j2 & Hj2 & Hd2).
        pose proof (tree_det _ _ _ _ _ _ Hj' Hj2). subst j2. lia.
      + constructor.
        * split; [exact Hl|]. exists d', j'. split; [exact Hj'|lia].
        * eapply Forall_impl; [exact Hall|].
          intros l0 (Hl0 & d0 & j0 & Hj0 & Hd0).
          split; [exact Hl0|]. exists d0, j0. split; [exact Hj0|lia]. }
  destruct (Hlocs (json_depth j) ltac:(lia)) as (locs & Hlen & Hnd & Hall).
  assert (Hsub : locs ⊆+ seq 0 (length h)).
  { apply NoDup_submseteq; [exact Hnd|]. intros l Hl.
    rewrite Forall_forall in Hall. destruct (Hall l Hl) as [Hlt _].
    apply elem_of_seq. lia. }
  apply submseteq_length in Hsub. rewrite length_seq in Hsub. lia.
Qed.

(** [json.dumps] returns the tree of every value that holds one; it
    raises on circular references only. *)
Lemma json_dumps_total (h : store) (v : value) (j : json) (d : nat) :
  tree d h v = Ok j -> json_dumps v h = (Ok j, h).
Proof.
  intros Hv. unfold json_dumps.
  rewrite (tree_enough d h v j Hv (length h)); [reflexivity|].
  eapply tree_depth_bound, Hv.
Qed.

(** C6: [geojson_with_norm_names] works on a copy.  Whatever the call
    returns or raises, every object that the store held before the call
    is the same after it, at the same place, so the value that the caller
    passed holds the same tree; the collection returned is a new
    object. *)
Theorem geojson_with_norm_names_frame
    (py_repr : store -> value -> str) (geojson : value) (h : store) :
  let out := geojson_with_norm_names py_repr geojson h in
  (exists new, out.2 = h ++ new)
  /\ (forall l o, h !! l = Some o -> out.2 !! l = Some o)
  /\ (forall j, (json_dumps geojson h).1 = Ok j ->
                (json_dumps geojson out.2).1 = Ok j)
  /\ (forall gj key, out.1 = Ok (gj, key) -> fresh_value (length h) gj).
Proof.
  intros out.
  destruct (preserves_geojson_with_norm_names py_repr h geojson h
              (extends_refl h)) as [(new & Hnew & _) Hres].
  fold out in Hnew, Hres.
  assert (Hsame : forall l o, h !! l = Some o -> out.2 !! l = Some o).
  { intros l o Hl. rewrite Hnew. apply lookup_app_l_Some, Hl. }
  split; [exists new; exact Hnew|]. split; [exact Hsame|]. split.
  - intros j Hj. unfold json_dumps in *. cbn [fst] in *.
    eapply tree_mono; [exact Hj| |exact Hsame].
    rewrite Hnew, length_app. lia.
  - intros gj key Hout. exact (Hres (gj, key) Hout).
Qed.

(** ** The copy and its annotation *)

Lemma rep_le (h : store) :
  (forall lo hi v j, rep h lo hi v j -> (lo <= hi)%nat)
  /\ (forall lo hi vs js, reps h lo hi vs js -> (lo <= hi)%nat)
  /\ (forall lo hi kvs d, repd h lo hi kvs d -> (lo <= hi)%nat).
Proof. apply rep_reps_repd; intros; lia. Qed.

(** A tree only depends on the objects of its range. *)
Lemma rep_frame (h : store) :
  (forall lo hi v j, rep h lo hi v j ->
     forall h2, (forall l, (lo <= l < hi)%nat -> h2 !! l = h !! l) ->
       rep h2 lo hi v j)
  /\ (forall lo hi vs js, reps h lo hi vs js ->
        forall h2, (forall l, (lo <= l < hi)%nat -> h2 !! l = h !! l) ->
          reps h2 lo hi vs js)
  /\ (forall lo hi kvs d, repd h lo hi kvs d ->
        forall h2, (forall l, (lo <= l < hi)%nat -> h2 !! l = h !! l) ->
          repd h2 lo hi kvs d).
Proof.
  apply rep_reps_repd; intros; try (constructor; fail).
  - pose proof (proj1 (proj2 (rep_le h)) _ _ _ _ r).
    apply (rep_arr h2 lo l vs js); [apply H; intros; apply H0; lia|].
    rewrite H0 by lia. assumption.
  - pose proof (proj2 (proj2 (rep_le h)) _ _ _ _ r).
    apply (rep_obj h2 lo l kvs d); [apply H; intros; apply H0; lia|].
    rewrite H0 by lia. assumption.
  - pose proof (proj1 (rep_le h) _ _ _ _ r).
    pose proof (proj1 (proj2 (rep_le h)) _ _ _ _ r0).
    eapply reps_cons; [apply H|apply H0]; intros; apply H1; lia.
  - pose proof (proj1 (rep_le h) _ _ _ _ r).
    pose proof (proj2 (proj2 (rep_le h)) _ _ _ _ r0).
    eapply repd_cons; [apply H|apply H0]; intros; apply H1; lia.
Qed.

(** The depth of a tree is at most the number of its objects. *)
Lemma rep_depth (h : store) :
  (forall lo hi v j, rep h lo hi v j -> (json_depth j <= hi - lo)%nat)
  /\ (forall lo hi vs js, reps h lo hi vs js -> (list_depth js <= hi - lo)%nat)
  /\ (forall lo hi kvs d, repd h lo hi kvs d -> (dict_depth d <= hi - lo)%nat).
Proof.
  apply rep_reps_repd; intros; cbn [json_depth list_depth dict_depth foldr];
    try lia.
  - pose proof (proj1 (proj2 (rep_le h)) _ _ _ _ r).
    fold (list_depth js). lia.
  - pose proof (proj2 (proj2 (rep_le h)) _ _ _ _ r).
    fold (dict_depth d). lia.
  - pose proof (proj1 (rep_le h) _ _ _ _ r).
    pose proof (proj1 (proj2 (rep_le h)) _ _ _ _ r0).
    fold (list_depth js). lia.
  - pose proof (proj1 (rep_le h) _ _ _ _ r).
    pose proof (proj2 (proj2 (rep_le h)) _ _ _ _ r0).
    cbn [snd]. fold (dict_depth d). lia.
Qed.

Lemma members_hold_tree (d : nat) (h : store) (kvs : dict value)
    (dj : dict json) :
  members_hold d h kvs dj ->
  mapM (fun kv => pair kv.1 <$> tree d h kv.2) kvs = Ok dj.
Proof.
  intros H. apply mapM_Forall2. eapply Forall2_impl; [exact H|].
  intros [k v] [k' j] [Hk Hv]. simpl in *. subst k'. rewrite Hv. reflexivity.
Qed.

(** [tree] reads back what [rep] describes. *)
Lemma rep_tree (h : store) :
  (forall lo hi v j, rep h lo hi v j ->
     forall d, (json_depth j <= d)%nat -> tree d h v = Ok j)
  /\ (forall lo hi vs js, reps h lo hi vs js ->
        forall d, (list_depth js <= d)%nat ->
          Forall2 (fun v j => tree d h v = Ok j) vs js)
  /\ (forall lo hi kvs dj, repd h lo hi kvs dj ->
        forall d, (dict_depth dj <= d)%nat -> members_hold d h kvs dj).
Proof.
  apply rep_reps_repd.
  - intros lo [|d] _; reflexivity.
  - intros lo b [|d] _; reflexivity.
  - intros lo q [|d] _; reflexivity.
  - intros lo s [|d] _; reflexivity.
  - intros lo l vs js _ IH Hl [|d] Hd; cbn [json_depth] in Hd; [lia|].
    fold (list_depth js) in Hd. cbn [tree]. rewrite Hl.
    rewrite (mapM_Forall2 _ _ _ (IH d ltac:(lia))). reflexivity.
  - intros lo l kvs dj _ IH Hl [|d] Hd; cbn [json_depth] in Hd; [lia|].
    fold (dict_depth dj) in Hd. cbn [tree]. rewrite Hl.
    rewrite (members_hold_tree _ _ _ _ (IH d ltac:(lia))). reflexivity.
  - intros lo d _. constructor.
  - intros lo mid hi v j vs js _ IHv _ IHvs d Hd.
    cbn [list_depth foldr] in Hd. fold (list_depth js) in Hd.
    constructor; [apply IHv; lia|apply IHvs; lia].
  - intros lo d _. constructor.
  - intros lo mid hi k v j kvs dj _ IHv _ IHd d Hd.
    cbn [dict_depth foldr snd] in Hd. fold (dict_depth dj) in Hd.
    constructor; [split; [reflexivity|apply IHv; lia]|apply IHd; lia].
Qed.

Lemma rep_app (h new : store) :
  (forall lo hi v j, rep h lo hi v j -> (hi <= length h)%nat ->
     rep (h ++ new) lo hi v j)
  /\ (forall lo hi vs js, reps h lo hi vs js -> (hi <= length h)%nat ->
        reps (h ++ new) lo hi vs js)
  /\ (forall lo hi kvs d, repd h lo hi kvs d -> (hi <= length h)%nat ->
        repd (h ++ new) lo hi kvs d).
Proof.
  split; [|split]; intros lo hi ? ? H Hhi;
    eapply rep_frame; try exact H; intros l Hl; apply lookup_app_l; lia.
Qed.

(** [loads] lays the tree out after the objects of the store. *)
Lemma loads_rep (j : json) :
  forall h v h', loads j h = (v, h') ->
    rep h' (length h) (length h') v j /\ exists new, h' = h ++ new.
Proof.
  induction j as [| | | |js IH|d IH] using json_ind'; intros h v h' Hl;
    try (injection Hl as <- <-; split;
         [constructor|exists []; symmetry; apply app_nil_r]).
  - cbn [loads] in Hl.
    assert (Hb : forall h vs h', build loads js h = (vs, h') ->
              reps h' (length h) (length h') vs js
              /\ exists new, h' = h ++ new).
    { clear h v h' Hl.
      induction IH as [|j js Hj _ IHjs]; intros h vs h' Hb; simpl in Hb.
      - injection Hb as <- <-. split; [constructor|].
        exists []. symmetry. apply app_nil_r.
      - destruct (loads j h) as [v h1] eqn:Hv.
        destruct (build loads js h1) as [vs' h2] eqn:Hvs.
        injection Hb as <- <-.
        destruct (Hj _ _ _ Hv) as [Hr (new1 & ->)].
        destruct (IHjs _ _ _ Hvs) as [Hrs (new2 & ->)].
        split; [|exists (new1 ++ new2); symmetry; apply app_assoc].
        econstructor; [|exact Hrs].
        apply (proj1 (rep_app _ new2)); [exact Hr|lia]. }
    destruct (build loads js h) as [vs h1] eqn:Hvs.
    injection Hl as <- <-.
    destruct (Hb _ _ _ Hvs) as [Hrs (new & ->)].
    split; [|exists (new ++ [OList vs]); symmetry; apply app_assoc].
    rewrite (length_app (h ++ new) [OList vs]). cbn [length].
    rewrite Nat.add_1_r. apply (rep_arr _ _ _ vs).
    + apply (proj1 (proj2 (rep_app _ _))); [exact Hrs|lia].
    + apply list_lookup_middle. reflexivity.
  - cbn [loads] in Hl.
    set (f := fun (kv : list N * json) (h : list object) =>
                let '(v, h1) := loads kv.2 h in ((kv.1, v), h1)) in *.
    assert (Hb : forall h kvs h', build f d h = (kvs, h') ->
              repd h' (length h) (length h') kvs d
              /\ exists new, h' = h ++ new).
    { clear h v h' Hl.
      induction IH as [|[k j] d Hj _ IHd]; intros h kvs h' Hb; simpl in Hb.
      - injection Hb as <- <-. split; [constructor|].
        exists []. symmetry. apply app_nil_r.
      - unfold f at 1 in Hb. cbn [fst snd] in Hb, Hj.
        destruct (loads j h) as [v h1] eqn:Hv.
        destruct (build f d h1) as [kvs' h2] eqn:Hkvs.
        injection Hb as <- <-.
        destruct (Hj _ _ _ Hv) as [Hr (new1 & ->)].
        destruct (IHd _ _ _ Hkvs) as [Hrs (new2 & ->)].
        split; [|exists (new1 ++ new2); symmetry; apply app_assoc].
        econstructor; [|exact Hrs].
        apply (proj1 (rep_app _ new2)); [exact Hr|lia]. }
    destruct (build f d h) as [kvs h1] eqn:Hkvs.
    injection Hl as <- <-.
    destruct (Hb _ _ _ Hkvs) as [Hrs (new & ->)].
    split; [|exists (new ++ [ODict kvs]); symmetry; apply app_assoc].
    rewrite (length_app (h ++ new) [ODict kvs]). cbn [length].
    rewrite Nat.add_1_r. apply (rep_obj _ _ _ kvs).
    + apply (proj2 (proj2 (rep_app _ _))); [exact Hrs|lia].
    + apply list_lookup_middle. reflexivity.
Qed.

(** The copy holds the tree that was loaded: [json.loads] then
    [json.dumps] gives the tree back. *)
Lemma json_loads_dumps (j : json) (h : store) :
  forall v h', loads j h = (v, h') -> (json_dumps v h').1 = Ok j.
Proof.
  intros v h' Hl. destruct (loads_rep j h v h' Hl) as [Hr _].
  unfold json_dumps. cbn [fst].
  apply (proj1 (rep_tree h') _ _ _ _ Hr).
  pose proof (proj1 (rep_depth h') _ _ _ _ Hr). lia.
Qed.

Lemma dict_get_set_eq {V} (k : list N) (v : V) (d : dict V) :
  dict_get k (dict_set k v d) = Some v.
Proof.
  induction d as [|[k' v'] d IH]; simpl.
  - rewrite decide_True by reflexivity. reflexivity.
  - destruct (decide (k = k')) as [->|Hne]; simpl.
    + rewrite decide_True by reflexivity. reflexivity.
    + rewrite decide_False by exact Hne. exact IH.
Qed.

Lemma dict_get_set_ne {V} (k k' : list N) (v : V) (d : dict V) :
  k' <> k -> dict_get k' (dict_set k v d) = dict_get k' d.
Proof.
  intros Hne. induction d as [|[k0 v0] d IH]; simpl.
  - rewrite decide_False by exact Hne. reflexivity.
  - destruct (decide (k = k0)) as [->|Hk]; simpl.
    + rewrite !decide_False by exact Hne. reflexivity.
    + destruct (decide (k' = k0)); [reflexivity|exact IH].
Qed.

Lemma dict_get_depth (k : list N) (d : dict json) (j : json) :
  dict_get k d = Some j -> (json_depth j <= dict_depth d)%nat.
Proof.
  induction d as [|[k' j'] d IH]; [discriminate|].
  cbn [dict_get dict_depth foldr snd]. fold (dict_depth d).
  destruct (decide (k = k')); [intros [= <-]; lia|].
  intros H. specialize (IH H). lia.
Qed.

(** A dictionary in any store that has the objects of its range. *)
Lemma repd_hold (h h2 : store) (lo hi : nat) (kvs : dict value)
    (dj : dict json) (depth : nat) :
  repd h lo hi kvs dj ->
  (forall l, (lo <= l < hi)%nat -> h2 !! l = h !! l) ->
  (dict_depth dj <= depth)%nat -> members_hold depth h2 kvs dj.
Proof.
  intros Hr Hh2 Hd.
  apply (proj2 (proj2 (rep_tree h2)) lo hi); [|exact Hd].
  apply (proj2 (proj2 (rep_frame h)) _ _ _ _ Hr). exact Hh2.
Qed.

Lemma rep_hold (h h2 : store) (lo hi : nat) (v : value) (j : json)
    (depth : nat) :
  rep h lo hi v j ->
  (forall l, (lo <= l < hi)%nat -> h2 !! l = h !! l) ->
  (json_depth j <= depth)%nat -> tree depth h2 v = Ok j.
Proof.
  intros Hr Hh2 Hd.
  apply (proj1 (rep_tree h2) lo hi); [|exact Hd].
  apply (proj1 (rep_frame h) _ _ _ _ Hr). exact Hh2.
Qed.

(** Assignment into a dictionary of the store, seen on the tree. *)
Lemma repd_set (h h2 : store) (lo hi : nat) (kvs : dict value)
    (dj : dict json) (k : list N) (v' : value) (j' : json) (depth : nat) :
  repd h lo hi kvs dj ->
  (forall l, (lo <= l < hi)%nat -> h2 !! l = h !! l) ->
  tree depth h2 v' = Ok j' ->
  (dict_depth (dict_set k j' dj) <= depth)%nat ->
  members_hold depth h2 (dict_set k v' kvs) (dict_set k j' dj).
Proof.
  intros Hr. revert depth.
  induction Hr as [lo0|lo0 mid hi0 k0 v0 j0 kvs0 d0 Hv Hd IH];
    intros depth Hh2 Hv' Hdepth.
  - repeat constructor. exact Hv'.
  - pose proof (proj1 (rep_le h) _ _ _ _ Hv) as Hle1.
    pose proof (proj2 (proj2 (rep_le h)) _ _ _ _ Hd) as Hle2.
    cbn [dict_set] in *. destruct (decide (k = k0)) as [->|Hne].
    + cbn [dict_depth foldr snd] in Hdepth. fold (dict_depth d0) in Hdepth.
      constructor; [split; [reflexivity|exact Hv']|].
      eapply repd_hold; [exact Hd| |lia]. intros l Hl. apply Hh2. lia.
    + cbn [dict_depth foldr snd] in Hdepth.
      fold (dict_depth (dict_set k j' d0)) in Hdepth.
      constructor.
      * split; [reflexivity|]. cbn [fst snd].
        eapply rep_hold; [exact Hv| |lia]. intros l Hl. apply Hh2. lia.
      * apply IH; [|exact Hv'|lia]. intros l Hl. apply Hh2. lia.
Qed.

(** A member of a dictionary of the store and the member of the tree it
    holds; the tree of the dictionary after the object of that member has
    changed. *)
Lemma repd_get (h : store) (lo hi : nat) (kvs : dict value) (dj : dict json)
    (k : list N) :
  repd h lo hi kvs dj ->
  match dict_get k kvs with
  | None => dict_get k dj = None
  | Some v =>
      exists j lo' hi',
        dict_get k dj = Some j /\ rep h lo' hi' v j
        /\ (lo <= lo')%nat /\ (hi' <= hi)%nat
        /\ forall h2 depth j',
             (forall l, (lo <= l < hi)%nat -> ~ (lo' <= l < hi')%nat ->
                        h2 !! l = h !! l) ->
             tree depth h2 v = Ok j' ->
             (dict_depth (dict_set k j' dj) <= depth)%nat ->
             members_hold depth h2 kvs (dict_set k j' dj)
  end.
Proof.
  induction 1 as [lo0|lo0 mid hi0 k0 v0 j0 kvs0 d0 Hv Hd IH]; [reflexivity|].
  pose proof (proj1 (rep_le h) _ _ _ _ Hv) as Hle1.
  pose proof (proj2 (proj2 (rep_le h)) _ _ _ _ Hd) as Hle2.
  cbn [dict_get]. destruct (decide (k = k0)) as [->|Hne].
  - exists j0, lo0, mid. split; [reflexivity|]. split; [exact Hv|].
    split; [lia|]. split; [lia|].
    intros h2 depth j' Hh2 Hv' Hdepth. cbn [dict_set] in *.
    rewrite decide_True in * by reflexivity.
    cbn [dict_depth foldr snd] in Hdepth. fold (dict_depth d0) in Hdepth.
    constructor; [split; [reflexivity|exact Hv']|].
    eapply repd_hold; [exact Hd| |lia]. intros l Hl. apply Hh2; lia.
  - destruct (dict_get k kvs0) as [v|]; [|exact IH].
    destruct IH as (j & lo' & hi' & Hj & Hr & Hlo & Hhi & Hupd).
    exists j, lo', hi'. split; [exact Hj|]. split; [exact Hr|].
    split; [lia|]. split; [lia|].
    intros h2 depth j' Hh2 Hv' Hdepth. cbn [dict_set] in *.
    rewrite decide_False in * by exact Hne.
    cbn [dict_depth foldr snd] in Hdepth.
    fold (dict_depth (dict_set k j' d0)) in Hdepth.
    constructor.
    + split; [reflexivity|]. cbn [fst snd].
      eapply rep_hold; [exact Hv| |lia]. intros l Hl. apply Hh2; lia.
    + apply Hupd; [|exact Hv'|lia]. intros l Hl Hn. apply Hh2; lia.
Qed.

Lemma bind_Ok {A B} (m : M A) (f : A -> M B) (h h' : store) (b : B) :
  bind m f h = (Ok b, h') ->
  exists a h1, m h = (Ok a, h1) /\ f a h1 = (Ok b, h').
Proof.
  unfold bind. destruct (m h) as [[a|e] h1]; [eauto|discriminate].
Qed.

Lemma bind_run {A B} (m : M A) (f : A -> M B) (h h1 : store) (a : A) :
  m h = (Ok a, h1) -> bind m f h = f a h1.
Proof. intros H. unfold bind. rewrite H. reflexivity. Qed.

Lemma read_dict_Ok (v : value) (h h' : store) (d : dict value) :
  read_dict v h = (Ok d, h') ->
  exists l, v = VRef l /\ h !! l = Some (ODict d) /\ h' = h.
Proof.
  unfold read_dict. destruct v as [| | | |l]; try discriminate.
  destruct (h !! l) as [[vs|d0]|] eqn:Hl; try discriminate.
  intros [= <- <-]. exists l. repeat split. exact Hl.
Qed.

Lemma write_dict_Ok (v : value) (d : dict value) (h h' : store) (x : unit) :
  write_dict v d h = (Ok x, h') ->
  exists l d0, v = VRef l /\ h !! l = Some (ODict d0)
               /\ h' = <[l := ODict d]> h.
Proof.
  unfold write_dict. destruct v as [| | | |l]; try discriminate.
  destruct (h !! l) as [[vs|d0]|] eqn:Hl; try discriminate.
  intros H. inversion H; subst. exists l, d0. repeat split. exact Hl.
Qed.

Lemma tree_str (d : nat) (h : store) (s : list N) :
  tree d h (VStr s) = Ok (JStr s).
Proof. destruct d; reflexivity. Qed.

Section GeoJSONCopy.

Variable py_repr : store -> value -> str.

(** The text stored for a member of the properties, read on the tree. *)
Lemma annotation_of_store (h : store) (lo hi : nat) (pkv : dict value)
    (pd : dict json) (key : list N) :
  repd h lo hi pkv pd ->
  annotation_of key pd
    (norm_str (arg_of py_repr h (default (VStr []) (dict_get key pkv)))).
Proof.
  intros Hpd. pose proof (repd_get h lo hi pkv pd key Hpd) as Hk.
  destruct (dict_get key pkv) as [vk|].
  - destruct Hk as (jk & lo' & hi' & Hjk & Hrk & _). split.
    + intros s Hs. rewrite Hjk in Hs. injection Hs as ->.
      inversion Hrk; subst. reflexivity.
    + intros [Hn|Hn]; rewrite Hjk in Hn; [discriminate|].
      injection Hn as ->. inversion Hrk; subst. reflexivity.
  - split.
    + intros s Hs. rewrite Hk in Hs. discriminate.
    + intros _. reflexivity.
Qed.

(** One turn of the loop on a feature of the copy: the feature holds the
    annotated tree, and nothing moves outside of the feature. *)
Lemma annotate_step (key : list N) (feat : value) (f : json) (lo hi : nat)
    (h h' : store) (x : unit) :
  rep h lo hi feat f -> (hi <= length h)%nat ->
  annotate py_repr key feat h = (Ok x, h') ->
  exists f',
    annotated_feature key f f'
    /\ (length h <= length h')%nat
    /\ (forall l, (l < length h)%nat -> ~ (lo <= l < hi)%nat ->
                  h' !! l = h !! l)
    /\ forall h2,
         (forall l, (lo <= l < hi)%nat \/ (length h <= l < length h')%nat ->
                    h2 !! l = h' !! l) ->
         forall d, (json_depth f' <= d)%nat -> tree d h2 feat = Ok f'.
Proof.
  intros Hrep Hhi Hrun. unfold annotate in Hrun.
  apply bind_Ok in Hrun as (fkv & h1 & Hread & Hrun).
  apply read_dict_Ok in Hread as (a & -> & Ha & ->).
  inversion Hrep as [ | | | |lo0 l vs js Hvs Hl|lo0 l kvs fd Hfd Hl]; subst;
    rewrite Ha in Hl; [discriminate|]. injection Hl as <-.
  pose proof (proj2 (proj2 (rep_le h)) _ _ _ _ Hfd) as Hlea.
  pose proof (lookup_lt_Some _ _ _ Ha) as Halt.
  apply bind_Ok in Hrun as (props & h2 & Hprops & Hrun).
  pose proof (repd_get h lo a fkv fd (u "properties") Hfd) as Hget.
  destruct (dict_get (u "properties") fkv) as [vp|] eqn:Hp.
  - (* the feature has properties *)
    unfold ret in Hprops. injection Hprops as <- <-.
    destruct Hget as (jp & lo' & hi' & Hjp & Hrp & Hlo' & Hhi' & Hupd).
    apply bind_Ok in Hrun as (pkv & h3 & Hread & Hrun).
    apply read_dict_Ok in Hread as (p & -> & Hpl & ->).
    inversion Hrp as [ | | | |lo0 l vs js Hvs Hl|lo0 l kvs pd Hpd Hl]; subst;
      rewrite Hpl in Hl; [discriminate|]. injection Hl as <-.
    pose proof (proj2 (proj2 (rep_le h)) _ _ _ _ Hpd) as Hlep.
    apply bind_Ok in Hrun as (t & h4 & Hnorm & Hrun).
    unfold norm_value in Hnorm. injection Hnorm as <- <-.
    apply write_dict_Ok in Hrun as (p' & d0 & [= <-] & _ & ->).
    pose proof (annotation_of_store h lo' p pkv pd key Hpd) as Hann.
    set (t := norm_str _) in *.
    assert (Hprops : properties_of fd = pd)
      by (unfold properties_of; rewrite Hjp; reflexivity).
    exists (JObj (dict_set (u "properties")
                   (JObj (dict_set (u "region_norm") (JStr t) pd)) fd)).
    split; [exists fd, t; rewrite Hprops; repeat split; apply Hann|].
    split; [rewrite length_insert; lia|].
    split; [intros l Hl Hn; apply list_lookup_insert_ne; lia|].
    intros h2 Hagree d Hd. rewrite json_depth_obj in Hd.
    destruct d as [|d1]; [lia|]. cbn [tree].
    assert (Ha2 : h2 !! a = Some (ODict fkv)).
    { rewrite Hagree by lia. rewrite list_lookup_insert_ne by lia. exact Ha. }
    rewrite Ha2. erewrite members_hold_tree; [reflexivity|].
    apply Hupd; [| |lia].
    + intros l Hl Hn. rewrite Hagree by lia.
      rewrite list_lookup_insert_ne by lia. reflexivity.
    + pose proof (dict_get_depth _ _ _
        (dict_get_set_eq (u "properties")
           (JObj (dict_set (u "region_norm") (JStr t) pd)) fd)) as Hdp.
      rewrite json_depth_obj in Hdp.
      destruct d1 as [|d2]; [lia|]. cbn [tree].
      rewrite Hagree by lia. rewrite list_lookup_insert_eq by lia.
      erewrite members_hold_tree; [reflexivity|].
      apply (repd_set h h2 lo' p); [exact Hpd| |apply tree_str|lia].
      intros l Hl. rewrite Hagree by lia.
      rewrite list_lookup_insert_ne by lia. reflexivity.
  - (* the feature has none: [setdefault] makes them *)
    apply bind_Ok in Hprops as (p0 & h3 & Halloc & Hprops).
    unfold alloc in Halloc. injection Halloc as <- <-.
    apply bind_Ok in Hprops as (y & h4 & Hwrite & Hprops).
    apply write_dict_Ok in Hwrite as (a' & d0 & [= <-] & _ & ->).
    unfold ret in Hprops. injection Hprops as <- <-.
    apply bind_Ok in Hrun as (pkv & h5 & Hread & Hrun).
    apply read_dict_Ok in Hread as (p & [= <-] & Hpl & ->).
    rewrite list_lookup_insert_ne in Hpl by lia.
    rewrite list_lookup_middle in Hpl by reflexivity. injection Hpl as <-.
    apply bind_Ok in Hrun as (t & h6 & Hnorm & Hrun).
    unfold norm_value in Hnorm. injection Hnorm as <- <-.
    apply write_dict_Ok in Hrun as (p' & d1 & [= <-] & _ & ->).
    cbn [dict_get default dict_set arg_of] in *.
    change (norm_str (AStr [])) with (@nil N) in *.
    assert (Hprops : properties_of fd = [])
      by (unfold properties_of; rewrite Hget; reflexivity).
    exists (JObj (dict_set (u "properties")
                   (JObj [(u "region_norm", JStr [])]) fd)).
    split.
    { exists fd, []. rewrite Hprops. repeat split. intros s Hs. discriminate Hs. }
    split; [rewrite !length_insert, length_app; lia|].
    split.
    { intros l Hl Hn. rewrite !list_lookup_insert_ne by lia.
      apply lookup_app_l. lia. }
    rewrite !length_insert, length_app. cbn [length].
    intros h2 Hagree d Hd. rewrite json_depth_obj in Hd.
    destruct d as [|d1']; [lia|]. cbn [tree].
    rewrite Hagree by lia. rewrite list_lookup_insert_ne by lia.
    rewrite list_lookup_insert_eq by (rewrite length_app; lia).
    erewrite members_hold_tree; [reflexivity|].
    apply (repd_set h h2 lo a); [exact Hfd| | |lia].
    + intros l Hl. rewrite Hagree by lia.
      rewrite !list_lookup_insert_ne by lia. apply lookup_app_l. lia.
    + pose proof (dict_get_depth _ _ _
        (dict_get_set_eq (u "properties")
           (JObj [(u "region_norm", JStr [])]) fd)) as Hdp.
      rewrite json_depth_obj in Hdp.
      destruct d1' as [|d2]; [lia|]. cbn [tree].
      rewrite Hagree by lia.
      rewrite list_lookup_insert_eq by (rewrite length_insert, length_app; cbn; lia).
      cbn. rewrite tree_str. reflexivity.
Qed.

(** The body of the loop returns on a plain feature of the copy. *)
Lemma annotate_returns (key : list N) (feat : value) (f : json) (lo hi : nat)
    (h : store) :
  rep h lo hi feat f -> plain_feature f = true ->
  exists h', annotate py_repr key feat h = (Ok (), h').
Proof.
  intros Hrep Hplain. destruct f as [| | | | |fd]; try discriminate Hplain.
  inversion Hrep as [ | | | | |lo0 a fkv fd0 Hfd Ha]; subst.
  pose proof (repd_get h lo a fkv fd (u "properties") Hfd) as Hget.
  pose proof (lookup_lt_Some _ _ _ Ha) as Halt.
  unfold annotate.
  rewrite (bind_run _ _ h h fkv) by (cbn [read_dict]; rewrite Ha; reflexivity).
  cbn [plain_feature] in Hplain.
  destruct (dict_get (u "properties") fkv) as [vp|] eqn:Hp.
  - destruct Hget as (jp & lo' & hi' & Hjp & Hrp & _).
    rewrite Hjp in Hplain.
    destruct jp as [| | | | |pd]; try discriminate Hplain.
    inversion Hrp as [ | | | | |lo0 p pkv pd0 Hpd Hpl]; subst.
    rewrite (bind_run _ _ h h (VRef p)) by reflexivity.
    rewrite (bind_run _ _ h h pkv) by (cbn [read_dict]; rewrite Hpl; reflexivity).
    erewrite (bind_run (norm_value py_repr _));
      [|unfold norm_value; reflexivity].
    cbn [write_dict]. rewrite Hpl. eexists; reflexivity.
  - set (h1 := h ++ [ODict []]).
    assert (Ha1 : h1 !! a = Some (ODict fkv)) by (apply lookup_app_l_Some, Ha).
    set (h2 := <[a := ODict (dict_set (u "properties") (VRef (length h)) fkv)]> h1).
    assert (Hp2 : h2 !! length h = Some (ODict [])).
    { unfold h2. rewrite list_lookup_insert_ne by lia.
      apply list_lookup_middle. reflexivity. }
    rewrite (bind_run _ _ h h2 (VRef (length h))).
    2:{ rewrite (bind_run _ _ h h1 (VRef (length h))) by reflexivity.
        rewrite (bind_run _ _ h1 h2 ())
          by (cbn [write_dict]; rewrite Ha1; reflexivity).
        reflexivity. }
    rewrite (bind_run _ _ h2 h2 [])
      by (cbn [read_dict]; rewrite Hp2; reflexivity).
    erewrite (bind_run (norm_value py_repr _));
      [|unfold norm_value; reflexivity].
    cbn [write_dict]. rewrite Hp2. eexists; reflexivity.
Qed.

End GeoJSONCopy.

Section GeoJSONAnnotation.

Variable py_repr : store -> value -> str.

(** The loop on the features of the copy. *)
Lemma for_each_annotate (key : list N) (vs : list value) (fs : list json)
    (lo hi : nat) (h : store) :
  reps h lo hi vs fs ->
  forall h' x, (hi <= length h)%nat ->
  for_each (annotate py_repr key) vs h = (Ok x, h') ->
  exists fs',
    Forall2 (annotated_feature key) fs fs'
    /\ (length h <= length h')%nat
    /\ (forall l, (l < length h)%nat -> ~ (lo <= l < hi)%nat ->
                  h' !! l = h !! l)
    /\ forall h2,
         (forall l, (lo <= l < hi)%nat \/ (length h <= l < length h')%nat ->
                    h2 !! l = h' !! l) ->
         forall d, (list_depth fs' <= d)%nat ->
           Forall2 (fun v j => tree d h2 v = Ok j) vs fs'.
Proof.
  intros Hreps. revert Hreps. revert lo hi fs h.
  induction vs as [|v vs IH]; intros lo hi fs h Hreps h' x Hhi Hrun;
    inversion Hreps as [|lo0 mid hi0 v0 j vs0 js Hv Hvs]; subst.
  - cbn in Hrun. inversion Hrun; subst. exists []. split; [constructor|].
    split; [lia|]. split; [reflexivity|]. intros. constructor.
  - cbn [for_each] in Hrun.
    apply bind_Ok in Hrun as (y & h1 & Hstep & Hrun).
    pose proof (proj1 (rep_le h) _ _ _ _ Hv) as Hle1.
    pose proof (proj1 (proj2 (rep_le h)) _ _ _ _ Hvs) as Hle2.
    destruct (annotate_step py_repr key v j lo mid h h1 y Hv ltac:(lia) Hstep)
      as (f' & Hf' & Hlen1 & Hframe1 & Hhold1).
    assert (Hvs1 : reps h1 mid hi vs js).
    { apply (proj1 (proj2 (rep_frame h)) _ _ _ _ Hvs).
      intros l Hl. apply Hframe1; lia. }
    destruct (IH mid hi js h1 Hvs1 h' x ltac:(lia) Hrun)
      as (fs' & Hfs' & Hlen2 & Hframe2 & Hhold2).
    exists (f' :: fs'). split; [constructor; assumption|].
    split; [lia|]. split.
    { intros l Hl Hn. rewrite Hframe2 by lia. apply Hframe1; lia. }
    intros h2 Hagree d Hd. cbn [list_depth foldr] in Hd.
    fold (list_depth fs') in Hd. constructor.
    + apply Hhold1; [|lia]. intros l Hl. rewrite Hagree by lia.
      apply Hframe2; lia.
    + apply Hhold2; [|lia]. intros l Hl. apply Hagree. lia.
Qed.

(** Text has no method [setdefault]: a loop that ends on items that are
    text has visited none. *)
Lemma for_each_annotate_text (key : list N) (vs : list value)
    (h h' : store) (x : unit) :
  Forall (fun v => exists s, v = VStr s) vs ->
  for_each (annotate py_repr key) vs h = (Ok x, h') -> vs = [] /\ h' = h.
Proof.
  intros Hvs Hrun. destruct Hvs as [|v vs (s & ->) _].
  - cbn in Hrun. inversion Hrun; subst. split; reflexivity.
  - cbn [for_each] in Hrun. apply bind_Ok in Hrun as (y & h1 & Hstep & _).
    unfold annotate in Hstep. apply bind_Ok in Hstep as (d & h2 & Hread & _).
    discriminate Hread.
Qed.

(** The run of [geojson_with_norm_names], on trees: the collection
    returned is the tree of the argument with every feature annotated,
    the list of the features being the only member that is written. *)
Lemma geojson_with_norm_names_run (geojson gj : value) (key : list N)
    (h h' : store) :
  geojson_with_norm_names py_repr geojson h = (Ok (gj, key), h') ->
  exists top top',
    (json_dumps geojson h).1 = Ok (JObj top)
    /\ guess_geojson_region_key (JObj top) = Ok key
    /\ (forall d, (json_depth (JObj top') <= d)%nat ->
                  tree d h' gj = Ok (JObj top'))
    /\ (forall k, k <> u "features" -> dict_get k top' = dict_get k top)
    /\ Forall2 (annotated_feature key) (features_of top) (features_of top')
    /\ ((features_of top = [] /\ top' = top)
        \/ exists fs', top' = dict_set (u "features") (JArr fs') top).
Proof.
  intros Hrun. unfold geojson_with_norm_names in Hrun.
  apply bind_Ok in Hrun as (j & h1 & Hdump & Hrun).
  unfold json_dumps in Hdump at 1. injection Hdump as Hj <-.
  apply bind_Ok in Hrun as (gj0 & h1 & Hload & Hrun).
  unfold json_loads in Hload. destruct (loads j h) as [v0 h0] eqn:Hl.
  injection Hload as -> ->.
  pose proof (json_loads_dumps j h gj0 h1 Hl) as Hback.
  destruct (loads_rep j h gj0 h1 Hl) as [Hrep _].
  apply bind_Ok in Hrun as (t & h2 & Hdump & Hrun).
  unfold json_dumps in Hdump, Hback. cbn [fst] in Hback.
  rewrite Hback in Hdump. injection Hdump as <- <-.
  apply bind_Ok in Hrun as (key0 & h2 & Hguess & Hrun).
  unfold lift in Hguess. injection Hguess as Hguess <-.
  apply bind_Ok in Hrun as (topkv & h2 & Hread & Hrun).
  apply read_dict_Ok in Hread as (r & -> & Hr & ->).
  inversion Hrep as [ | | | |lo0 l vs js Hvs Hl'|lo0 l kvs top Htop Hl' Hlo Hhi];
    subst; rewrite Hr in Hl'; [discriminate|]. injection Hl' as <-.
  pose proof (proj2 (proj2 (rep_le h1)) _ _ _ _ Htop) as Hler.
  apply bind_Ok in Hrun as (feats & h2 & Hitems & Hrun).
  apply bind_Ok in Hrun as (y & h3 & Hloop & Hrun).
  unfold ret in Hrun. injection Hrun as <- -> ->.
  exists top.
  (* the collection as it stands when the loop has visited nothing *)
  assert (Hnone : features_of top = [] -> h' = h1 ->
    exists top',
      (json_dumps geojson h).1 = Ok (JObj top)
      /\ guess_geojson_region_key (JObj top) = Ok key
      /\ (forall d, (json_depth (JObj top') <= d)%nat ->
                    tree d h' (VRef r) = Ok (JObj top'))
      /\ (forall k, k <> u "features" -> dict_get k top' = dict_get k top)
      /\ Forall2 (annotated_feature key) (features_of top) (features_of top')
      /\ ((features_of top = [] /\ top' = top)
          \/ exists fs', top' = dict_set (u "features") (JArr fs') top)).
  { intros Hfs ->. exists top. split; [exact Hj|]. split; [exact Hguess|].
    split; [intros d Hd; apply (proj1 (rep_tree h1) _ _ _ _ Hrep d Hd)|].
    split; [reflexivity|]. split; [rewrite Hfs; constructor|].
    left. split; [exact Hfs|reflexivity]. }
  pose proof (repd_get h1 (length h) r topkv top (u "features") Htop) as Hget.
  destruct (dict_get (u "features") topkv) as [fv|] eqn:Hfv.
  - destruct Hget as (jf & lo' & hi' & Hjf & Hrf & Hlo' & Hhi' & Hupd).
    unfold items_of in Hitems.
    inversion Hrf as [ | | |lo0 s|lo0 l vs fs Hvs Hl'|lo0 l kvs fd Hfd Hl'];
      subst; try discriminate Hitems.
    + (* "features" is a text *)
      injection Hitems as <- <-.
      match type of Hloop with for_each _ ?l _ = _ =>
        assert (Htext : Forall (fun v => exists s, v = VStr s) l)
      end.
      { apply Forall_forall. intros v Hv.
        apply list_elem_of_In, in_map_iff in Hv as (c & <- & _). eauto. }
      destruct (for_each_annotate_text key _ h1 h' y Htext Hloop) as [_ ->].
      apply Hnone; [|reflexivity]. unfold features_of. rewrite Hjf. reflexivity.
    + (* "features" is a list *)
      rewrite Hl' in Hitems. injection Hitems as <- <-.
      pose proof (proj1 (proj2 (rep_le h1)) _ _ _ _ Hvs) as Hlel.
      pose proof (lookup_lt_Some _ _ _ Hr) as Hrlt.
      destruct (for_each_annotate key vs fs lo' l h1 Hvs h' y ltac:(lia) Hloop)
        as (fs' & Hfs' & Hlen & Hframe & Hhold).
      exists (dict_set (u "features") (JArr fs') top).
      split; [exact Hj|]. split; [exact Hguess|]. split; [|split; [|split]].
      * intros d Hd. rewrite json_depth_obj in Hd.
        destruct d as [|d1]; [lia|]. cbn [tree].
        rewrite Hframe by lia. rewrite Hr.
        erewrite members_hold_tree; [reflexivity|].
        apply Hupd; [| |lia].
        -- intros l0 Hl0 Hn. apply Hframe; lia.
        -- pose proof (dict_get_depth _ _ _
             (dict_get_set_eq (u "features") (JArr fs') top)) as Hdp.
           rewrite json_depth_arr in Hdp.
           destruct d1 as [|d2]; [lia|]. cbn [tree].
           rewrite Hframe by lia. rewrite Hl'.
           erewrite mapM_Forall2; [reflexivity|].
           apply Hhold; [reflexivity|lia].
      * intros k Hk. apply dict_get_set_ne. exact Hk.
      * unfold features_of. rewrite dict_get_set_eq, Hjf. exact Hfs'.
      * right. eauto.
    + (* "features" is a dictionary *)
      rewrite Hl' in Hitems. injection Hitems as <- <-.
      match type of Hloop with for_each _ ?l _ = _ =>
        assert (Htext : Forall (fun v => exists s, v = VStr s) l)
      end.
      { apply Forall_forall. intros v Hv.
        apply list_elem_of_In, in_map_iff in Hv as (c & <- & _). eauto. }
      destruct (for_each_annotate_text key _ h1 h' y Htext Hloop) as [_ ->].
      apply Hnone; [|reflexivity]. unfold features_of. rewrite Hjf. reflexivity.
  - unfold ret in Hitems. injection Hitems as <- <-.
    cbn in Hloop. inversion Hloop; subst.
    apply Hnone; [|reflexivity]. unfold features_of. rewrite Hget. reflexivity.
Qed.

(** The same, without the shape of the collection returned. *)
Lemma geojson_with_norm_names_tree (geojson gj : value) (key : list N)
    (h h' : store) :
  geojson_with_norm_names py_repr geojson h = (Ok (gj, key), h') ->
  exists top top',
    (json_dumps geojson h).1 = Ok (JObj top)
    /\ guess_geojson_region_key (JObj top) = Ok key
    /\ (forall d, (json_depth (JObj top') <= d)%nat ->
                  tree d h' gj = Ok (JObj top'))
    /\ (forall k, k <> u "features" -> dict_get k top' = dict_get k top)
    /\ Forall2 (annotated_feature key) (features_of top) (features_of top').
Proof.
  intros Hrun.
  destruct (geojson_with_norm_names_run geojson gj key h h' Hrun)
    as (top & top' & H1 & H2 & H3 & H4 & H5 & _).
  exists top, top'. repeat (split; [assumption|]). assumption.
Qed.

(** The loop returns on plain features of the copy. *)
Lemma for_each_annotate_returns (key : list N) (vs : list value)
    (fs : list json) (lo hi : nat) (h : store) :
  reps h lo hi vs fs -> (hi <= length h)%nat ->
  forallb plain_feature fs = true ->
  exists h', for_each (annotate py_repr key) vs h = (Ok (), h').
Proof.
  intros Hreps. revert lo hi fs h Hreps.
  induction vs as [|v vs IH]; intros lo hi fs h Hreps Hhi Hplain;
    inversion Hreps as [|lo0 mid hi0 v0 j vs0 js Hv Hvs]; subst.
  - eexists; reflexivity.
  - cbn [forallb] in Hplain. apply andb_prop in Hplain as [Hj Hjs].
    pose proof (proj1 (rep_le h) _ _ _ _ Hv) as Hle1.
    pose proof (proj1 (proj2 (rep_le h)) _ _ _ _ Hvs) as Hle2.
    destruct (annotate_returns py_repr key v j lo mid h Hv Hj) as (h1 & Hstep).
    destruct (annotate_step py_repr key v j lo mid h h1 () Hv ltac:(lia) Hstep)
      as (f' & _ & Hlen1 & Hframe1 & _).
    assert (Hvs1 : reps h1 mid hi vs js).
    { apply (proj1 (proj2 (rep_frame h)) _ _ _ _ Hvs).
      intros l Hl. apply Hframe1; lia. }
    destruct (IH mid hi js h1 Hvs1 ltac:(lia) Hjs) as (h' & Hrun).
    exists h'. cbn [for_each]. rewrite (bind_run _ _ h h1 () Hstep). exact Hrun.
Qed.

(** [geojson_with_norm_names] returns on every value that holds a plain
    collection. *)
Lemma geojson_with_norm_names_returns (geojson : value) (h : store)
    (d : nat) (j : json) :
  tree d h geojson = Ok j -> feature_collection j = true ->
  exists gj key h',
    geojson_with_norm_names py_repr geojson h = (Ok (gj, key), h').
Proof.
  intros Hj Hcoll.
  destruct (guess_geojson_region_key_returns j Hcoll) as (key & Hkey).
  destruct (loads j h) as [gj h1] eqn:Hl.
  pose proof (json_loads_dumps j h gj h1 Hl) as Hback.
  destruct (loads_rep j h gj h1 Hl) as [Hrep _].
  unfold geojson_with_norm_names.
  rewrite (bind_run _ _ h h j (json_dumps_total h geojson j d Hj)).
  rewrite (bind_run _ _ h h1 gj) by (unfold json_loads; rewrite Hl; reflexivity).
  rewrite (bind_run _ _ h1 h1 j)
    by (unfold json_dumps in *; cbn [fst] in Hback; rewrite Hback; reflexivity).
  rewrite (bind_run _ _ h1 h1 key)
    by (unfold lift; rewrite Hkey; reflexivity).
  destruct j as [| | | | |top]; try discriminate Hcoll.
  cbn [feature_collection] in Hcoll.
  destruct (dict_get (u "features") top) as [[| | | |fs|]|] eqn:Hf;
    try discriminate Hcoll.
  inversion Hrep as [ | | | | |lo0 r topkv top0 Htop Hr]; subst.
  pose proof (proj2 (proj2 (rep_le h1)) _ _ _ _ Htop) as Hler.
  pose proof (lookup_lt_Some _ _ _ Hr) as Hrlt.
  rewrite (bind_run _ _ h1 h1 topkv)
    by (cbn [read_dict]; rewrite Hr; reflexivity).
  pose proof (repd_get h1 (length h) r topkv top (u "features") Htop) as Hget.
  destruct (dict_get (u "features") topkv) as [fv|] eqn:Hfv.
  - destruct Hget as (jf & lo' & hi' & Hjf & Hrf & Hlo' & Hhi' & _).
    rewrite Hf in Hjf. injection Hjf as <-.
    inversion Hrf as [ | | | |lo0 l vs fs0 Hvs Hl'|]; subst.
    rewrite (bind_run _ _ h1 h1 vs)
      by (cbn [items_of]; rewrite Hl'; reflexivity).
    destruct (for_each_annotate_returns key vs fs lo' l h1 Hvs ltac:(lia) Hcoll)
      as (h' & Hloop).
    rewrite (bind_run _ _ h1 h' () Hloop). eexists _, _, _. reflexivity.
  - rewrite Hf in Hget. discriminate Hget.
Qed.

End GeoJSONAnnotation.

Lemma annotated_feature_only (key : list N) (f f' : json) :
  annotated_feature key f f' -> annotation_only key f f'.
Proof.
  intros (fd & t & -> & -> & Hann).
  set (pd' := dict_set (u "region_norm") (JStr t) (properties_of fd)).
  assert (Hprops : properties_of (dict_set (u "properties") (JObj pd') fd) = pd')
    by (unfold properties_of at 1; rewrite dict_get_set_eq; reflexivity).
  exists fd, (dict_set (u "properties") (JObj pd') fd), t.
  split; [reflexivity|]. split; [reflexivity|]. split.
  { intros k Hk. apply dict_get_set_ne, Hk. }
  rewrite Hprops. split; [apply dict_get_set_eq|]. split; [|exact Hann].
  intros k Hk. apply dict_get_set_ne, Hk.
Qed.

(** C5 (as stated, refuted): the name that receives the annotation is the
    fixed name ["region_norm"].  The first feature of the sample has a
    property of that name, with the value ["X"]; in the collection
    returned the value is the normalised name. *)
Lemma geojson_with_norm_names_overwrites :
  exists gj key h' j j',
    geojson_with_norm_names sample_repr (VRef 4%nat) sample_store
      = (Ok (gj, key), h')
    /\ (json_dumps (VRef 4%nat) sample_store).1 = Ok j
    /\ (json_dumps gj h').1 = Ok j'
    /\ property_of_feature 0 (u "region_norm") j = Some (JStr (u "X"))
    /\ property_of_feature 0 (u "region_norm") j'
       = Some (JStr (u "ile-de-france")).
Proof.
  eexists _, _, _, _, _.
  split; [vm_compute; reflexivity|].
  split; [vm_compute; reflexivity|].
  split; [vm_compute; reflexivity|].
  split; vm_compute; reflexivity.
Qed.

(** C5 (amended): on every value that holds a feature collection whose
    features are objects, with properties that are an object or absent,
    [geojson_with_norm_names] returns, and the collection returned is the
    tree of the argument in which every feature has, in its properties,
    the normalised form of the value found at the detected key under the
    fixed name ["region_norm"]: the normalised text when the value is a
    text, the empty text when it is absent or [null].  Every other
    property of every feature, every other member of a feature and every
    other member of the collection is the same.  A property that was
    already named ["region_norm"] gets the new value. *)
Theorem geojson_with_norm_names_annotation
    (py_repr : store -> value -> str) (geojson : value) (h : store)
    (d : nat) (top : dict json) :
  tree d h geojson = Ok (JObj top) ->
  feature_collection (JObj top) = true ->
  exists gj key h' top',
    geojson_with_norm_names py_repr geojson h = (Ok (gj, key), h')
    /\ guess_geojson_region_key (JObj top) = Ok key
    /\ (forall d', (json_depth (JObj top') <= d')%nat ->
                   tree d' h' gj = Ok (JObj top'))
    /\ (forall k, k <> u "features" -> dict_get k top' = dict_get k top)
    /\ Forall2 (annotation_only key) (features_of top) (features_of top').
Proof.
  intros Hj Hcoll.
  destruct (geojson_with_norm_names_returns py_repr geojson h d _ Hj Hcoll)
    as (gj & key & h' & Hrun).
  destruct (geojson_with_norm_names_tree py_repr geojson gj key h h' Hrun)
    as (top0 & top' & Hj0 & Hkey & Htree & Hother & Hfeat).
  rewrite (json_dumps_total h geojson _ d Hj) in Hj0. injection Hj0 as <-.
  exists gj, key, h', top'. repeat (split; [assumption|]).
  eapply Forall2_impl; [exact Hfeat|]. apply annotated_feature_only.
Qed.

Lemma geojson_with_norm_names_annotation_witness :
  tree 5 sample_store (VRef 4%nat) = Ok (JObj sample_members)
  /\ feature_collection (JObj sample_members) = true
  /\ exists gj key h' top',
       geojson_with_norm_names sample_repr (VRef 4%nat) sample_store
         = (Ok (gj, key), h')
       /\ guess_geojson_region_key (JObj sample_members) = Ok key
       /\ (forall d', (json_depth (JObj top') <= d')%nat ->
                      tree d' h' gj = Ok (JObj top'))
       /\ (forall k, k <> u "features" ->
                     dict_get k top' = dict_get k sample_members)
       /\ Forall2 (annotation_only key)
                  (features_of sample_members) (features_of top').
Proof.
  split; [vm_compute; reflexivity|]. split; [vm_compute; reflexivity|].
  apply (geojson_with_norm_names_annotation
           sample_repr (VRef 4%nat) sample_store 5 sample_members);
    vm_compute; reflexivity.
Defined.

(** * Part III: further properties *)

(** ** The normaliser, word by word *)

(** X1: whatever the argument, the key that [norm_str] returns is a list
    of words, not empty and without whitespace, joined by single spaces:
    it does not begin or end with whitespace, and splitting it gives the
    words back. *)
Theorem norm_str_words (a : arg) :
  exists ws,
    Forall word ws /\ norm_str a = join ws
    /\ split (norm_str a) = ws /\ strip (norm_str a) = norm_str a.
Proof.
  destruct a as [|s|s].
  - exists []. repeat split. constructor.
  - eexists. split; [apply split_words|]. split; [reflexivity|].
    cbn [norm_str py_str]. unfold normalize.
    split; [apply split_join, split_words|apply strip_join, split_words].
  - eexists. split; [apply split_words|]. split; [reflexivity|].
    cbn [norm_str py_str]. unfold normalize.
    split; [apply split_join, split_words|apply strip_join, split_words].
Qed.
























(** ** The normaliser on Latin-1 text *)

Lemma filter_rev_Mn (l : list N) :
  filter not_Mn (rev l) = rev (filter not_Mn l).
Proof.
  induction l as [|c l IH]; [reflexivity|].
  cbn [rev]. rewrite filter_app, IH, filter_cons.
  destruct (decide (Unicode.is_Mn c = false)) as [H|H].
  - rewrite filter_cons_True by exact H. reflexivity.
  - rewrite filter_cons_False by exact H. rewrite app_nil_r. reflexivity.
Qed.

Lemma filter_place (c : N) (out : list N) :
  (Unicode.is_Mn c = false -> Unicode.combining c = 0) ->
  filter not_Mn (Unicode.place c out) = filter not_Mn (c :: out).
Proof.
  intros Hc. induction out as [|p out IH]; [reflexivity|].
  cbn [Unicode.place].
  destruct ((0 <? Unicode.combining c) && (Unicode.combining c <? Unicode.combining p))
    eqn:Hcond; [|reflexivity].
  apply andb_prop in Hcond as [Hpos _]. apply N.ltb_lt in Hpos.
  assert (Hm : Unicode.is_Mn c <> false) by (intros H; specialize (Hc H); lia).
  rewrite (filter_cons_False _ c) by exact Hm.
  rewrite (filter_cons_False _ c) in IH by exact Hm.
  destruct (decide (Unicode.is_Mn p = false)) as [Hp|Hp].
  - rewrite !(filter_cons_True _ p) by exact Hp. rewrite IH. reflexivity.
  - rewrite !(filter_cons_False _ p) by exact Hp. exact IH.
Qed.

Lemma filter_fold_place (s acc : list N) :
  Forall (fun c => Unicode.is_Mn c = false -> Unicode.combining c = 0) s ->
  filter not_Mn (fold_left (fun out c => Unicode.place c out) s acc)
  = rev (filter not_Mn s) ++ filter not_Mn acc.
Proof.
  intros Hs. revert acc. induction Hs as [|c s Hc _ IH]; intros acc; [reflexivity|].
  cbn [fold_left]. rewrite IH, filter_place by exact Hc.
  destruct (decide (Unicode.is_Mn c = false)) as [Hm|Hm].
  - rewrite !(filter_cons_True _ c) by exact Hm.
    cbn [rev]. rewrite <- app_assoc. reflexivity.
  - rewrite !(filter_cons_False _ c) by exact Hm. reflexivity.
Qed.

(** Canonical ordering moves marks only: what is left when the
    nonspacing marks are removed is left in its order. *)
Lemma filter_canonical_order (s : list N) :
  Forall (fun c => Unicode.is_Mn c = false -> Unicode.combining c = 0) s ->
  filter not_Mn (Unicode.canonical_order s) = filter not_Mn s.
Proof.
  intros Hs. unfold Unicode.canonical_order.
  rewrite filter_rev_Mn, filter_fold_place by exact Hs.
  rewrite app_nil_r. apply rev_involutive.
Qed.

Lemma latin1_char (c : N) :
  c < 0x100 ->
  Unicode.lower_cp c < 0x100
  /\ Forall (fun d => Unicode.is_Mn d = false -> Unicode.combining d = 0)
            (Unicode.decomposition (Unicode.lower_cp c))
  /\ filter not_Mn (Unicode.decomposition (Unicode.lower_cp c))
     = [unaccent (Unicode.lower_cp c)].
Proof.
  intros Hc.
  assert (Hall : forallb latin1_check (map N.of_nat (seq 0 256)) = true)
    by (vm_compute; reflexivity).
  pose proof (below_forallb latin1_check 256 Hall c Hc) as H.
  unfold latin1_check in H.
  apply andb_prop in H as [H H3]. apply andb_prop in H as [H1 H2].
  split; [apply N.ltb_lt, H1|]. split.
  - apply Forall_forall. intros d Hd Hm. rewrite forallb_forall in H2.
    specialize (H2 d (proj1 (list_elem_of_In _ _) Hd)). rewrite Hm in H2.
    apply N.eqb_eq, H2.
  - destruct (filter _ _) as [|d [|? ?]]; try discriminate H3.
    apply N.eqb_eq in H3. rewrite H3. reflexivity.
Qed.

Lemma plain_word_latin1 (s : list N) :
  Forall (fun c => c < 0x100) s ->
  plain_word s = map unaccent (lower s).
Proof.
  intros Hs. unfold plain_word, Unicode.nfd.
  rewrite filter_canonical_order.
  - induction Hs as [|c s Hc _ IH]; [reflexivity|].
    cbn [lower map flat_map]. rewrite filter_app.
    destruct (latin1_char c Hc) as (_ & _ & ->). cbn [app]. f_equal. exact IH.
  - induction Hs as [|c s Hc _ IH]; [constructor|].
    cbn [lower map flat_map]. apply Forall_app. split; [|exact IH].
    apply (latin1_char c Hc).
Qed.

(** X3: on a text of Basic Latin and Latin-1 characters the key is the
    stripped text with every character replaced by its lowercase base
    letter, the words joined by single spaces. *)
Theorem norm_str_latin1 (s : list N) :
  Forall (fun c => c < 0x100) s ->
  norm_str (AStr s) = join (split (map unaccent (lower (strip s)))).
Proof.
  intros Hs. cbn [norm_str py_str]. unfold normalize.
  fold (plain_word (strip s)).
  rewrite plain_word_latin1 by (apply strip_Forall, Hs). reflexivity.
Qed.

Lemma norm_str_latin1_witness :
  Forall (fun c => c < 0x100) ile_de_france_upper
  /\ norm_str (AStr ile_de_france_upper)
     = join (split (map unaccent (lower (strip ile_de_france_upper)))).
Proof.
  assert (H : Forall (fun c => c < 0x100) ile_de_france_upper)
    by (repeat constructor).
  split; [exact H|exact (norm_str_latin1 ile_de_france_upper H)].
Defined.

(** ** Key detection: the edges *)

(** X4: for an object that has no ["features"], or an empty list or
    another false value there, key detection returns the default
    ["nom"]. *)
Theorem guess_geojson_region_key_default (top : list (list N * json)) :
  (dict_get (u "features") top = None
   \/ exists v, dict_get (u "features") top = Some v /\ truthy v = false) ->
  guess_geojson_region_key (JObj top) = Ok (u "nom").
Proof.
  intros H. unfold guess_geojson_region_key. cbn [get_method].
  destruct H as [->|(v & -> & Hv)]; cbn [default mbind result_bind].
  - reflexivity.
  - cbn [id]. rewrite Hv. reflexivity.
Qed.

Lemma guess_geojson_region_key_default_witness :
  guess_geojson_region_key
    (JObj [(u "type", JStr (u "FeatureCollection")); (u "features", JArr [])])
  = Ok (u "nom").
Proof.
  apply guess_geojson_region_key_default. right.
  exists (JArr []). split; reflexivity.
Defined.

Lemma dict_get_elem {V} (k : list N) (v : V) (d : list (list N * V)) :
  (k, v) ∈ d -> is_Some (dict_get k d).
Proof.
  induction d as [|[k' v'] d IH]; intros H; [inversion H|].
  cbn [dict_get]. destruct (decide (k = k')); [eauto|].
  apply IH. apply elem_of_cons in H as [[=]|H]; [congruence|exact H].
Qed.

(** X5: when the first feature has properties, the key detected is the
    name of one of them. *)
Theorem guess_geojson_region_key_is_property (geojson : json)
    (p : list (list N * json)) :
  first_feature_properties geojson p -> p <> [] ->
  exists k, guess_geojson_region_key geojson = Ok k /\ is_Some (dict_get k p).
Proof.
  intros Hp Hne. rewrite (guess_geojson_region_key_first geojson p Hp).
  eexists. split; [reflexivity|].
  destruct (List.find _ candidates) as [k|] eqn:Hcand.
  - apply find_some in Hcand as [_ Hk]. apply bool_decide_eq_true in Hk. exact Hk.
  - destruct (List.find (fun kv => is_text kv.2) p) as [[k v]|] eqn:Htext.
    + apply find_some in Htext as [Hin _].
      apply (dict_get_elem k v), list_elem_of_In, Hin.
    + destruct p as [|[k v] p']; [congruence|].
      cbn [dict_get]. rewrite decide_True by reflexivity. eauto.
Qed.

Lemma guess_geojson_region_key_is_property_witness :
  first_feature_properties (one_feature (JObj [(u "code", JNum 5)]))
                           [(u "code", JNum 5)]
  /\ exists k, guess_geojson_region_key (one_feature (JObj [(u "code", JNum 5)]))
               = Ok k
               /\ is_Some (dict_get k [(u "code", JNum 5)]).
Proof.
  assert (H : first_feature_properties (one_feature (JObj [(u "code", JNum 5)]))
                                       [(u "code", JNum 5)]).
  { eexists _, _, _. split; [reflexivity|]. split; [reflexivity|].
    left. reflexivity. }
  split; [exact H|].
  apply (guess_geojson_region_key_is_property _ _ H). discriminate.
Defined.

(** ** The loader and the metrics *)

Section LoaderFurther.

Variable parse_number : str -> option Q.

Lemma load_data_rows (raw : RawFrame) (df : DataFrame) :
  load_data parse_number (Some raw) = Ok df ->
  exists coerced,
    Forall2 (fun x r => coerce_row parse_number (raw_columns raw) x = Ok r)
            (raw_rows raw) coerced
    /\ let kept :=
         if has_column "nombre" (raw_columns raw)
            && has_column "insee_pop" (raw_columns raw)
         then List.filter released coerced else coerced in
       if has_column "nom_region" (raw_columns raw)
       then rows df = map with_norm kept
            /\ columns df
               = (if has_column "nom_region_norm" (raw_columns raw)
                  then raw_columns raw
                  else raw_columns raw ++ ["nom_region_norm"%string])
       else rows df = kept /\ columns df = raw_columns raw.
Proof.
  intros Hdf. unfold load_data in Hdf.
  destruct (mapM _ (raw_rows raw)) as [coerced|e] eqn:Hm; [|discriminate Hdf].
  cbn [mbind result_bind] in Hdf. cbv zeta in Hdf.
  exists coerced. split; [apply mapM_Ok, Hm|]. cbv zeta.
  destruct (has_column "nom_region" (raw_columns raw));
    injection Hdf as <-; split; reflexivity.
Qed.

Lemma coerce_row_fields (cols : list string) (x : RawRow) (r : Row) :
  coerce_row parse_number cols x = Ok r ->
  nom_region r = raw_nom_region x
  /\ nombre r = (if has_column "nombre" cols
                 then to_numeric parse_number (raw_nombre x) else None)
  /\ insee_pop r = (if has_column "insee_pop" cols
                    then to_numeric parse_number (raw_insee_pop x) else None).
Proof.
  unfold coerce_row.
  destruct (if has_column "annee" cols then _ else _) as [a|e];
    cbn [mbind result_bind]; [|discriminate].
  intros [= <-]. repeat split.
Qed.

Lemma load_data_columns (raw : RawFrame) (df : DataFrame) :
  load_data parse_number (Some raw) = Ok df ->
  ("nom_region"%string ∈ raw_columns raw ->
   columns df = if has_column "nom_region_norm" (raw_columns raw)
                then raw_columns raw
                else raw_columns raw ++ ["nom_region_norm"%string])
  /\ ("nom_region"%string ∉ raw_columns raw -> columns df = raw_columns raw).
Proof.
  intros Hdf. destruct (load_data_rows raw df Hdf) as (coerced & _ & Hrows).
  cbv zeta in Hrows. split; intros Hr.
  - replace (has_column "nom_region" (raw_columns raw)) with true in Hrows
      by (symmetry; apply bool_decide_eq_true_2, Hr).
    apply Hrows.
  - replace (has_column "nom_region" (raw_columns raw)) with false in Hrows
      by (symmetry; apply bool_decide_eq_false_2, Hr).
    apply Hrows.
Qed.

Lemma load_data_has_columns (raw : RawFrame) (df : DataFrame) :
  "nom_region"%string ∈ raw_columns raw ->
  load_data parse_number (Some raw) = Ok df ->
  "nom_region_norm"%string ∈ columns df
  /\ (forall c, c ∈ raw_columns raw -> c ∈ columns df).
Proof.
  intros Hc Hdf.
  destruct (load_data_columns raw df Hdf) as [Hcols _]. specialize (Hcols Hc).
  split.
  - rewrite Hcols. unfold has_column.
    destruct (decide ("nom_region_norm"%string ∈ raw_columns raw)) as [H|H].
    + rewrite (bool_decide_eq_true_2 _ H). exact H.
    + rewrite (bool_decide_eq_false_2 _ H). apply elem_of_app. right.
      apply list_elem_of_singleton. reflexivity.
  - intros c Hin. rewrite Hcols.
    destruct (has_column _ _); [exact Hin|]. apply elem_of_app. left. exact Hin.
Qed.

(** X6: when the CSV lacks one of the two measure columns, [load_data]
    drops no row: the rows returned are the rows of the CSV, in order,
    with the coerced measure of the column that is there. *)
Theorem load_data_keeps_rows (raw : RawFrame) (df : DataFrame) :
  ~ ("nombre"%string ∈ raw_columns raw /\ "insee_pop"%string ∈ raw_columns raw) ->
  load_data parse_number (Some raw) = Ok df ->
  Forall2 (fun x r =>
             nom_region r = raw_nom_region x
             /\ nombre r = (if has_column "nombre" (raw_columns raw)
                            then to_numeric parse_number (raw_nombre x)
                            else None)
             /\ insee_pop r = (if has_column "insee_pop" (raw_columns raw)
                               then to_numeric parse_number (raw_insee_pop x)
                               else None))
          (raw_rows raw) (rows df).
Proof.
  intros Hno Hdf. destruct (load_data_rows raw df Hdf) as (coerced & Hco & Hrows).
  cbv zeta in Hrows.
  replace (has_column "nombre" (raw_columns raw)
           && has_column "insee_pop" (raw_columns raw)) with false in Hrows.
  2:{ symmetry. apply andb_false_iff. unfold has_column.
      destruct (decide ("nombre"%string ∈ raw_columns raw)) as [Hn|Hn];
        [|left; apply bool_decide_eq_false_2, Hn].
      right. apply bool_decide_eq_false_2. tauto. }
  assert (Hfields : Forall2 (fun x r =>
             nom_region r = raw_nom_region x
             /\ nombre r = (if has_column "nombre" (raw_columns raw)
                            then to_numeric parse_number (raw_nombre x)
                            else None)
             /\ insee_pop r = (if has_column "insee_pop" (raw_columns raw)
                               then to_numeric parse_number (raw_insee_pop x)
                               else None))
          (raw_rows raw) coerced).
  { eapply Forall2_impl; [exact Hco|]. intros x r. apply coerce_row_fields. }
  destruct (has_column "nom_region" (raw_columns raw));
    destruct Hrows as [-> _]; [|exact Hfields].
  apply Forall2_fmap_r. eapply Forall2_impl; [exact Hfields|].
  intros x r H. exact H.
Qed.

(** X7: when the CSV has the column of the region names, the table that
    [load_data] returns has the column ["nom_region_norm"] and the columns
    of the CSV; in every row the key is [norm_str] of the region name of
    the row, and ["nan"] where the name is missing. *)
Theorem load_data_norm_column (raw : RawFrame) (df : DataFrame) :
  "nom_region"%string ∈ raw_columns raw ->
  load_data parse_number (Some raw) = Ok df ->
  "nom_region_norm"%string ∈ columns df
  /\ (forall c, c ∈ raw_columns raw -> c ∈ columns df)
  /\ (forall r, r ∈ rows df ->
        nom_region_norm r = Some (norm_cell (nom_region r)))
  /\ (forall r, r ∈ rows df -> nom_region r = None ->
        nom_region_norm r = Some (u "nan")).
Proof.
  intros Hc Hdf.
  destruct (load_data_key_by_region parse_number raw df Hc Hdf) as [Hnorm _].
  destruct (load_data_has_columns raw df Hc Hdf) as [Hn Hsub].
  split; [exact Hn|]. split; [exact Hsub|]. split; [exact Hnorm|].
  intros r Hr Hnone. rewrite (Hnorm r Hr), Hnone. reflexivity.
Qed.

Lemma required_missing (df : DataFrame) (c : string) :
  c ∈ required -> c ∉ columns df -> build_region_metrics df = Raise KeyError.
Proof.
  intros Hc Hno. unfold build_region_metrics.
  destruct (List.filter _ required) as [|c' l] eqn:Hf; [|reflexivity].
  exfalso. assert (Hin : In c (List.filter
    (fun c => negb (has_column c (columns df))) required)).
  { apply filter_In. split; [apply list_elem_of_In, Hc|].
    unfold has_column. rewrite (bool_decide_eq_false_2 _ Hno). reflexivity. }
  rewrite Hf in Hin. destruct Hin.
Qed.

(** X8: on a table that [load_data] returns, [build_region_metrics]
    returns when the CSV has the four columns of the region name, the
    year, the count and the population, and raises [KeyError] when it
    lacks one of them. *)
Theorem load_data_build_region_metrics (raw : RawFrame) (df : DataFrame) :
  load_data parse_number (Some raw) = Ok df ->
  ((forall c, c ∈ csv_columns -> c ∈ raw_columns raw) ->
   exists g, build_region_metrics df = Ok g)
  /\ (forall c, c ∈ csv_columns -> c ∉ raw_columns raw ->
      build_region_metrics df = Raise KeyError).
Proof.
  intros Hdf. split.
  - intros Hall.
    assert (Hr : "nom_region"%string ∈ raw_columns raw)
      by (apply Hall, list_elem_of_In; simpl; tauto).
    destruct (load_data_has_columns raw df Hr Hdf) as (Hn & Hsub).
    destruct (build_region_metrics_columns df) as (g & Hg & _); [|eauto].
    intros c Hc. unfold required in Hc.
    repeat (apply elem_of_cons in Hc as [->|Hc];
            [first [exact Hn|apply Hsub, Hall, list_elem_of_In; simpl; tauto]|]).
    inversion Hc.
  - intros c Hc Hno.
    destruct (load_data_columns raw df Hdf) as [Hyes Hnone].
    destruct (decide ("nom_region"%string ∈ raw_columns raw)) as [Hr|Hr].
    + pose proof (Hyes Hr) as Hcols.
      apply (required_missing df c).
      * unfold csv_columns in Hc. unfold required.
        repeat (apply elem_of_cons in Hc as [->|Hc];
                [apply list_elem_of_In; simpl; tauto|]).
        inversion Hc.
      * rewrite Hcols. destruct (has_column _ _); [exact Hno|].
        intros Hin. apply elem_of_app in Hin as [Hin|Hin]; [exact (Hno Hin)|].
        apply list_elem_of_singleton in Hin. subst c.
        unfold csv_columns in Hc.
        repeat (apply elem_of_cons in Hc as [[=]|Hc]). inversion Hc.
    + pose proof (Hnone Hr) as Hcols.
      apply (required_missing df "nom_region").
      * apply list_elem_of_In; simpl; tauto.
      * rewrite Hcols. exact Hr.
Qed.

End LoaderFurther.

Lemma load_data_keeps_rows_witness :
  ~ ("nombre"%string ∈ raw_columns counts_only
     /\ "insee_pop"%string ∈ raw_columns counts_only)
  /\ exists df,
       load_data sample_parse (Some counts_only) = Ok df
       /\ length (rows df) = 2%nat.
Proof.
  assert (Hno : ~ ("nombre"%string ∈ raw_columns counts_only
                   /\ "insee_pop"%string ∈ raw_columns counts_only)).
  { intros [_ H]. apply list_elem_of_In in H. simpl in H.
    destruct H as [H|[H|[H|[]]]]; discriminate H. }
  split; [exact Hno|].
  destruct (load_data sample_parse (Some counts_only)) as [df|e] eqn:Hdf;
    [|vm_compute in Hdf; discriminate Hdf].
  exists df. split; [reflexivity|].
  pose proof (load_data_keeps_rows sample_parse counts_only df Hno Hdf) as H.
  apply Forall2_length in H. rewrite <- H. reflexivity.
Defined.

Lemma load_data_norm_column_witness :
  "nom_region"%string ∈ raw_columns sample_csv
  /\ exists df,
       load_data sample_parse (Some sample_csv) = Ok df
       /\ "nom_region_norm"%string ∈ columns df
       /\ map nom_region_norm (rows df)
          = [Some (u "ile-de-france"); Some (u "nan")].
Proof.
  assert (Hc : "nom_region"%string ∈ raw_columns sample_csv)
    by (apply list_elem_of_In; simpl; tauto).
  split; [exact Hc|].
  destruct (load_data sample_parse (Some sample_csv)) as [df|e] eqn:Hdf;
    [|vm_compute in Hdf; discriminate Hdf].
  exists df. split; [reflexivity|].
  destruct (load_data_norm_column sample_parse sample_csv df Hc Hdf)
    as (Hn & _).
  split; [exact Hn|].
  vm_compute in Hdf. injection Hdf as <-. reflexivity.
Defined.

Lemma load_data_build_region_metrics_witness :
  (forall c, c ∈ csv_columns -> c ∈ raw_columns sample_csv)
  /\ exists df g,
       load_data sample_parse (Some sample_csv) = Ok df
       /\ build_region_metrics df = Ok g.
Proof.
  assert (Hall : forall c, c ∈ csv_columns -> c ∈ raw_columns sample_csv).
  { intros c Hc. apply list_elem_of_In in Hc. apply list_elem_of_In.
    simpl in *. intuition (subst; auto). }
  split; [exact Hall|].
  destruct (load_data sample_parse (Some sample_csv)) as [df|e] eqn:Hdf;
    [|vm_compute in Hdf; discriminate Hdf].
  destruct (load_data_build_region_metrics sample_parse sample_csv df Hdf)
    as [Hok _].
  destruct (Hok Hall) as (g & Hg). exists df, g. split; [reflexivity|exact Hg].
Defined.

(** ** Totals of the metrics *)










(** ** The variations of a region add up *)





(** ** Diagnostics: the counts *)





(** ** The annotation of a feature without properties *)

Lemma bind_raise {A B} (m : M A) (f : A -> M B) (h h1 : list object) (e : exn) :
  m h = (Raise e, h1) -> bind m f h = (Raise e, h1).
Proof. intros H. unfold bind. rewrite H. reflexivity. Qed.

Section GeoJSONNull.

Variable py_repr : store -> value -> str.

(** The body of the loop on a feature whose properties are [null]:
    [setdefault] returns the [None] that is there, which has no [get]. *)
Lemma annotate_null (key : list N) (feat : value) (fd : list (list N * json))
    (lo hi : nat) (h : list object) :
  rep h lo hi feat (JObj fd) ->
  dict_get (u "properties") fd = Some JNull ->
  annotate py_repr key feat h = (Raise AttributeError, h).
Proof.
  intros Hrep Hnull.
  inversion Hrep as [ | | | | |lo0 a fkv fd0 Hfd Ha]; subst.
  pose proof (repd_get h lo a fkv fd (u "properties") Hfd) as Hget.
  unfold annotate.
  rewrite (bind_run _ _ h h fkv) by (cbn [read_dict]; rewrite Ha; reflexivity).
  destruct (dict_get (u "properties") fkv) as [vp|] eqn:Hp; [|congruence].
  destruct Hget as (jp & lo' & hi' & Hjp & Hrp & _).
  rewrite Hnull in Hjp. injection Hjp as <-. inversion Hrp; subst.
  rewrite (bind_run _ _ h h VNone) by reflexivity. reflexivity.
Qed.

Lemma loose_not_plain (f : json) :
  loose_feature f = true -> plain_feature f = false ->
  exists fd, f = JObj fd /\ dict_get (u "properties") fd = Some JNull.
Proof.
  intros Hl Hp. destruct f as [| | | | |fd]; try discriminate Hl.
  cbn [loose_feature plain_feature] in Hl, Hp.
  exists fd. split; [reflexivity|].
  destruct (dict_get (u "properties") fd) as [[| | | | |]|];
    cbn in Hl, Hp; try discriminate Hl; try discriminate Hp.
  reflexivity.
Qed.

Lemma for_each_annotate_outcome (key : list N) (vs : list value)
    (fs : list json) (lo hi : nat) (h : list object) :
  reps h lo hi vs fs -> (hi <= length h)%nat ->
  forallb loose_feature fs = true ->
  exists h', for_each (annotate py_repr key) vs h
             = (if forallb plain_feature fs then Ok () else Raise AttributeError,
                h').
Proof.
  intros Hreps. revert lo hi fs h Hreps.
  induction vs as [|v vs IH]; intros lo hi fs h Hreps Hhi Hloose;
    inversion Hreps as [|lo0 mid hi0 v0 j vs0 js Hv Hvs]; subst.
  - eexists; reflexivity.
  - cbn [forallb] in Hloose |- *. apply andb_prop in Hloose as [Hj Hjs].
    pose proof (proj1 (rep_le h) _ _ _ _ Hv) as Hle1.
    pose proof (proj1 (proj2 (rep_le h)) _ _ _ _ Hvs) as Hle2.
    cbn [for_each].
    destruct (plain_feature j) eqn:Hplain; cbn [andb].
    + destruct (annotate_returns py_repr key v j lo mid h Hv Hplain) as (h1 & Hstep).
      destruct (annotate_step py_repr key v j lo mid h h1 () Hv ltac:(lia) Hstep)
        as (f' & _ & Hlen1 & Hframe1 & _).
      assert (Hvs1 : reps h1 mid hi vs js).
      { apply (proj1 (proj2 (rep_frame h)) _ _ _ _ Hvs).
        intros l Hl. apply Hframe1; lia. }
      destruct (IH mid hi js h1 Hvs1 ltac:(lia) Hjs) as (h' & Hrun).
      exists h'. rewrite (bind_run _ _ h h1 () Hstep). exact Hrun.
    + destruct (loose_not_plain j Hj Hplain) as (fd & -> & Hnull).
      exists h. apply bind_raise. apply (annotate_null key v fd lo mid h Hv Hnull).
Qed.

Lemma guess_geojson_region_key_loose (top : list (list N * json))
    (fs : list json) :
  dict_get (u "features") top = Some (JArr fs) ->
  forallb loose_feature fs = true ->
  exists key, guess_geojson_region_key (JObj top) = Ok key.
Proof.
  intros Hf Hloose. destruct fs as [|f rest].
  - exists (u "nom"). unfold guess_geojson_region_key. cbn [get_method].
    rewrite Hf. reflexivity.
  - cbn [forallb] in Hloose. apply andb_prop in Hloose as [Hl _].
    destruct f as [| | | | |fd]; try discriminate Hl.
    cbn [loose_feature] in Hl.
    destruct (dict_get (u "properties") fd) as [[| | | | |pd]|] eqn:Hp;
      try discriminate Hl.
    + eexists. apply (guess_geojson_region_key_first _ []).
      exists top, fd, rest. repeat split; [exact Hf|]. right.
      split; [reflexivity|]. right. exact Hp.
    + eexists. apply (guess_geojson_region_key_first _ pd).
      exists top, fd, rest. repeat split; [exact Hf|]. left. exact Hp.
    + eexists. apply (guess_geojson_region_key_first _ []).
      exists top, fd, rest. repeat split; [exact Hf|]. right.
      split; [reflexivity|]. left. exact Hp.
Qed.

(** X12: on a collection whose features are objects with properties that
    are an object, [null] or absent, one of them [null], key detection
    returns but [geojson_with_norm_names] raises [AttributeError]. *)
Theorem geojson_with_norm_names_null_properties (geojson : value)
    (h : list object) (d : nat) (top : list (list N * json)) (fs : list json) :
  tree d h geojson = Ok (JObj top) ->
  dict_get (u "features") top = Some (JArr fs) ->
  forallb loose_feature fs = true ->
  forallb plain_feature fs = false ->
  (exists key, guess_geojson_region_key (JObj top) = Ok key)
  /\ exists h',
       geojson_with_norm_names py_repr geojson h = (Raise AttributeError, h').
Proof.
  intros Hj Hf Hloose Hplain.
  pose proof (guess_geojson_region_key_loose top fs Hf Hloose) as Hguess.
  split; [exact Hguess|]. destruct Hguess as (key & Hkey).
  destruct (loads (JObj top) h) as [gj h1] eqn:Hl.
  pose proof (json_loads_dumps _ h gj h1 Hl) as Hback.
  destruct (loads_rep _ h gj h1 Hl) as [Hrep _].
  unfold geojson_with_norm_names.
  rewrite (bind_run _ _ h h _ (json_dumps_total h geojson _ d Hj)).
  rewrite (bind_run _ _ h h1 gj) by (unfold json_loads; rewrite Hl; reflexivity).
  rewrite (bind_run _ _ h1 h1 (JObj top))
    by (unfold json_dumps in *; cbn [fst] in Hback; rewrite Hback; reflexivity).
  rewrite (bind_run _ _ h1 h1 key)
    by (unfold lift; rewrite Hkey; reflexivity).
  inversion Hrep as [ | | | | |lo0 r topkv top0 Htop Hr]; subst.
  pose proof (proj2 (proj2 (rep_le h1)) _ _ _ _ Htop) as Hler.
  pose proof (lookup_lt_Some _ _ _ Hr) as Hrlt.
  rewrite (bind_run _ _ h1 h1 topkv)
    by (cbn [read_dict]; rewrite Hr; reflexivity).
  pose proof (repd_get h1 (length h) r topkv top (u "features") Htop) as Hget.
  destruct (dict_get (u "features") topkv) as [fv|] eqn:Hfv.
  - destruct Hget as (jf & lo' & hi' & Hjf & Hrf & Hlo' & Hhi' & _).
    rewrite Hf in Hjf. injection Hjf as <-.
    inversion Hrf as [ | | | |lo0 l vs fs0 Hvs Hl'|]; subst.
    rewrite (bind_run _ _ h1 h1 vs)
      by (cbn [items_of]; rewrite Hl'; reflexivity).
    destruct (for_each_annotate_outcome key vs fs lo' l h1 Hvs ltac:(lia) Hloose)
      as (h' & Hloop).
    rewrite Hplain in Hloop. exists h'. apply bind_raise, Hloop.
  - rewrite Hf in Hget. discriminate Hget.
Qed.

End GeoJSONNull.

Lemma geojson_with_norm_names_null_properties_witness :
  tree 3 null_store (VRef 2%nat)
  = Ok (JObj [(u "features", JArr [JObj [(u "properties", JNull)]])])
  /\ (geojson_with_norm_names sample_repr (VRef 2%nat) null_store).1
     = Raise AttributeError.
Proof.
  assert (H : tree 3 null_store (VRef 2%nat)
              = Ok (JObj [(u "features", JArr [JObj [(u "properties", JNull)]])]))
    by (vm_compute; reflexivity).
  split; [exact H|].
  destruct (geojson_with_norm_names_null_properties
              sample_repr (VRef 2%nat) null_store 3 _
              [JObj [(u "properties", JNull)]] H eq_refl eq_refl eq_refl)
    as [_ (h' & Hrun)].
  rewrite Hrun. reflexivity.
Defined.

(** ** From the file to the diagnostics *)

(** The steps of a run of the diagnostics that returns. *)
Lemma compute_matching_diagnostics_run (g_y : list Metric) (j : json)
    (d : Diagnostics) :
  compute_matching_diagnostics g_y j = Ok d ->
  exists feats values ks (D G : gset (list N)),
    get_method j (u "features") (JArr []) ≫= iterate = Ok feats
    /\ mapM region_norm_of feats = Ok values
    /\ mapM geo_key values = Ok ks
    /\ (forall k, k ∈ D <-> k ∈ data_keys g_y)
    /\ (forall k, k ∈ G <-> Some k ∈ ks)
    /\ d = {| n_regions_data := size D;
              n_regions_geo := size G;
              missing_in_geo := sorted (D ∖ G);
              missing_in_data := sorted (G ∖ D) |}.
Proof.
  unfold compute_matching_diagnostics. intros H.
  destruct (get_method j _ _) as [features|e]; [|discriminate H].
  cbn [mbind result_bind] in H |- *.
  destruct (iterate features) as [feats|e]; [|discriminate H].
  cbn [mbind result_bind] in H.
  destruct (mapM region_norm_of feats) as [values|e] eqn:Hv; [|discriminate H].
  cbn [mbind result_bind] in H.
  destruct (mapM geo_key values) as [ks|e] eqn:Hk; [|discriminate H].
  cbn [mbind result_bind] in H. injection H as <-.
  eexists feats, values, ks, _, _.
  split; [reflexivity|]. split; [exact Hv|]. split; [exact Hk|].
  split; [|split; [|reflexivity]].
  - intros k. unfold set_of, data_keys.
    rewrite elem_of_list_to_set, unique_elem, list_elem_of_omap. split.
    + intros (o & Ho & Hko). unfold id in Hko. subst o.
      apply list_elem_of_In, in_map_iff in Ho as (m & [= <-] & Hin).
      apply list_elem_of_In, in_map_iff. exists m. split; [reflexivity|exact Hin].
    + intros Hin. apply list_elem_of_In, in_map_iff in Hin as (m & <- & Hin).
      exists (Some (ry_nom_region_norm (group m))). split; [|reflexivity].
      apply list_elem_of_In, in_map_iff. exists m. split; [reflexivity|exact Hin].
  - intros k. unfold set_of. rewrite elem_of_list_to_set, list_elem_of_omap.
    split.
    + intros (o & Ho & Hko). unfold id in Hko. subst o. exact Ho.
    + intros Ho. exists (Some k). split; [exact Ho|reflexivity].
Qed.

(** The values and the keys that the diagnostics read on an annotated
    collection. *)
Lemma annotated_values (j : json) (keys : list (list N)) :
  annotated j keys ->
  exists fs,
    get_method j (u "features") (JArr []) ≫= iterate = Ok fs
    /\ mapM region_norm_of fs = Ok (map JStr keys)
    /\ mapM geo_key (map JStr keys) = Ok (kept_keys keys).
Proof.
  intros (top & fs & -> & Hfs & Hkeys). exists fs. split; [|split].
  - cbn [get_method]. destruct Hfs as [->|[-> ->]]; reflexivity.
  - apply mapM_Forall2. clear Hfs.
    induction Hkeys as [|f k fs keys (fd & pd & -> & Hp & Hk) _ IH];
      simpl; constructor; [|exact IH].
    unfold region_norm_of. cbn [get_method]. rewrite Hp.
    cbn [default id mbind result_bind get_method]. rewrite Hk. reflexivity.
  - apply mapM_Forall2. unfold kept_keys. clear.
    induction keys; simpl; constructor; [reflexivity|assumption].
Qed.

Lemma kept_keys_elem (keys : list (list N)) (k : list N) :
  Some k ∈ kept_keys keys <-> k ∈ keys /\ k <> [].
Proof.
  unfold kept_keys. rewrite list_elem_of_fmap. split.
  - intros (k' & Hk' & Hin).
    destruct (bool_decide (k' = [])) eqn:Hb; [discriminate Hk'|].
    injection Hk' as ->. apply bool_decide_eq_false in Hb. split; assumption.
  - intros [Hin Hne]. exists k.
    rewrite bool_decide_eq_false_2 by exact Hne. split; [reflexivity|exact Hin].
Qed.

(** The diagnostics of an annotated collection, key by key. *)
Lemma compute_matching_diagnostics_keys (g_y : list Metric) (j : json)
    (keys : list (list N)) :
  annotated j keys ->
  exists d,
    compute_matching_diagnostics g_y j = Ok d
    /\ (forall k, k ∈ missing_in_geo d
                  <-> k ∈ data_keys g_y /\ ~ (k ∈ keys /\ k <> []))
    /\ (forall k, k ∈ missing_in_data d
                  <-> (k ∈ keys /\ k <> []) /\ k ∉ data_keys g_y).
Proof.
  intros Hann. destruct (annotated_values j keys Hann) as (fs & Hit & Hv & Hk).
  destruct (compute_matching_diagnostics g_y j) as [d|e] eqn:Hd.
  - exists d. split; [reflexivity|].
    destruct (compute_matching_diagnostics_run g_y j d Hd)
      as (fs' & vs' & ks' & D & G & Hit' & Hv' & Hk' & HD & HG & ->).
    rewrite Hit in Hit'. injection Hit' as <-.
    rewrite Hv in Hv'. injection Hv' as <-.
    rewrite Hk in Hk'. injection Hk' as <-.
    cbn [missing_in_geo missing_in_data].
    split; intros k.
    + rewrite (proj2 (proj2 (sorted_spec (D ∖ G))) k), elem_of_difference.
      rewrite HD, HG, kept_keys_elem. reflexivity.
    + rewrite (proj2 (proj2 (sorted_spec (G ∖ D))) k), elem_of_difference.
      rewrite HD, HG, kept_keys_elem. reflexivity.
  - exfalso. unfold compute_matching_diagnostics in Hd.
    destruct (get_method j _ _) as [features|e']; [|discriminate Hit].
    cbn [mbind result_bind] in Hit, Hd. rewrite Hit in Hd.
    cbn [mbind result_bind] in Hd. rewrite Hv in Hd.
    cbn [mbind result_bind] in Hd. rewrite Hk in Hd. discriminate Hd.
Qed.

Lemma annotated_feature_key (key : list N) (f f' : json) :
  annotated_feature key f f' ->
  exists fd t, f = JObj fd /\ annotation_of key (properties_of fd) t
               /\ feature_key f' t.
Proof.
  intros (fd & t & -> & -> & Hann). exists fd, t.
  split; [reflexivity|]. split; [exact Hann|].
  eexists _, _. split; [reflexivity|]. split; apply dict_get_set_eq.
Qed.

Lemma Forall2_keys (key : list N) (fs fs' : list json) :
  Forall2 (annotated_feature key) fs fs' ->
  exists keys,
    Forall2 feature_key fs' keys
    /\ Forall2 (fun f t => exists fd, f = JObj fd
                                      /\ annotation_of key (properties_of fd) t)
               fs keys.
Proof.
  induction 1 as [|f f' fs fs' Hf _ (keys & IH1 & IH2)];
    [exists []; split; constructor|].
  destruct (annotated_feature_key key f f' Hf) as (fd & t & -> & Hann & Ht).
  exists (t :: keys). split; constructor; eauto.
Qed.

Section GeoJSONPipeline.

Variable py_repr : store -> value -> str.

(** X13: for a document that is a collection of features with properties
    that are an object or absent, and for every metrics table, loading the
    document, annotating it and computing the diagnostics on the
    collection returned raises nothing.  With [keys] the annotations of
    the features (the normalised name where the property at the detected
    key is a text, the empty text where it is [null] or absent), the keys
    missing in the collection are the keys of the table that are no
    annotation other than the empty text, and the keys missing in the
    table are the annotations other than the empty text that are no key
    of the table. *)
Theorem geojson_pipeline_diagnostics (top : list (list N * json)) (fs : list json)
    (g_y : list Metric) (h : list object) :
  dict_get (u "features") top = Some (JArr fs) ->
  forallb plain_feature fs = true ->
  exists key keys d h',
    (let* geojson := load_geojson (Document (JObj top)) in
     let* out := geojson_with_norm_names py_repr geojson in
     let* t := json_dumps out.1 in
     lift (compute_matching_diagnostics g_y t)) h = (Ok d, h')
    /\ guess_geojson_region_key (JObj top) = Ok key
    /\ Forall2 (fun f t => exists fd, f = JObj fd
                                      /\ annotation_of key (properties_of fd) t)
               fs keys
    /\ (forall k, k ∈ missing_in_geo d
                  <-> k ∈ data_keys g_y /\ ~ (k ∈ keys /\ k <> []))
    /\ (forall k, k ∈ missing_in_data d
                  <-> (k ∈ keys /\ k <> []) /\ k ∉ data_keys g_y).
Proof.
  intros Hf Hplain.
  assert (Hcoll : feature_collection (JObj top) = true)
    by (cbn [feature_collection]; rewrite Hf; exact Hplain).
  cbn [load_geojson].
  destruct (loads (JObj top) h) as [v h1] eqn:Hl.
  pose proof (json_loads_dumps _ h v h1 Hl) as Hv.
  unfold json_dumps in Hv. cbn [fst] in Hv.
  destruct (geojson_with_norm_names_returns py_repr v h1 _ _ Hv Hcoll)
    as (gj & key & h2 & Hrun).
  destruct (geojson_with_norm_names_run py_repr v gj key h1 h2 Hrun)
    as (top0 & top' & Hj & Hkey & Htree & _ & Hfeat & Hshape).
  unfold json_dumps in Hj. cbn [fst] in Hj. rewrite Hv in Hj.
  injection Hj as <-.
  assert (Hfs : features_of top = fs) by (unfold features_of; rewrite Hf; reflexivity).
  rewrite Hfs in Hfeat, Hshape.
  assert (Hann : exists keys,
    annotated (JObj top') keys
    /\ Forall2 (fun f t => exists fd, f = JObj fd
                                      /\ annotation_of key (properties_of fd) t)
               fs keys).
  { destruct Hshape as [[-> ->]|(fs' & ->)].
    - exists []. split; [|constructor].
      exists top, []. split; [reflexivity|]. split; [left; exact Hf|constructor].
    - unfold features_of in Hfeat. rewrite dict_get_set_eq in Hfeat.
      destruct (Forall2_keys key _ _ Hfeat) as (keys & Hkeys & Hanns).
      exists keys. split; [|exact Hanns].
      exists (dict_set (u "features") (JArr fs') top), fs'.
      split; [reflexivity|]. split; [left; apply dict_get_set_eq|exact Hkeys]. }
  destruct Hann as (keys & Hann & Hanns).
  destruct (compute_matching_diagnostics_keys g_y _ keys Hann)
    as (d & Hd & Hgeo & Hdata).
  exists key, keys, d, h2.
  split; [|split; [exact Hkey|split; [exact Hanns|split; assumption]]].
  rewrite (bind_run _ _ h h1 v) by (unfold json_loads; rewrite Hl; reflexivity).
  rewrite (bind_run _ _ h1 h2 (gj, key) Hrun). cbn [fst].
  rewrite (bind_run _ _ h2 h2 (JObj top'))
    by (apply (json_dumps_total h2 gj _ _ (Htree _ (le_n _)))).
  unfold lift. rewrite Hd. reflexivity.
Qed.

End GeoJSONPipeline.

Lemma geojson_pipeline_diagnostics_witness :
  forallb plain_feature (features_of sample_members) = true
  /\ exists key d h',
       (let* geojson := load_geojson (Document (JObj sample_members)) in
        let* out := geojson_with_norm_names sample_repr geojson in
        let* t := json_dumps out.1 in
        lift (compute_matching_diagnostics [] t)) [] = (Ok d, h')
       /\ guess_geojson_region_key (JObj sample_members) = Ok key.
Proof.
  assert (Hf : dict_get (u "features") sample_members
               = Some (JArr (features_of sample_members)))
    by (vm_compute; reflexivity).
  assert (H : forallb plain_feature (features_of sample_members) = true)
    by (vm_compute; reflexivity).
  split; [exact H|].
  destruct (geojson_pipeline_diagnostics sample_repr sample_members
              (features_of sample_members) [] [] Hf H)
    as (key & keys & d & h' & Hrun & Hkey & _).
  exists key, d, h'. split; [exact Hrun|exact Hkey].
Defined.

(** ** The diagnostics of a collection without annotations *)

Lemma bare_values (fs : list json) :
  forallb bare_feature fs = true ->
  mapM region_norm_of fs = Ok (map (fun _ => JStr []) fs).
Proof.
  intros H. apply mapM_Forall2. induction fs as [|f fs IH]; [constructor|].
  cbn [forallb] in H. apply andb_prop in H as [Hf Hfs].
  cbn [map]. constructor; [|apply IH, Hfs].
  destruct f as [| | | | |fd]; try discriminate Hf.
  unfold region_norm_of. cbn [get_method bare_feature] in *.
  destruct (dict_get (u "properties") fd) as [[| | | | |pd]|];
    try discriminate Hf; cbn [default id mbind result_bind get_method].
  - apply bool_decide_eq_true in Hf. rewrite Hf. reflexivity.
  - reflexivity.
Qed.

(** X19: on a collection whose features carry no annotation (objects
    without properties, or with properties that are an object without
    ["region_norm"]), [compute_matching_diagnostics] raises nothing: it
    counts no region of the collection, lists no key missing in the
    table, and lists every key of the table as missing in the
    collection. *)
Theorem compute_matching_diagnostics_bare (g_y : list Metric)
    (top : list (list N * json)) (fs : list json) :
  (dict_get (u "features") top = Some (JArr fs)
   \/ (dict_get (u "features") top = None /\ fs = [])) ->
  forallb bare_feature fs = true ->
  exists d,
    compute_matching_diagnostics g_y (JObj top) = Ok d
    /\ n_regions_geo d = 0%nat /\ missing_in_data d = []
    /\ length (missing_in_geo d) = n_regions_data d
    /\ (forall k, k ∈ missing_in_geo d <-> k ∈ data_keys g_y).
Proof.
  intros Hf Hbare. pose proof (bare_values fs Hbare) as Hv.
  assert (Hk : mapM geo_key (map (fun _ : json => JStr []) fs)
               = Ok (map (fun _ => None) fs)).
  { apply mapM_Forall2. clear. induction fs; simpl; constructor; auto. }
  assert (Hit : get_method (JObj top) (u "features") (JArr []) ≫= iterate = Ok fs).
  { cbn [get_method]. destruct Hf as [->|[-> ->]]; reflexivity. }
  destruct (compute_matching_diagnostics g_y (JObj top)) as [d|e] eqn:Hd.
  - exists d. split; [reflexivity|].
    destruct (compute_matching_diagnostics_run g_y _ d Hd)
      as (fs' & vs' & ks' & D & G & Hit' & Hv' & Hk' & HD & HG & ->).
    rewrite Hit in Hit'. injection Hit' as <-.
    rewrite Hv in Hv'. injection Hv' as <-.
    rewrite Hk in Hk'. injection Hk' as <-.
    assert (HGe : G = ∅).
    { apply leibniz_equiv. intros k. rewrite HG, list_elem_of_fmap. split.
      - intros (? & [=] & _).
      - intros Hk0. apply elem_of_empty in Hk0. destruct Hk0. }
    subst G. cbn.
    assert (Hempty : (∅ : gset (list N)) ∖ D = ∅).
    { apply leibniz_equiv. intros k. rewrite elem_of_difference.
      split; [intros [Hk0 _]; exact Hk0|intros Hk0; apply elem_of_empty in Hk0; destruct Hk0]. }
    assert (Hall : D ∖ ∅ = D).
    { apply leibniz_equiv. intros k. rewrite elem_of_difference.
      split; [intros [Hk0 _]; exact Hk0|].
      intros Hk0. split; [exact Hk0|apply not_elem_of_empty]. }
    rewrite Hempty, Hall.
    split; [apply size_empty|]. split; [reflexivity|].
    split; [unfold sorted; rewrite stable_sort_perm; reflexivity|].
    intros k. rewrite (proj2 (proj2 (sorted_spec D)) k). apply HD.
  - exfalso. unfold compute_matching_diagnostics in Hd.
    destruct (get_method (JObj top) _ _) as [features|e']; [|discriminate Hit].
    cbn [mbind result_bind] in Hit, Hd. rewrite Hit in Hd.
    cbn [mbind result_bind] in Hd. rewrite Hv in Hd.
    cbn [mbind result_bind] in Hd. rewrite Hk in Hd. discriminate Hd.
Qed.

Lemma compute_matching_diagnostics_bare_witness :
  forallb bare_feature (features_of raw_collection) = true
  /\ exists d,
       compute_matching_diagnostics [] (JObj raw_collection) = Ok d
       /\ n_regions_geo d = 0%nat.
Proof.
  assert (Hf : dict_get (u "features") raw_collection
               = Some (JArr (features_of raw_collection)))
    by (vm_compute; reflexivity).
  assert (H : forallb bare_feature (features_of raw_collection) = true)
    by (vm_compute; reflexivity).
  split; [exact H|].
  destruct (compute_matching_diagnostics_bare [] raw_collection
              (features_of raw_collection) (or_introl Hf) H)
    as (d & Hd & Hgeo & _).
  exists d. split; [exact Hd|exact Hgeo].
Defined.

(** ** The dashboard: detection of the columns *)

Lemma cols_lower_get (k : list N) (cols : list string) :
  forall d,
  match dict_get k (fold_left (fun d c => dict_set (lower (u c)) c d) cols d) with
  | Some c =>
      last_named k cols c
      \/ ((forall c', c' ∈ cols -> lower (u c') <> k) /\ dict_get k d = Some c)
  | None => (forall c', c' ∈ cols -> lower (u c') <> k) /\ dict_get k d = None
  end.
Proof.
  induction cols as [|c cols IH]; intros d; cbn [fold_left].
  - destruct (dict_get k d); [right|]; (split; [intros c' H; inversion H|reflexivity]).
  - specialize (IH (dict_set (lower (u c)) c d)).
    destruct (dict_get k (fold_left _ cols _)) as [r|].
    + destruct IH as [(pre & post & -> & Hr & Hpost)|[Hno Hget]].
      * left. exists (c :: pre), post. split; [reflexivity|]. split; assumption.
      * destruct (decide (lower (u c) = k)) as [Hk|Hk].
        -- left. rewrite <- Hk, dict_get_set_eq in Hget. injection Hget as <-.
           exists [], cols. split; [reflexivity|]. split; [exact Hk|exact Hno].
        -- right. rewrite dict_get_set_ne in Hget by congruence.
           split; [|exact Hget]. intros c' Hc'.
           apply elem_of_cons in Hc' as [->|Hc']; [exact Hk|apply Hno, Hc'].
    + destruct IH as [Hno Hget].
      destruct (decide (lower (u c) = k)) as [Hk|Hk].
      * rewrite <- Hk, dict_get_set_eq in Hget. discriminate Hget.
      * rewrite dict_get_set_ne in Hget by congruence.
        split; [|exact Hget]. intros c' Hc'.
        apply elem_of_cons in Hc' as [->|Hc']; [exact Hk|apply Hno, Hc'].
Qed.

Lemma last_named_elem (cand : list N) (cols : list string) (c : string) :
  last_named cand cols c -> c ∈ cols /\ lower (u c) = cand.
Proof.
  intros (pre & post & -> & Hc & _). split; [|exact Hc].
  apply elem_of_app. right. left.
Qed.

Lemma first_column_detected (cands : list (list N)) (cols : list string) :
  detected cands cols (first_column cands (cols_lower cols)).
Proof.
  unfold cols_lower. induction cands as [|cand cands IH]; cbn [first_column].
  - intros c _ H. inversion H.
  - pose proof (cols_lower_get cand cols []) as Hget.
    destruct (dict_get cand _) as [c|].
    + destruct Hget as [Hlast|[_ Hd]]; [|discriminate Hd].
      exists cand. split; [|exact Hlast].
      exists 0%nat. split; [reflexivity|]. split.
      * exists c. apply last_named_elem, Hlast.
      * intros j y Hj. lia.
    + destruct Hget as [Hno _].
      destruct (first_column cands _) as [c|].
      * destruct IH as (k & (i & Hi & Hk & Hbefore) & Hlast).
        exists k. split; [|exact Hlast].
        exists (S i). split; [exact Hi|]. split; [exact Hk|].
        intros [|j] y Hj Hy.
        -- injection Hy as <-. intros (c' & Hc' & Hlow). exact (Hno c' Hc' Hlow).
        -- apply (Hbefore j y); [lia|exact Hy].
      * intros c Hc Hin. apply elem_of_cons in Hin as [Heq|Hin].
        -- exact (Hno c Hc Heq).
        -- exact (IH c Hc Hin).
Qed.

(** X14: [guess_class_col] compares the lowercase names of the columns
    with its candidates: it returns the column named as the first
    candidate that names a column, the last one when several columns have
    this lowercase name, and [None] when no candidate names a column.
    The column returned is a column of the table. *)
Theorem guess_class_col_detected (df : DataFrame) :
  detected class_candidates (columns df) (guess_class_col df)
  /\ (forall c, guess_class_col df = Some c -> c ∈ columns df).
Proof.
  pose proof (first_column_detected class_candidates (columns df)) as H.
  split; [exact H|]. unfold guess_class_col. intros c Hc. rewrite Hc in H.
  destruct H as (cand & _ & Hlast). apply (last_named_elem cand), Hlast.
Qed.

Lemma guess_class_col_detected_witness :
  guess_class_col mixed_case = Some "INDICATEUR"%string
  /\ "INDICATEUR"%string ∈ columns mixed_case.
Proof.
  assert (H : guess_class_col mixed_case = Some "INDICATEUR"%string)
    by (vm_compute; reflexivity).
  split; [exact H|exact (proj2 (guess_class_col_detected mixed_case) _ H)].
Defined.

(** X15: [guess_commune_col] returns the column named, whatever the case,
    as the first of its candidates that names a column, the last one when
    several columns have this lowercase name, and [None] when no candidate
    names a column.  The column returned is a column of the table. *)
Theorem guess_commune_col_detected (df : DataFrame) :
  detected commune_candidates (columns df) (guess_commune_col df)
  /\ (forall c, guess_commune_col df = Some c -> c ∈ columns df).
Proof.
  pose proof (first_column_detected commune_candidates (columns df)) as H.
  split; [exact H|]. unfold guess_commune_col. intros c Hc. rewrite Hc in H.
  destruct H as (cand & _ & Hlast). apply (last_named_elem cand), Hlast.
Qed.

Lemma guess_commune_col_detected_witness :
  guess_commune_col mixed_case = Some "Nom_Commune"%string
  /\ "Nom_Commune"%string ∈ columns mixed_case.
Proof.
  assert (H : guess_commune_col mixed_case = Some "Nom_Commune"%string)
    by (vm_compute; reflexivity).
  split; [exact H|exact (proj2 (guess_commune_col_detected mixed_case) _ H)].
Defined.

(** ** The dashboard: the row of the other categories *)








(** ** The dashboard: the code of a label *)

Lemma split_sep_plain (sep s : list N) :
  is_substring sep s = false ->
  forall cur, split_sep sep s 0 cur = [rev cur ++ s].
Proof.
  induction s as [|c s IH]; intros Hs cur.
  - cbn. rewrite app_nil_r. reflexivity.
  - cbn [is_substring] in Hs. apply orb_false_iff in Hs as [Hp Hs].
    cbn [split_sep]. rewrite Hp, (IH Hs). cbn [rev].
    rewrite <- app_assoc. reflexivity.
Qed.

Lemma split_sep_skip (sep a s cur : list N) :
  split_sep sep (a ++ s) (length a) cur = split_sep sep s 0 cur.
Proof.
  induction a as [|c a IH]; [destruct s; reflexivity|]. exact IH.
Qed.

Lemma label_end_chars (code : list N) :
  label_end code
  = 0x29 :: 0x20 :: 0x2014 :: 0x20
    :: 0x49 :: 0x4E :: 0x53 :: 0x45 :: 0x45 :: 0x20 :: code.
Proof. reflexivity. Qed.

Lemma insee_chars : u "INSEE " = [0x49; 0x4E; 0x53; 0x45; 0x45; 0x20].
Proof. reflexivity. Qed.

Lemma split_sep_label_end (code cur : list N) :
  is_substring (u "INSEE ") code = false ->
  split_sep (u "INSEE ") (label_end code) 0 cur
  = [rev cur ++ [0x29; 0x20; 0x2014; 0x20]; code].
Proof.
  intros Hcode. pose proof (split_sep_plain _ code Hcode []) as Hplain.
  rewrite label_end_chars. rewrite insee_chars in *.
  cbn [split_sep is_prefix N.eqb Pos.eqb andb length Nat.sub].
  rewrite Hplain. cbn [rev app]. rewrite <- !app_assoc. reflexivity.
Qed.

Lemma is_prefix_short (p1 code : list N) :
  (length p1 < 6)%nat ->
  is_prefix (u "INSEE ") (p1 ++ label_end code) = false.
Proof.
  intros Hlen. rewrite label_end_chars, insee_chars.
  destruct p1 as [|a1 [|a2 [|a3 [|a4 [|a5 [|a6 p1]]]]]];
    [| | | | | |cbn [length] in Hlen; lia];
    cbn [app is_prefix N.eqb Pos.eqb];
    rewrite ?andb_false_r; reflexivity.
Qed.

Lemma split_sep_before (code : list N) (p : list N) :
  forall skip cur, (skip <= length p)%nat ->
  exists parts cur',
    split_sep (u "INSEE ") (p ++ label_end code) skip cur
    = parts ++ split_sep (u "INSEE ") (label_end code) 0 cur'.
Proof.
  induction p as [|c p IH]; intros skip cur Hskip.
  - cbn [length] in Hskip. replace skip with 0%nat by lia.
    exists [], cur. reflexivity.
  - cbn [app split_sep]. destruct skip as [|k].
    + destruct (is_prefix (u "INSEE ") (c :: p ++ label_end code)) eqn:Hp.
      * assert (Hlen : (5 <= length p)%nat).
        { destruct (le_lt_dec 5 (length p)) as [H|H]; [exact H|].
          pose proof (is_prefix_short (c :: p) code
                        ltac:(cbn [length]; lia)) as Hshort.
          cbn [app] in Hshort. congruence. }
        destruct (IH (length (u "INSEE ") - 1)%nat [] Hlen) as (parts & cur' & ->).
        exists (rev cur :: parts), cur'. reflexivity.
      * apply IH. lia.
    + apply IH. cbn [length] in Hskip. lia.
Qed.

(** X17: the code read back from the label of a commune is the code of
    the commune, stripped, when the code does not contain ["INSEE "]; it
    is the code itself when the code has no whitespace around it. *)
Theorem commune_label_insee (nom dep reg code : list N) :
  is_substring (u "INSEE ") code = false ->
  insee_of (commune_label nom dep reg code) = strip code
  /\ (strip code = code -> insee_of (commune_label nom dep reg code) = code).
Proof.
  intros Hcode.
  assert (H : insee_of (commune_label nom dep reg code) = strip code).
  { unfold insee_of, commune_label.
    replace (nom ++ u " (" ++ dep ++ u ", " ++ reg
             ++ u ") " ++ 0x2014 :: u " INSEE " ++ code)
      with ((nom ++ u " (" ++ dep ++ u ", " ++ reg) ++ label_end code)
      by (unfold label_end; rewrite <- !app_assoc; reflexivity).
    destruct (split_sep_before code (nom ++ u " (" ++ dep ++ u ", " ++ reg)
                               0 [] ltac:(lia)) as (parts & cur' & ->).
    rewrite (split_sep_label_end code cur' Hcode).
    rewrite last_app. cbn [last default]. reflexivity. }
  split; [exact H|]. intros Hs. rewrite H. exact Hs.
Qed.

Lemma commune_label_insee_witness :
  is_substring (u "INSEE ") (u "59350") = false
  /\ insee_of (commune_label (u "Lille") (u "Nord") (u "Hauts-de-France")
                             (u "59350")) = u "59350".
Proof.
  assert (H : is_substring (u "INSEE ") (u "59350") = false) by reflexivity.
  split; [exact H|].
  exact (proj2 (commune_label_insee (u "Lille") (u "Nord")
                  (u "Hauts-de-France") (u "59350") H) eq_refl).
Defined.

(** ** The map page: the slider of the year *)

Lemma foldr_min_spec (x : Z) (l : list Z) :
  (foldr Z.min x l ∈ x :: l) /\ forall y, y ∈ x :: l -> (foldr Z.min x l <= y)%Z.
Proof.
  induction l as [|z l [IHin IHle]]; cbn [foldr].
  - split; [left|]. intros y Hy. apply list_elem_of_singleton in Hy. lia.
  - split.
    + destruct (Z.min_spec z (foldr Z.min x l)) as [[_ ->]|[_ ->]].
      * right. left.
      * apply elem_of_cons in IHin as [->|Hin]; [left|right; right; exact Hin].
    + intros y Hy. apply elem_of_cons in Hy as [->|Hy].
      * pose proof (IHle x ltac:(left)). lia.
      * apply elem_of_cons in Hy as [->|Hy]; [lia|].
        pose proof (IHle y ltac:(right; exact Hy)). lia.
Qed.

Lemma foldr_max_spec (x : Z) (l : list Z) :
  (foldr Z.max x l ∈ x :: l) /\ forall y, y ∈ x :: l -> (y <= foldr Z.max x l)%Z.
Proof.
  induction l as [|z l [IHin IHle]]; cbn [foldr].
  - split; [left|]. intros y Hy. apply list_elem_of_singleton in Hy. lia.
  - split.
    + destruct (Z.max_spec z (foldr Z.max x l)) as [[_ ->]|[_ ->]].
      * apply elem_of_cons in IHin as [->|Hin]; [left|right; right; exact Hin].
      * right. left.
    + intros y Hy. apply elem_of_cons in Hy as [->|Hy].
      * pose proof (IHle x ltac:(left)). lia.
      * apply elem_of_cons in Hy as [->|Hy]; [lia|].
        pose proof (IHle y ltac:(right; exact Hy)). lia.
Qed.

Lemma years_elem (g : list Metric) (y : Z) :
  y ∈ years g <-> exists m, m ∈ g /\ ry_annee (group m) = y.
Proof.
  unfold years. rewrite stable_sort_perm, unique_elem, list_elem_of_fmap.
  split; intros (m & H1 & H2); exists m; split; auto.
Qed.

Lemma year_rows_elem (g : list Metric) (year : Z) (m : Metric) :
  m ∈ year_rows g year <-> m ∈ g /\ ry_annee (group m) = year.
Proof.
  unfold year_rows. rewrite !list_elem_of_In, filter_In, Z.eqb_eq. reflexivity.
Qed.

Lemma year_slider_bounds (g : list Metric) :
  (g = [] -> year_slider g = Raise ValueError)
  /\ (g <> [] ->
      exists lo hi,
        year_slider g = Ok (lo, hi, hi)
        /\ (forall m, m ∈ g -> (lo <= ry_annee (group m) <= hi)%Z)
        /\ year_rows g lo <> [] /\ year_rows g hi <> []).
Proof.
  split.
  - intros ->. reflexivity.
  - intros Hne. unfold year_slider.
    destruct (years g) as [|y ys] eqn:Hy.
    + exfalso. destruct g as [|m g]; [congruence|].
      assert (Hin : ry_annee (group m) ∈ years (m :: g))
        by (apply years_elem; exists m; split; [left|reflexivity]).
      rewrite Hy in Hin. inversion Hin.
    + cbn [py_min py_max mbind result_bind].
      destruct (foldr_min_spec y ys) as [Hlo_in Hlo].
      destruct (foldr_max_spec y ys) as [Hhi_in Hhi].
      rewrite <- Hy in Hlo_in, Hlo, Hhi_in, Hhi.
      eexists _, _. split; [reflexivity|]. split; [|split].
      * intros m Hm.
        assert (Hin : ry_annee (group m) ∈ years g)
          by (apply years_elem; eauto).
        split; [apply Hlo, Hin|apply Hhi, Hin].
      * apply years_elem in Hlo_in as (m & Hm & Hmy). intros Hnil.
        assert (Hin : m ∈ year_rows g (foldr Z.min y ys))
          by (apply year_rows_elem; split; assumption).
        rewrite Hnil in Hin. inversion Hin.
      * apply years_elem in Hhi_in as (m & Hm & Hmy). intros Hnil.
        assert (Hin : m ∈ year_rows g (foldr Z.max y ys))
          by (apply year_rows_elem; split; assumption).
        rewrite Hnil in Hin. inversion Hin.
Qed.

(** The table of the metrics is empty exactly when no row of the table
    has a region, a key and a year. *)
Lemma build_region_metrics_empty (df : DataFrame) (g : list Metric) :
  (forall c, c ∈ required -> c ∈ columns df) ->
  build_region_metrics df = Ok g ->
  (g = [] <-> List.filter keyed (rows df) = []).
Proof.
  intros H Hg. destruct (build_region_metrics_columns df H) as (g' & Hg' & HG & _).
  rewrite Hg in Hg'. injection Hg' as <-.
  pose proof (metrics_keys df g HG) as Hkeys.
  split.
  - intros ->. cbn [map] in Hkeys. symmetry in Hkeys.
    apply Permutation_nil_r in Hkeys.
    destruct (List.filter keyed (rows df)) as [|r l] eqn:Hf; [reflexivity|].
    exfalso. assert (Hr : In r (List.filter keyed (rows df)))
      by (rewrite Hf; left; reflexivity).
    apply filter_In in Hr as [Hr Hk]. unfold keyed in Hk.
    apply bool_decide_eq_true in Hk as [k Hk].
    assert (Hin : k ∈ unique (omap key_of (rows df))).
    { apply unique_elem, list_elem_of_omap. exists r.
      split; [apply list_elem_of_In, Hr|exact Hk]. }
    rewrite Hkeys in Hin. inversion Hin.
  - intros Hf. destruct g as [|m g]; [reflexivity|]. exfalso.
    assert (Hin : ry_key (group m) ∈ unique (omap key_of (rows df))).
    { rewrite <- Hkeys. left. }
    apply unique_elem, list_elem_of_omap in Hin as (r & Hr & Hk).
    assert (Hr' : In r (List.filter keyed (rows df))).
    { apply filter_In. split; [apply list_elem_of_In, Hr|].
      unfold keyed. apply bool_decide_eq_true. eauto. }
    rewrite Hf in Hr'. destruct Hr'.
Qed.

(** X18: on the metrics of a table that has the required columns, the
    slider of the year raises [ValueError] when no row of the table has a
    region name, a key and a year; otherwise its bounds are the least and
    the greatest year of the metrics, its value is the greatest, every
    year of the metrics lies between the bounds, and the selection of
    the rows of either bound is not empty. *)
Theorem year_slider_of_metrics (df : DataFrame) :
  (forall c, c ∈ required -> c ∈ columns df) ->
  exists g,
    build_region_metrics df = Ok g
    /\ (List.filter keyed (rows df) = [] -> year_slider g = Raise ValueError)
    /\ (List.filter keyed (rows df) <> [] ->
        exists lo hi,
          year_slider g = Ok (lo, hi, hi)
          /\ (forall m, m ∈ g -> (lo <= ry_annee (group m) <= hi)%Z)
          /\ year_rows g lo <> [] /\ year_rows g hi <> []).
Proof.
  intros H. destruct (build_region_metrics_columns df H) as (g & Hg & _).
  exists g. split; [exact Hg|].
  pose proof (build_region_metrics_empty df g H Hg) as Hempty.
  destruct (year_slider_bounds g) as [Hnil Hsome].
  split.
  - intros Hf. apply Hnil, Hempty, Hf.
  - intros Hf. apply Hsome. intros Hg0. apply Hf, Hempty, Hg0.
Qed.

Lemma year_slider_of_metrics_witness :
  (forall c, c ∈ required -> c ∈ columns two_years)
  /\ exists g lo hi,
       build_region_metrics two_years = Ok g
       /\ year_slider g = Ok (lo, hi, hi)
       /\ year_rows g lo <> [].
Proof.
  assert (H : forall c, c ∈ required -> c ∈ columns two_years).
  { intros c Hc. apply list_elem_of_In in Hc. apply list_elem_of_In.
    simpl in *. tauto. }
  split; [exact H|].
  destruct (year_slider_of_metrics two_years H) as (g & Hg & _ & Hsome).
  destruct Hsome as (lo & hi & Hs & _ & Hlo & _);
    [vm_compute; discriminate|].
  exists g, lo, hi. split; [exact Hg|]. split; [exact Hs|exact Hlo].
Defined.
